(** * SonicCanvas: audio features and particle animation

  A shallow embedding of the numeric core of the SonicCanvas visualizer:
  the [AudioEngine] of audio-engine.js (beat detector, band extraction,
  feature vector) and the particle update rules of the [Visualizer] class.

  JavaScript numbers are IEEE 754 binary64 values, which is what Rocq's
  primitive [float] is, so every arithmetic expression of the source is
  written with the same operations in the same order.  Timestamps
  ([Date.now()], integral milliseconds) and array indices are integers.
  [Math.sin], [Math.cos], [Math.acos], [Math.atan2] and [Math.random] are
  left to the host by the language standard; they are section variables.
  An exception leaving a method is the result [None].

  The visualizer keeps its particles twice: as objects, and in the
  position attribute of the geometry, the array that is drawn; both are
  part of the state, and so is the radial symmetry that [update] applies
  to the attribute.

  The classes around the two are embedded as far as they act on that
  state: the [GestureController] of gesture-controller.js from the
  landmarks of a hand to the commands it hands to the visualizer, the
  [PresetManager], the [DemoMode], and the two methods of the
  [PerformanceMode] that hide and show the interface.  A timer, an
  animation frame and an answer of the hand model are events; a clock
  reading is an argument. *)

From Stdlib Require Import ZArith List Bool Lia Floats Uint63.
From Stdlib Require String Ascii.
From stdpp Require Import base list.
Import ListNotations.
Import String.StringSyntax Ascii.AsciiSyntax.

Set Warnings "-inexact-float".

(** ** JavaScript numbers *)

Module JS.

Local Open Scope float_scope.

(** Conversion of an integer below 2^63 in magnitude to a number. *)
Definition Z2F (z : Z) : float :=
  if (z <? 0)%Z then - of_uint63 (Uint63.of_Z (- z)) else of_uint63 (Uint63.of_Z z).

(** [x > y] of the source. *)
Definition gt (x y : float) : bool := y <? x.

(** [Math.max(a, b)]: NaN when an argument is NaN, and +0 over -0. *)
Definition Math_max (a b : float) : float :=
  if is_nan a || is_nan b then nan
  else if a <? b then b
  else if b <? a then a
  else if get_sign a then b else a.

(** [Math.min(a, b)]: NaN when an argument is NaN, and -0 under +0. *)
Definition Math_min (a b : float) : float :=
  if is_nan a || is_nan b then nan
  else if a <? b then a
  else if b <? a then b
  else if get_sign a then a else b.

(** The integer part, rounded towards minus infinity, of a finite number. *)
Definition floorZ (x : float) : option Z :=
  match Prim2SF x with
  | S754_zero _ => Some 0%Z
  | S754_finite s m e => Some (Z.shiftl (cond_Zopp s (Zpos m)) e)
  | _ => None
  end.

(** [Math.floor(x)].  A finite number of magnitude 2^53 or more is an
    integer already; -0 and the numbers in (0, 1) keep the sign. *)
Definition Math_floor (x : float) : float :=
  match floorZ x with
  | Some z =>
      if (z =? 0)%Z then (if get_sign x then neg_zero else zero)
      else if (Z.abs z <? 2 ^ 53)%Z then Z2F z
      else x
  | None => x
  end.

(** Storing into a [Float32Array]: rounding to binary32 (ties to even),
    the value being read back as a binary64 number. *)
Definition Math_fround (x : float) : float :=
  match Prim2SF x with
  | S754_finite s m e =>
      SF2Prim (binary_normalize 24 128 (cond_Zopp s (Zpos m)) e s)
  | _ => x
  end.

(** [Math.sqrt] and [Math.abs]. *)
Definition Math_sqrt (x : float) : float := PrimFloat.sqrt x.
Definition Math_abs (x : float) : float := PrimFloat.abs x.

(** [Math.PI]. *)
Definition Math_PI : float := 3.141592653589793.

(** [x <= y] and [|x - y| < eps] of two numbers. *)
Definition le (x y : float) : bool := x <=? y.
Definition near (x y eps : float) : bool := Math_abs (x - y) <? eps.

End JS.

Export JS.

(** ** The audio engine (audio-engine.js) *)

Module AudioEngine.

Local Open Scope float_scope.

Inductive BandName := sub | bass | low | mid | high | treble.

#[global] Instance BandName_eq_dec : EqDecision BandName.
Proof. solve_decision. Defined.

Record Range := { range_start : float; range_end : float }.

(** The fields of [AudioEngine] the analysis reads and writes.  A field
    the constructor may leave [null] is an option: [sampleRate] is
    [audioContext.sampleRate], [analyser] is present or not, [dataArray]
    is the [Uint8Array] of magnitudes. *)
Record t := {
  sampleRate : option float;
  analyser : bool;
  dataArray : option (list Z);
  bufferLength : Z;
  beatThreshold : float;
  beatDecayRate : float;
  beatMinInterval : Z;
  lastBeatTime : Z;
  currentBeat : float;
  frequencyBands : list (BandName * Range)
}.

Definition defaultBands : list (BandName * Range) :=
  [ (sub, {| range_start := 0; range_end := 60 |});
    (bass, {| range_start := 60; range_end := 250 |});
    (low, {| range_start := 250; range_end := 500 |});
    (mid, {| range_start := 500; range_end := 2000 |});
    (high, {| range_start := 2000; range_end := 4000 |});
    (treble, {| range_start := 4000; range_end := 8000 |}) ].

(** The constructor followed by a successful [initAudioContext] on a
    context of sample rate [rate]: an analyser of FFT size 2048, hence
    1024 bins. *)
Definition create (rate : float) : t :=
  {| sampleRate := Some rate;
     analyser := true;
     dataArray := Some (repeat 0%Z 1024);
     bufferLength := 1024;
     beatThreshold := 1.3;
     beatDecayRate := 0.98;
     beatMinInterval := 200;
     lastBeatTime := 0;
     currentBeat := 0;
     frequencyBands := defaultBands |}.

(** The constructor when [initAudioContext] failed and was caught. *)
Definition createFailed : t :=
  {| sampleRate := None;
     analyser := false;
     dataArray := None;
     bufferLength := 0;
     beatThreshold := 1.3;
     beatDecayRate := 0.98;
     beatMinInterval := 200;
     lastBeatTime := 0;
     currentBeat := 0;
     frequencyBands := defaultBands |}.

Definition set_beat (e : t) (last : Z) (level : float) : t :=
  {| sampleRate := sampleRate e;
     analyser := analyser e;
     dataArray := dataArray e;
     bufferLength := bufferLength e;
     beatThreshold := beatThreshold e;
     beatDecayRate := beatDecayRate e;
     beatMinInterval := beatMinInterval e;
     lastBeatTime := last;
     currentBeat := level;
     frequencyBands := frequencyBands e |}.

Definition set_dataArray (e : t) (d : list Z) : t :=
  {| sampleRate := sampleRate e;
     analyser := analyser e;
     dataArray := Some d;
     bufferLength := bufferLength e;
     beatThreshold := beatThreshold e;
     beatDecayRate := beatDecayRate e;
     beatMinInterval := beatMinInterval e;
     lastBeatTime := lastBeatTime e;
     currentBeat := currentBeat e;
     frequencyBands := frequencyBands e |}.

(** The firing test of [detectBeat]: the two nested conditions. *)
Definition beatFires (e : t) (currentAverage : float) (now : Z) : bool :=
  (beatMinInterval e <? now - lastBeatTime e)%Z
  && gt currentAverage (currentBeat e * beatThreshold e).

(** [detectBeat(currentAverage)], with [now] the value of [Date.now()]. *)
Definition detectBeat (e : t) (currentAverage : float) (now : Z) : t * bool :=
  let beatDetected := beatFires e currentAverage now in
  let e1 := if beatDetected then set_beat e now currentAverage else e in
  let decayed := currentBeat e1 * beatDecayRate e1 in
  (set_beat e1 (lastBeatTime e1) (Math_max decayed (currentAverage * 0.5)),
   beatDetected).

Arguments detectBeat : simpl never.

(** [this.dataArray[i]] as a summand: the magnitude, or [undefined] (NaN in
    an addition) outside the array. *)
Definition byteAt (d : list Z) (i : Z) : float :=
  if (i <? 0)%Z then nan
  else match d !! Z.to_nat i with
       | Some b => Z2F b
       | None => nan
       end.

(** [Math.floor((hz / nyquist) * this.bufferLength)]. *)
Definition binOf (hz nyquist : float) (len : Z) : float :=
  Math_floor ((hz / nyquist) * Z2F len).

(** The loop [for (i = startBin; i < endBin; i++) sum += dataArray[i]] for
    integral bounds. *)
Definition bandSum (d : list Z) (startBin endBin : Z) : float :=
  fold_left (fun sum i => sum + byteAt d i)
    (map (fun k => (startBin + Z.of_nat k)%Z) (seq 0 (Z.to_nat (endBin - startBin))))
    0.

(** The same loop for the bins as the source has them, numbers.  With a
    bound that is NaN or infinite the loop either does not run or never
    ends, and the counter [i++] is exact only below 2^53: [None] is a
    loop that does not end or leaves that range. *)
Definition bandLoop (d : list Z) (startBin endBin : float) : option float :=
  match floorZ startBin, floorZ endBin with
  | Some s, Some e =>
      if (e <=? s)%Z then Some 0
      else if (Z.abs s <? 2 ^ 53)%Z && (Z.abs e <? 2 ^ 53)%Z then Some (bandSum d s e)
      else None
  | _, _ => if startBin <? endBin then None else Some 0
  end.

(** One iteration of the loop over the bands of [extractFrequencyBands]. *)
Definition bandEnergy (d : list Z) (nyquist : float) (len : Z) (r : Range)
  : option float :=
  let startBin := binOf (range_start r) nyquist len in
  let endBin := binOf (range_end r) nyquist len in
  match bandLoop d startBin endBin with
  | Some sum => Some ((sum / (endBin - startBin)) / 255)
  | None => None
  end.

Fixpoint bandsLoop (d : list Z) (nyquist : float) (len : Z)
  (bs : list (BandName * Range)) : option (list (BandName * float)) :=
  match bs with
  | [] => Some []
  | (name, r) :: rest =>
      match bandEnergy d nyquist len r with
      | Some v =>
          match bandsLoop d nyquist len rest with
          | Some out => Some ((name, v) :: out)
          | None => None
          end
      | None => None
      end
  end.

(** [extractFrequencyBands()].  [None]: no value is returned, because
    [this.audioContext] is [null] (a TypeError), [this.dataArray] is, or a
    loop does not end. *)
Definition extractFrequencyBands (e : t) : option (list (BandName * float)) :=
  match sampleRate e, dataArray e with
  | Some rate, Some d => bandsLoop d (rate / 2) (bufferLength e) (frequencyBands e)
  | _, _ => None
  end.

(** What [getFrequencyData] returns. *)
Record AudioData := {
  frequencyData : list Z;
  average : float;
  beat : bool;
  beatIntensity : float;
  bands : list (BandName * float)
}.

(** [bands.name]: [undefined], NaN in arithmetic, when the key is absent. *)
Definition band (bs : list (BandName * float)) (name : BandName) : float :=
  match find (fun p => bool_decide (fst p = name)) bs with
  | Some p => snd p
  | None => nan
  end.

(** The value returned when the engine is not initialized. *)
Definition silence : AudioData :=
  {| frequencyData := repeat 0%Z 1024;
     average := 0;
     beat := false;
     beatIntensity := 0;
     bands := [ (sub, 0); (bass, 0); (low, 0); (mid, 0); (high, 0); (treble, 0) ] |}.

(** [analyser.getByteFrequencyData(dataArray)]: the analyser's current
    magnitudes [snapshot] overwrite the array, as far as both reach. *)
Definition getByteFrequencyData (snapshot d : list Z) : list Z :=
  take (length d) snapshot ++ drop (length snapshot) d.

(** [getFrequencyData()], with the analyser's current magnitudes and the
    value of [Date.now()] as inputs.  [None]: an exception leaves the
    call, or it does not return. *)
Definition getFrequencyData (e : t) (snapshot : list Z) (now : Z)
  : option (t * AudioData) :=
  match analyser e, dataArray e with
  | true, Some d =>
      let d' := getByteFrequencyData snapshot d in
      let e1 := set_dataArray e d' in
      let average :=
        fold_left (fun sum value => sum + Z2F value) d' 0 / Z2F (bufferLength e1) in
      let '(e2, beatDetected) := detectBeat e1 average now in
      match extractFrequencyBands e2 with
      | Some bs =>
          Some (e2, {| frequencyData := d';
                       average := average / 255;
                       beat := beatDetected;
                       beatIntensity := currentBeat e2 / 255;
                       bands := bs |})
      | None => None
      end
  | _, _ => Some (e, silence)
  end.

(** *** Runs of the beat detector *)

(** [n] calls of [detectBeat] with the same average, the first at time
    [now] and the following ones every [tick] milliseconds. *)
Fixpoint calls (e : t) (currentAverage : float) (now tick : Z) (n : nat) : t :=
  match n with
  | O => e
  | S k => calls (fst (detectBeat e currentAverage now)) currentAverage (now + tick) tick k
  end.

(** The timestamps of the calls that report a beat, in a run of calls
    with the given averages and times. *)
Fixpoint beatTimes (e : t) (inputs : list (float * Z)) : list Z :=
  match inputs with
  | [] => []
  | (currentAverage, now) :: rest =>
      let r := detectBeat e currentAverage now in
      if snd r then now :: beatTimes (fst r) rest else beatTimes (fst r) rest
  end.

(** The engine with its clock origin moved by [k] milliseconds. *)
Definition shiftTime (e : t) (k : Z) : t :=
  set_beat e (lastBeatTime e + k) (currentBeat e).

(** *** Bands that lie in the spectrum *)

(** A magnitude of a [Uint8Array]. *)
Definition isByte (b : Z) : Prop := (0 <= b <= 255)%Z.

(** The bins of a band are integers [s < e] with [e] within the array
    and within 1024 bins, and the band is at most 256 bins wide. *)
Definition validBins (d : list Z) (startBin endBin : float) : bool :=
  match floorZ startBin, floorZ endBin with
  | Some s, Some e =>
      Leibniz.eqb startBin (Z2F s) && Leibniz.eqb endBin (Z2F e)
      && (0 <=? s)%Z && (s <? e)%Z && (e <=? Z.of_nat (length d))%Z
      && (e <=? 1024)%Z && (e - s <=? 256)%Z
  | _, _ => false
  end.

Definition validBand (d : list Z) (nyquist : float) (len : Z) (r : Range) : bool :=
  validBins d (binOf (range_start r) nyquist len) (binOf (range_end r) nyquist len).

(** *** Values for the examples *)

(** The engine after a first beat at time 1700000000000 on an average of
    0.5: the level is 0.49. *)
Definition afterBeat : t :=
  fst (detectBeat (create 44100) 0.5 1700000000000).

(** The engine on a context of sample rate [rate] whose analyser reports
    255 in every bin. *)
Definition fullScale (rate : float) : t :=
  set_dataArray (create rate) (repeat 255%Z 1024).

(** The sum of the magnitudes of the bins [a, a + n). *)
Definition binsTotal (d : list Z) (a n : nat) : Z :=
  fold_right Z.add 0%Z (take n (drop a d)).

(** A number of the interval [0, 1]. *)
Definition inUnit (v : float) : bool := le 0 v && le v 1.

End AudioEngine.

(** ** The radial symmetry of the position attribute

  The loops of [Visualizer.applyRadialSymmetry] on the array of the
  position attribute, three elements per particle. *)

Module Symmetry.

Local Open Scope float_scope.

(** The integer index a number [idx] names in a typed array of [len]
    elements: none when [idx] is not an integer or lies outside. *)
Definition indexOf (len : nat) (idx : float) : option nat :=
  match floorZ idx with
  | Some k =>
      if (0 <=? k)%Z && (k <? Z.of_nat len)%Z && (idx =? Z2F k) then Some (Z.to_nat k)
      else None
  | None => None
  end.

(** [positions[idx]] as an operand or as a value to store: [undefined]
    converts to NaN. *)
Definition element (positions : list float) (idx : float) : float :=
  match indexOf (length positions) idx with
  | Some k => match positions !! k with Some x => x | None => nan end
  | None => nan
  end.

(** [positions[idx] = value] on a [Float32Array]: the value is rounded to
    binary32; a store at a number that is not an index of the array is
    ignored. *)
Definition store (positions : list float) (idx value : float) : list float :=
  match indexOf (length positions) idx with
  | Some k => <[k := Math_fround value]> positions
  | None => positions
  end.

Section Host.

Variables Math_sin Math_cos : float -> float.

(** The body of the inner loop, for the particle [i] and the sine and
    cosine of the segment's angle. *)
Definition copyParticle (perSegment : float) (segment : nat) (cos sin : float) (i : nat)
  (positions : list float) : list float :=
  let sourceIdx := Z2F (Z.of_nat i) * 3 in
  let targetIdx := (Z2F (Z.of_nat i) + perSegment * Z2F (Z.of_nat segment)) * 3 in
  let x := element positions sourceIdx in
  let z := element positions (sourceIdx + 2) in
  let positions1 := store positions targetIdx (x * cos - z * sin) in
  let positions2 :=
    store positions1 (targetIdx + 1) (element positions1 (sourceIdx + 1)) in
  store positions2 (targetIdx + 2) (x * sin + z * cos).

(** The inner loop [for (i = ...; i < particleCount / symmetrySegments;
    i++)] from [i] on, for at most [fuel] iterations. *)
Fixpoint copyFrom (fuel : nat) (perSegment : float) (segment : nat) (cos sin : float)
  (i : nat) (positions : list float) : list float :=
  match fuel with
  | O => positions
  | S fuel' =>
      if Z2F (Z.of_nat i) <? perSegment then
        copyFrom fuel' perSegment segment cos sin (S i)
          (copyParticle perSegment segment cos sin i positions)
      else positions
  end.

(** The body of the outer loop, for one segment.  With at least one
    segment the inner loop ends within [particleCount + 1] iterations. *)
Definition copySegment (particleCount symmetrySegments : nat) (positions : list float)
  (segment : nat) : list float :=
  let segmentAngle := (Math_PI * 2) / Z2F (Z.of_nat symmetrySegments) in
  let angle := segmentAngle * Z2F (Z.of_nat segment) in
  let perSegment := Z2F (Z.of_nat particleCount) / Z2F (Z.of_nat symmetrySegments) in
  copyFrom (S particleCount) perSegment segment (Math_cos angle) (Math_sin angle) 0 positions.

(** [applyRadialSymmetry()] on the position attribute [positions]. *)
Definition applyRadialSymmetry (particleCount symmetrySegments : nat)
  (positions : list float) : list float :=
  fold_left (copySegment particleCount symmetrySegments)
    (seq 1 (symmetrySegments - 1)) positions.

End Host.

(** The numbers at which the iteration [i] of the segment [segment]
    stores. *)
Definition targets (perSegment : float) (segment i : nat) : list float :=
  let targetIdx := (Z2F (Z.of_nat i) + perSegment * Z2F (Z.of_nat segment)) * 3 in
  [ targetIdx; targetIdx + 1; targetIdx + 2 ].

(** The integer a number is, if it is one. *)
Definition integerOf (idx : float) : option Z :=
  match floorZ idx with
  | Some k => if idx =? Z2F k then Some k else None
  | None => None
  end.

(** The integers at which the loops store, for a count of particles and
    a number of segments: those of the targets of all the iterations that
    are integers. *)
Definition written (particleCount symmetrySegments : nat) : list Z :=
  let perSegment := Z2F (Z.of_nat particleCount) / Z2F (Z.of_nat symmetrySegments) in
  flat_map
    (fun segment =>
       flat_map
         (fun i =>
            if Z2F (Z.of_nat i) <? perSegment then
              omap integerOf (targets perSegment segment i)
            else [])
         (seq 0 (S particleCount)))
    (seq 1 (symmetrySegments - 1)).

(** Whether the iteration [i] of the segment [segment] stores at the
    integer [w]. *)
Definition storesAt (perSegment : float) (segment i : nat) (w : Z) : bool :=
  existsb (fun idx => match integerOf idx with
                      | Some z => (z =? w)%Z
                      | None => false
                      end)
    (targets perSegment segment i).

End Symmetry.

(** ** The visualizer (class [Visualizer]) *)

Module Visualizer.

Import AudioEngine.
Local Open Scope float_scope.

(** [THREE.Vector3]. *)
Record Vector3 := { vx : float; vy : float; vz : float }.

(** The arguments of [color.setHSL(...)], which determine the colour
    ([THREE.Color] itself belongs to the rendering library). *)
Record HSL := { hue : float; saturation : float; lightness : float }.

Record Palette := { hueBase : float; hueRange : float; paletteSaturation : float }.

(** [this.visualMode]: the five names tested by [update], and [other]
    for every other string, which takes the [default] branch. *)
Inductive VisualMode := cosmic | neural | pulse | chaos | minimal | other.

(** A line of the neural mode: the two particle indices and the
    material's opacity. *)
Record Connection := { lineFrom : nat; lineTo : nat; lineOpacity : float }.

(** The particle arrays: [particlePositions], [particleVelocities] and
    [particleColors] hold one object per particle; [positions] and [sizes]
    are the [Float32Array]s of the geometry's position and size
    attributes, [this.particles.attributes.position.array] with three
    elements per particle and [this.particles.attributes.size.array].  The
    colour attribute holds the red, green and blue of [particleColors]. *)
Record Particles := {
  particlePositions : list Vector3;
  particleVelocities : list Vector3;
  particleColors : list HSL;
  positions : list float;
  sizes : list float
}.

Record Camera := {
  cameraAngle : float;
  cameraRadius : float;
  cameraHeight : float;
  cameraPosition : Vector3;
  cameraShake : Vector3;
  cameraShakeIntensity : float
}.

(** The visualizer's state.  [decayCallbacks] counts the [decayPulse]
    callbacks handed to [requestAnimationFrame] and not yet run;
    [randomCount] counts the results of [Math.random()] consumed so far. *)
Record t := {
  isRunning : bool;
  particleCount : nat;
  particles : Particles;
  time : float;
  camera : Camera;
  bassIntensity : float;
  midIntensity : float;
  trebleIntensity : float;
  isFrozen : bool;
  pulseEffect : bool;
  pulseIntensity : float;
  decayCallbacks : nat;
  currentPalette : Z;
  radialSymmetry : bool;
  symmetrySegments : nat;
  visualMode : VisualMode;
  particleConnections : list Connection;
  spiralAngle : float;
  spiralTightness : float;
  spikeIntensity : float;
  randomCount : nat
}.

Record GestureCommands := { freeze : bool; pulseCommand : bool; colorPalette : Z }.

(** *** Field updates *)

Definition set_particles (v : t) (p : Particles) : t :=
  {| isRunning := isRunning v; particleCount := particleCount v; particles := p;
     time := time v; camera := camera v; bassIntensity := bassIntensity v;
     midIntensity := midIntensity v; trebleIntensity := trebleIntensity v;
     isFrozen := isFrozen v; pulseEffect := pulseEffect v;
     pulseIntensity := pulseIntensity v; decayCallbacks := decayCallbacks v;
     currentPalette := currentPalette v; radialSymmetry := radialSymmetry v;
     symmetrySegments := symmetrySegments v;
     visualMode := visualMode v; particleConnections := particleConnections v;
     spiralAngle := spiralAngle v; spiralTightness := spiralTightness v;
     spikeIntensity := spikeIntensity v; randomCount := randomCount v |}.

Definition set_pulse (v : t) (on : bool) (intensity : float) (pending : nat) : t :=
  {| isRunning := isRunning v; particleCount := particleCount v;
     particles := particles v;
     time := time v; camera := camera v; bassIntensity := bassIntensity v;
     midIntensity := midIntensity v; trebleIntensity := trebleIntensity v;
     isFrozen := isFrozen v; pulseEffect := on;
     pulseIntensity := intensity; decayCallbacks := pending;
     currentPalette := currentPalette v; radialSymmetry := radialSymmetry v;
     symmetrySegments := symmetrySegments v;
     visualMode := visualMode v; particleConnections := particleConnections v;
     spiralAngle := spiralAngle v; spiralTightness := spiralTightness v;
     spikeIntensity := spikeIntensity v; randomCount := randomCount v |}.

Definition set_gesture (v : t) (frozen : bool) (palette : Z) : t :=
  {| isRunning := isRunning v; particleCount := particleCount v;
     particles := particles v;
     time := time v; camera := camera v; bassIntensity := bassIntensity v;
     midIntensity := midIntensity v; trebleIntensity := trebleIntensity v;
     isFrozen := frozen; pulseEffect := pulseEffect v;
     pulseIntensity := pulseIntensity v; decayCallbacks := decayCallbacks v;
     currentPalette := palette; radialSymmetry := radialSymmetry v;
     symmetrySegments := symmetrySegments v;
     visualMode := visualMode v; particleConnections := particleConnections v;
     spiralAngle := spiralAngle v; spiralTightness := spiralTightness v;
     spikeIntensity := spikeIntensity v; randomCount := randomCount v |}.

Definition set_running (v : t) (b : bool) : t :=
  {| isRunning := b; particleCount := particleCount v;
     particles := particles v;
     time := time v; camera := camera v; bassIntensity := bassIntensity v;
     midIntensity := midIntensity v; trebleIntensity := trebleIntensity v;
     isFrozen := isFrozen v; pulseEffect := pulseEffect v;
     pulseIntensity := pulseIntensity v; decayCallbacks := decayCallbacks v;
     currentPalette := currentPalette v; radialSymmetry := radialSymmetry v;
     symmetrySegments := symmetrySegments v;
     visualMode := visualMode v; particleConnections := particleConnections v;
     spiralAngle := spiralAngle v; spiralTightness := spiralTightness v;
     spikeIntensity := spikeIntensity v; randomCount := randomCount v |}.

Definition set_mode (v : t) (m : VisualMode) : t :=
  {| isRunning := isRunning v; particleCount := particleCount v;
     particles := particles v;
     time := time v; camera := camera v; bassIntensity := bassIntensity v;
     midIntensity := midIntensity v; trebleIntensity := trebleIntensity v;
     isFrozen := isFrozen v; pulseEffect := pulseEffect v;
     pulseIntensity := pulseIntensity v; decayCallbacks := decayCallbacks v;
     currentPalette := currentPalette v; radialSymmetry := radialSymmetry v;
     symmetrySegments := symmetrySegments v;
     visualMode := m; particleConnections := particleConnections v;
     spiralAngle := spiralAngle v; spiralTightness := spiralTightness v;
     spikeIntensity := spikeIntensity v; randomCount := randomCount v |}.

Definition set_symmetry (v : t) (b : bool) : t :=
  {| isRunning := isRunning v; particleCount := particleCount v;
     particles := particles v;
     time := time v; camera := camera v; bassIntensity := bassIntensity v;
     midIntensity := midIntensity v; trebleIntensity := trebleIntensity v;
     isFrozen := isFrozen v; pulseEffect := pulseEffect v;
     pulseIntensity := pulseIntensity v; decayCallbacks := decayCallbacks v;
     currentPalette := currentPalette v; radialSymmetry := b;
     symmetrySegments := symmetrySegments v;
     visualMode := visualMode v; particleConnections := particleConnections v;
     spiralAngle := spiralAngle v; spiralTightness := spiralTightness v;
     spikeIntensity := spikeIntensity v; randomCount := randomCount v |}.

Definition set_connections (v : t) (cs : list Connection) : t :=
  {| isRunning := isRunning v; particleCount := particleCount v;
     particles := particles v;
     time := time v; camera := camera v; bassIntensity := bassIntensity v;
     midIntensity := midIntensity v; trebleIntensity := trebleIntensity v;
     isFrozen := isFrozen v; pulseEffect := pulseEffect v;
     pulseIntensity := pulseIntensity v; decayCallbacks := decayCallbacks v;
     currentPalette := currentPalette v; radialSymmetry := radialSymmetry v;
     symmetrySegments := symmetrySegments v;
     visualMode := visualMode v; particleConnections := cs;
     spiralAngle := spiralAngle v; spiralTightness := spiralTightness v;
     spikeIntensity := spikeIntensity v; randomCount := randomCount v |}.

Definition set_camera (v : t) (c : Camera) (drawn : nat) : t :=
  {| isRunning := isRunning v; particleCount := particleCount v;
     particles := particles v;
     time := time v; camera := c; bassIntensity := bassIntensity v;
     midIntensity := midIntensity v; trebleIntensity := trebleIntensity v;
     isFrozen := isFrozen v; pulseEffect := pulseEffect v;
     pulseIntensity := pulseIntensity v; decayCallbacks := decayCallbacks v;
     currentPalette := currentPalette v; radialSymmetry := radialSymmetry v;
     symmetrySegments := symmetrySegments v;
     visualMode := visualMode v; particleConnections := particleConnections v;
     spiralAngle := spiralAngle v; spiralTightness := spiralTightness v;
     spikeIntensity := spikeIntensity v; randomCount := drawn |}.

Definition set_random (v : t) (drawn : nat) : t := set_camera v (camera v) drawn.

(** The assignments at the head of [update]: the clock and the three
    intensities. *)
Definition set_clock (v : t) (now bassI midI trebleI : float) : t :=
  {| isRunning := isRunning v; particleCount := particleCount v;
     particles := particles v;
     time := now; camera := camera v; bassIntensity := bassI;
     midIntensity := midI; trebleIntensity := trebleI;
     isFrozen := isFrozen v; pulseEffect := pulseEffect v;
     pulseIntensity := pulseIntensity v; decayCallbacks := decayCallbacks v;
     currentPalette := currentPalette v; radialSymmetry := radialSymmetry v;
     symmetrySegments := symmetrySegments v;
     visualMode := visualMode v; particleConnections := particleConnections v;
     spiralAngle := spiralAngle v; spiralTightness := spiralTightness v;
     spikeIntensity := spikeIntensity v; randomCount := randomCount v |}.

Definition set_spiral (v : t) (spike angle : float) : t :=
  {| isRunning := isRunning v; particleCount := particleCount v;
     particles := particles v;
     time := time v; camera := camera v; bassIntensity := bassIntensity v;
     midIntensity := midIntensity v; trebleIntensity := trebleIntensity v;
     isFrozen := isFrozen v; pulseEffect := pulseEffect v;
     pulseIntensity := pulseIntensity v; decayCallbacks := decayCallbacks v;
     currentPalette := currentPalette v; radialSymmetry := radialSymmetry v;
     symmetrySegments := symmetrySegments v;
     visualMode := visualMode v; particleConnections := particleConnections v;
     spiralAngle := angle; spiralTightness := spiralTightness v;
     spikeIntensity := spike; randomCount := randomCount v |}.

(** *** Shared pieces of the update rules *)

Definition cyberpunk : Palette :=
  {| hueBase := 0.5; hueRange := 0.3; paletteSaturation := 1.0 |}.
Definition sunset : Palette :=
  {| hueBase := 0.05; hueRange := 0.15; paletteSaturation := 0.9 |}.
Definition ocean : Palette :=
  {| hueBase := 0.55; hueRange := 0.15; paletteSaturation := 0.8 |}.

(** [this.colorPalettes[paletteNames[this.currentPalette]]]: [undefined]
    for an index outside 0..2. *)
Definition paletteAt (idx : Z) : option Palette :=
  if (idx =? 0)%Z then Some cyberpunk
  else if (idx =? 1)%Z then Some sunset
  else if (idx =? 2)%Z then Some ocean
  else None.

(** [Math.floor((k / total) * frequencyData.length)]. *)
Definition binIndex (k total len : nat) : float :=
  Math_floor ((Z2F (Z.of_nat k) / Z2F (Z.of_nat total)) * Z2F (Z.of_nat len)).

(** [frequencyData[idx] / 255] for a number [idx]. *)
Definition sample (frequencyData : list Z) (idx : float) : float :=
  match floorZ idx with
  | Some k => byteAt frequencyData k
  | None => nan
  end / 255.

(** The frequency value of particle [i] in the rules that loop over the
    particles. *)
Definition freqValueOf (frequencyData : list Z) (count i : nat) : float :=
  sample frequencyData (binIndex i count (length frequencyData)).

(** [vel.multiplyScalar(s)]. *)
Definition multiplyScalar (v : Vector3) (s : float) : Vector3 :=
  {| vx := vx v * s; vy := vy v * s; vz := vz v * s |}.

Definition addVector (a b : Vector3) : Vector3 :=
  {| vx := vx a + vx b; vy := vy a + vy b; vz := vz a + vz b |}.

(** What one iteration computes for its particle: the new position and
    velocity, the arguments of [setHSL] and the size. *)
Definition Moved : Type := Vector3 * Vector3 * HSL * float.

(** A loop over indices whose body may raise. *)
Fixpoint forEach {S : Type} (body : nat -> S -> option S) (indices : list nat) (s : S)
  : option S :=
  match indices with
  | [] => Some s
  | i :: rest =>
      match body i s with
      | Some s' => forEach body rest s'
      | None => None
      end
  end.

(** [positions[i3] = pos.x; positions[i3 + 1] = pos.y; positions[i3 + 2]
    = pos.z] with [i3 = i * 3]: the coordinates are rounded to binary32,
    and a store beyond the length of the array is ignored. *)
Definition storePosition (positions : list float) (i : nat) (pos : Vector3) : list float :=
  <[(3 * i + 2)%nat := Math_fround (vz pos)]>
    (<[(3 * i + 1)%nat := Math_fround (vy pos)]>
       (<[(3 * i)%nat := Math_fround (vx pos)]> positions)).

(** The position attribute that holds the given positions, as
    [createParticleSystem] fills it. *)
Definition attributeOf (ps : list Vector3) : list float :=
  flat_map (fun pos => [ Math_fround (vx pos); Math_fround (vy pos); Math_fround (vz pos) ])
    ps.

(** The body of a loop over the particles: particle [i] is read, moved by
    [step] and written back, its position into the position attribute
    too.  Reading a field of an absent array element is a TypeError
    ([None]); a store into an attribute beyond its length is ignored. *)
Definition moveParticle (step : nat -> Vector3 -> Vector3 -> Moved) (i : nat)
  (p : Particles) : option Particles :=
  match particlePositions p !! i, particleVelocities p !! i, particleColors p !! i with
  | Some pos, Some vel, Some _ =>
      let '(pos', vel', color, size) := step i pos vel in
      Some {| particlePositions := <[i := pos']> (particlePositions p);
              particleVelocities := <[i := vel']> (particleVelocities p);
              particleColors := <[i := color]> (particleColors p);
              positions := storePosition (positions p) i pos';
              sizes := <[i := Math_fround size]> (sizes p) |}
  | _, _, _ => None
  end.

(** *** The generic rule, [updateParticles] *)

Definition stepParticles (v : t) (palette : Palette) (average : float) (beat : bool)
  (beatIntensity freqValue : float) (pos vel : Vector3) : Moved :=
  let distance := Math_sqrt (vx pos * vx pos + vy pos * vy pos + vz pos * vz pos) in
  let force := freqValue * 5 in
  let directionX := vx pos / distance in
  let directionY := vy pos / distance in
  let directionZ := vz pos / distance in
  let vel1 :=
    {| vx := vx vel + directionX * force * 0.1;
       vy := vy vel + directionY * force * 0.1;
       vz := vz vel + directionZ * force * 0.1 |} in
  let vel2 :=
    if beat || pulseEffect v then
      let pulseStrength := if pulseEffect v then pulseIntensity v else beatIntensity in
      {| vx := vx vel1 + directionX * pulseStrength * 0.5;
         vy := vy vel1 + directionY * pulseStrength * 0.5;
         vz := vz vel1 + directionZ * pulseStrength * 0.5 |}
    else vel1 in
  let pos1 := addVector pos vel2 in
  let vel3 := multiplyScalar vel2 0.95 in
  let targetDistance := 100 + bassIntensity v * 50 in
  let restoreForce := (targetDistance - distance) * 0.01 in
  let pos2 :=
    {| vx := vx pos1 + directionX * restoreForce;
       vy := vy pos1 + directionY * restoreForce;
       vz := vz pos1 + directionZ * restoreForce |} in
  let pulseSize := if pulseEffect v then pulseIntensity v * 2 else 0 in
  (pos2, vel3,
   {| hue := hueBase palette + freqValue * hueRange palette - average * 0.2;
      saturation := paletteSaturation palette + freqValue * 0.1;
      lightness := 0.4 + freqValue * 0.4 |},
   1 + freqValue * 3 + (if beat then beatIntensity else 0) + pulseSize).

Definition updateParticles (v : t) (frequencyData : list Z) (average : float)
  (beat : bool) (beatIntensity : float) : option t :=
  match paletteAt (currentPalette v) with
  | None => if (0 <? particleCount v)%nat then None else Some v
  | Some palette =>
      option_map (set_particles v)
        (forEach
           (moveParticle (fun i =>
              stepParticles v palette average beat beatIntensity
                (freqValueOf frequencyData (particleCount v) i)))
           (seq 0 (particleCount v)) (particles v))
  end.

(** *** [updateParticleColors], the rule of a frozen field *)

Definition colorParticle (v : t) (palette : Palette) (frequencyData : list Z)
  (average : float) (i : nat) (p : Particles) : option Particles :=
  match particleColors p !! i with
  | Some _ =>
      let freqValue := freqValueOf frequencyData (particleCount v) i in
      let pulseSize := if pulseEffect v then pulseIntensity v * 2 else 0 in
      Some {| particlePositions := particlePositions p;
              particleVelocities := particleVelocities p;
              particleColors :=
                <[i := {| hue := hueBase palette + freqValue * hueRange palette
                                  - average * 0.2;
                          saturation := paletteSaturation palette + freqValue * 0.1;
                          lightness := 0.4 + freqValue * 0.4 |}]> (particleColors p);
              positions := positions p;
              sizes := <[i := Math_fround (1 + freqValue * 3 + pulseSize)]> (sizes p) |}
  | None => None
  end.

Definition updateParticleColors (v : t) (frequencyData : list Z) (average : float)
  : option t :=
  match paletteAt (currentPalette v) with
  | None => if (0 <? particleCount v)%nat then None else Some v
  | Some palette =>
      option_map (set_particles v)
        (forEach (colorParticle v palette frequencyData average)
           (seq 0 (particleCount v)) (particles v))
  end.

(** *** The minimal rule, [updateParticlesMinimal] *)

Definition barCount : nat := 64.

(** [Math.floor(this.particleCount / barCount)]. *)
Definition particlesPerBar (count : nat) : float :=
  Math_floor (Z2F (Z.of_nat count) / Z2F (Z.of_nat barCount)).

(** The number of iterations of [for (p = 0; p < particlesPerBar; p++)]. *)
Definition barLength (count : nat) : nat :=
  match floorZ (particlesPerBar count) with
  | Some k => Z.to_nat k
  | None => 0
  end.

(** The body of the inner loop for particle [p] of bar [bar]; the
    velocity is not read. *)
Definition placeParticle (v : t) (palette : Palette) (freqValue : float)
  (bar p : nat) (ps : Particles) : option Particles :=
  let i := (bar * barLength (particleCount v) + p)%nat in
  if (particleCount v <=? i)%nat then Some ps
  else
    match particlePositions ps !! i, particleColors ps !! i with
    | Some pos, Some _ =>
        let barHeight := freqValue * 150 in
        let x := (Z2F (Z.of_nat bar) - Z2F (Z.of_nat barCount) / 2) * 8 in
        let y := (Z2F (Z.of_nat p) / particlesPerBar (particleCount v)) * barHeight - 50 in
        let z := 0 in
        let pos' :=
          {| vx := vx pos + (x - vx pos) * 0.15;
             vy := vy pos + (y - vy pos) * 0.15;
             vz := vz pos + (z - vz pos) * 0.15 |} in
        Some {| particlePositions := <[i := pos']> (particlePositions ps);
                particleVelocities := particleVelocities ps;
                particleColors :=
                  <[i := {| hue := hueBase palette + (y / 100 + 0.5) * hueRange palette;
                            saturation := paletteSaturation palette;
                            lightness := 0.5 + freqValue * 0.5 |}]> (particleColors ps);
                positions := storePosition (positions ps) i pos';
                sizes := <[i := Math_fround (3 + freqValue * 4)]> (sizes ps) |}
    | _, _ => None
    end.

(** The body of the outer loop: one bar. *)
Definition placeBar (v : t) (palette : Palette) (frequencyData : list Z) (bar : nat)
  (ps : Particles) : option Particles :=
  let freqValue := sample frequencyData (binIndex bar barCount (length frequencyData)) in
  forEach (placeParticle v palette freqValue bar) (seq 0 (barLength (particleCount v))) ps.

Definition updateParticlesMinimal (v : t) (frequencyData : list Z) (average : float)
  (beat : bool) (beatIntensity : float) : option t :=
  match paletteAt (currentPalette v) with
  | None => if (0 <? barLength (particleCount v))%nat then None else Some v
  | Some palette =>
      option_map (set_particles v)
        (forEach (placeBar v palette frequencyData) (seq 0 barCount) (particles v))
  end.

(** *** The neural rule, [updateParticlesNeural] *)

(** [positions[k]] as an operand: [undefined] converts to NaN. *)
Definition positionAt (p : Particles) (k : nat) : float :=
  match positions p !! k with
  | Some x => x
  | None => nan
  end.

(** [positions[i3], positions[i3 + 1], positions[i3 + 2]] with [i3 = i *
    3]: the position of particle [i] as the position attribute holds
    it. *)
Definition bufferPosition (p : Particles) (i : nat) : Vector3 :=
  {| vx := positionAt p (3 * i)%nat;
     vy := positionAt p (3 * i + 1)%nat;
     vz := positionAt p (3 * i + 2)%nat |}.

(** The indices [0, 5, 10, ...] below [Math.min(this.particleCount, 200)]. *)
Definition sampledIndices (count : nat) : list nat :=
  filter (fun i => i `mod` 5 = 0)%nat (seq 0 (Nat.min count 200)).

Definition connect (p : Particles) (connectionThreshold : float) (i j : nat)
  : list Connection :=
  let a := bufferPosition p i in
  let b := bufferPosition p j in
  let dx := vx a - vx b in
  let dy := vy a - vy b in
  let dz := vz a - vz b in
  let distance := Math_sqrt (dx * dx + dy * dy + dz * dz) in
  if distance <? connectionThreshold then
    let opacity := 1 - distance / connectionThreshold in
    [ {| lineFrom := i; lineTo := j; lineOpacity := opacity * 0.5 |} ]
  else [].

Definition connections (v : t) : list Connection :=
  let connectionThreshold := 60 + midIntensity v * 30 in
  let sampled := sampledIndices (particleCount v) in
  flat_map (fun i =>
    flat_map (fun j => if (i <? j)%nat then connect (particles v) connectionThreshold i j else [])
      sampled) sampled.

Definition updateParticlesNeural (v : t) (frequencyData : list Z) (average : float)
  (beat : bool) (beatIntensity : float) : option t :=
  match updateParticles v frequencyData average beat beatIntensity with
  | Some v' => Some (set_connections v' (connections v'))
  | None => None
  end.

(** *** Gestures and the pulse *)

(** [decayPulse], the callback of [triggerPulse]: one decay, then either
    another callback is requested or the pulse is cleared. *)
Definition decayPulse (v : t) : t :=
  let decayed := pulseIntensity v * 0.85 in
  if gt decayed 0.1 then set_pulse v (pulseEffect v) decayed (S (decayCallbacks v))
  else set_pulse v false 0 (decayCallbacks v).

(** [triggerPulse(intensity)]; the first decay runs within the call. *)
Definition triggerPulse (v : t) (intensity : float) : t :=
  decayPulse (set_pulse v true (intensity + 1.5) (decayCallbacks v)).

(** An animation frame as far as the pulse is concerned: every callback
    requested before the frame runs once. *)
Definition animationFrame (v : t) : t :=
  Nat.iter (decayCallbacks v) decayPulse
    (set_pulse v (pulseEffect v) (pulseIntensity v) 0).

Definition processGestureCommands (v : t) (commands : GestureCommands) (beat : bool)
  (beatIntensity : float) : t :=
  let v1 := set_gesture v (freeze commands) (currentPalette v) in
  let v2 :=
    if pulseCommand commands && negb (pulseEffect v1) then triggerPulse v1 beatIntensity
    else v1 in
  if bool_decide (colorPalette commands = currentPalette v2) then v2
  else set_gesture v2 (isFrozen v2) (colorPalette commands).

Definition setVisualMode (v : t) (mode : VisualMode) : t := set_mode v mode.

Definition start (v : t) : t := set_running v true.

Definition stop (v : t) : t := set_running v false.

Definition toggleRadialSymmetry (v : t) : t := set_symmetry v (negb (radialSymmetry v)).

(** *** Views of the state used by the properties *)

(** Particle [i] in the three arrays of objects and the size attribute. *)
Definition particleAt (p : Particles) (i : nat)
  : option Vector3 * option Vector3 * option HSL * option float :=
  (particlePositions p !! i, particleVelocities p !! i, particleColors p !! i,
   sizes p !! i).

(** The same four arrays hold [n] particles. *)
Definition fieldSize (p : Particles) (n : nat) : Prop :=
  length (particlePositions p) = n
  /\ length (particleVelocities p) = n
  /\ length (particleColors p) = n
  /\ length (sizes p) = n.

(** The state the constructor establishes: the arrays hold
    [particleCount] particles and the palette index names a palette. *)
Definition wellFormed (v : t) : Prop :=
  fieldSize (particles v) (particleCount v) /\ (0 <= currentPalette v <= 2)%Z.

(** The colour and the size [updateParticleColors] gives particle [i]. *)
Definition frozenColor (palette : Palette) (frequencyData : list Z) (average : float)
  (count i : nat) : HSL :=
  let freqValue := freqValueOf frequencyData count i in
  {| hue := hueBase palette + freqValue * hueRange palette - average * 0.2;
     saturation := paletteSaturation palette + freqValue * 0.1;
     lightness := 0.4 + freqValue * 0.4 |}.

Definition frozenSize (pulsing : bool) (intensity : float) (frequencyData : list Z)
  (count i : nat) : float :=
  let freqValue := freqValueOf frequencyData count i in
  Math_fround (1 + freqValue * 3 + (if pulsing then intensity * 2 else 0)).

(** What a loop over the particles makes of particle [i]. *)
Definition movedAt (step : nat -> Vector3 -> Vector3 -> Moved) (i : nat)
  (a : option Vector3 * option Vector3 * option HSL * option float)
  : option Vector3 * option Vector3 * option HSL * option float :=
  match a with
  | (Some pos, Some vel, Some _, size0) =>
      let '(pos', vel', color, size) := step i pos vel in
      (Some pos', Some vel', Some color, option_map (fun _ => Math_fround size) size0)
  | _ => a
  end.

(** What the minimal rule makes of the particle [p] of bar [bar]. *)
Definition placedAt (v : t) (palette : Palette) (freqValue : float) (bar p : nat)
  (a : option Vector3 * option Vector3 * option HSL * option float)
  : option Vector3 * option Vector3 * option HSL * option float :=
  match a with
  | (Some pos, vel, Some _, size0) =>
      if (particleCount v <=? bar * barLength (particleCount v) + p)%nat then a
      else
        let barHeight := freqValue * 150 in
        let x := (Z2F (Z.of_nat bar) - Z2F (Z.of_nat barCount) / 2) * 8 in
        let y := (Z2F (Z.of_nat p) / particlesPerBar (particleCount v)) * barHeight - 50 in
        (Some {| vx := vx pos + (x - vx pos) * 0.15;
                 vy := vy pos + (y - vy pos) * 0.15;
                 vz := vz pos + (0 - vz pos) * 0.15 |},
         vel,
         Some {| hue := hueBase palette + (y / 100 + 0.5) * hueRange palette;
                 saturation := paletteSaturation palette;
                 lightness := 0.5 + freqValue * 0.5 |},
         option_map (fun _ => Math_fround (3 + freqValue * 4)) size0)
  | _ => a
  end.

(** The bin whose magnitude a rule reads for particle [i]: the bin of the
    particle's bar in the minimal rule, of the particle in the others. *)
Definition particleBin (mode : VisualMode) (count len i : nat) : float :=
  match mode with
  | minimal => binIndex (i / barLength count) barCount len
  | _ => binIndex i count len
  end.

(** [n] animation frames. *)
Definition frames (n : nat) (v : t) : t := Nat.iter n animationFrame v.

(** The intensity [I + 1.5] after [k] decays. *)
Definition decayed (intensity : float) (k : nat) : float :=
  Nat.iter k (fun x => x * 0.85) (intensity + 1.5).

(** A running visualizer of [count] particles, all at [pos] and at rest,
    in mode [mode], otherwise as the constructor leaves it. *)
Definition still (count : nat) (pos : Vector3) (mode : VisualMode) : t :=
  {| isRunning := true;
     particleCount := count;
     particles :=
       {| particlePositions := repeat pos count;
          particleVelocities := repeat {| vx := 0; vy := 0; vz := 0 |} count;
          particleColors := repeat {| hue := 0.5; saturation := 1.0; lightness := 0.5 |} count;
          positions := attributeOf (repeat pos count);
          sizes := repeat 1 count |};
     time := 0;
     camera :=
       {| cameraAngle := 0; cameraRadius := 150; cameraHeight := 50;
          cameraPosition := {| vx := 0; vy := 0; vz := 150 |};
          cameraShake := {| vx := 0; vy := 0; vz := 0 |};
          cameraShakeIntensity := 0 |};
     bassIntensity := 0;
     midIntensity := 0;
     trebleIntensity := 0;
     isFrozen := false;
     pulseEffect := false;
     pulseIntensity := 0;
     decayCallbacks := 0;
     currentPalette := 0;
     radialSymmetry := false;
     symmetrySegments := 6;
     visualMode := mode;
     particleConnections := [];
     spiralAngle := 0;
     spiralTightness := 0.1;
     spikeIntensity := 0;
     randomCount := 0 |}.

Definition origin : Vector3 := {| vx := 0; vy := 0; vz := 0 |}.

Definition nanVector : Vector3 := {| vx := nan; vy := nan; vz := nan |}.

(** *** The rules that call the host's [Math] functions *)

Section Host.

Variables Math_sin Math_cos Math_acos : float -> float.
Variable Math_atan2 : float -> float -> float.

(** The results of [Math.random()], in the order of the calls. *)
Variable Math_random : nat -> float.

(** The cosmic rule, [updateParticlesCosmic]. *)
Definition stepCosmic (v : t) (palette : Palette) (beat : bool)
  (beatIntensity freqValue : float) (pos vel : Vector3) : Moved :=
  let distance := Math_sqrt (vx pos * vx pos + vz pos * vz pos) in
  let angle := Math_atan2 (vz pos) (vx pos) + spiralAngle v * spiralTightness v in
  let targetRadius := 100 + bassIntensity v * 80 + freqValue * 50 in
  let targetX := Math_cos angle * targetRadius in
  let targetZ := Math_sin angle * targetRadius in
  let vel1 :=
    {| vx := vx vel + (targetX - vx pos) * 0.01;
       vy := vy vel + (freqValue * 50 - vy pos) * 0.01;
       vz := vz vel + (targetZ - vz pos) * 0.01 |} in
  let vel2 :=
    if beat || pulseEffect v then
      let pulseStrength := if pulseEffect v then pulseIntensity v else beatIntensity in
      let directionX := vx pos / Math_max distance 1 in
      let directionZ := vz pos / Math_max distance 1 in
      {| vx := vx vel1 + directionX * pulseStrength * 0.5;
         vy := vy vel1;
         vz := vz vel1 + directionZ * pulseStrength * 0.5 |}
    else vel1 in
  let normalizedDist := Math_min (distance / 200) 1 in
  (addVector pos vel2, multiplyScalar vel2 0.92,
   {| hue := hueBase palette + normalizedDist * hueRange palette;
      saturation := paletteSaturation palette;
      lightness := 0.5 + freqValue * 0.5 |},
   1 + freqValue * 4 + (if beat then beatIntensity else 0)).

Definition updateParticlesCosmic (v : t) (frequencyData : list Z) (average : float)
  (beat : bool) (beatIntensity : float) : option t :=
  match paletteAt (currentPalette v) with
  | None => if (0 <? particleCount v)%nat then None else Some v
  | Some palette =>
      option_map (set_particles v)
        (forEach
           (moveParticle (fun i =>
              stepCosmic v palette beat beatIntensity
                (freqValueOf frequencyData (particleCount v) i)))
           (seq 0 (particleCount v)) (particles v))
  end.

(** The pulse rule, [updateParticlesPulse]. *)
Definition stepPulse (v : t) (palette : Palette) (beat : bool)
  (beatIntensity freqValue : float) (i : nat) (pos vel : Vector3) : Moved :=
  let distance := Math_sqrt (vx pos * vx pos + vy pos * vy pos + vz pos * vz pos) in
  let directionX := vx pos / Math_max distance 1 in
  let directionY := vy pos / Math_max distance 1 in
  let directionZ := vz pos / Math_max distance 1 in
  let pulsePhase :=
    Math_sin (time v * 2
              + (Z2F (Z.of_nat i) / Z2F (Z.of_nat (particleCount v))) * Math_PI * 4) in
  let targetDistance := 80 + pulsePhase * 40 + freqValue * 60 + bassIntensity v * 40 in
  let force := (targetDistance - distance) * 0.05 in
  let vel1 :=
    {| vx := vx vel + directionX * force;
       vy := vy vel + directionY * force;
       vz := vz vel + directionZ * force |} in
  let vel2 :=
    if beat then
      {| vx := vx vel1 + directionX * beatIntensity * 2;
         vy := vy vel1 + directionY * beatIntensity * 2;
         vz := vz vel1 + directionZ * beatIntensity * 2 |}
    else vel1 in
  (addVector pos vel2, multiplyScalar vel2 0.88,
   {| hue := hueBase palette + (pulsePhase * 0.5 + 0.5) * hueRange palette;
      saturation := paletteSaturation palette;
      lightness := 0.4 + freqValue * 0.6 |},
   2 + freqValue * 5 + Math_abs pulsePhase * 2).

Definition updateParticlesPulse (v : t) (frequencyData : list Z) (average : float)
  (beat : bool) (beatIntensity : float) : option t :=
  match paletteAt (currentPalette v) with
  | None => if (0 <? particleCount v)%nat then None else Some v
  | Some palette =>
      option_map (set_particles v)
        (forEach
           (moveParticle (fun i =>
              stepPulse v palette beat beatIntensity
                (freqValueOf frequencyData (particleCount v) i) i))
           (seq 0 (particleCount v)) (particles v))
  end.

(** The chaos rule, [updateParticlesChaos].  On a beat particle [i] takes
    three random numbers, the calls following those of the particles
    before it. *)
Definition stepChaos (v : t) (palette : Palette) (beat : bool)
  (beatIntensity freqValue : float) (i : nat) (pos vel : Vector3) : Moved :=
  let fi := Z2F (Z.of_nat i) in
  let chaosX := Math_sin (time v * 3 + fi * 0.1) * freqValue * 5 in
  let chaosY := Math_cos (time v * 4 + fi * 0.15) * freqValue * 5 in
  let chaosZ := Math_sin (time v * 2.5 + fi * 0.12) * freqValue * 5 in
  let vel1 :=
    {| vx := vx vel + chaosX * 0.1;
       vy := vy vel + chaosY * 0.1;
       vz := vz vel + chaosZ * 0.1 |} in
  let vel2 :=
    if beat then
      let r := (randomCount v + 3 * i)%nat in
      {| vx := vx vel1 + (Math_random r - 0.5) * beatIntensity * 3;
         vy := vy vel1 + (Math_random (r + 1)%nat - 0.5) * beatIntensity * 3;
         vz := vz vel1 + (Math_random (r + 2)%nat - 0.5) * beatIntensity * 3 |}
    else vel1 in
  let distance := Math_sqrt (vx pos * vx pos + vy pos * vy pos + vz pos * vz pos) in
  let vel3 :=
    if gt distance 200 then
      {| vx := vx vel2 + (- vx pos / distance) * 0.5;
         vy := vy vel2 + (- vy pos / distance) * 0.5;
         vz := vz vel2 + (- vz pos / distance) * 0.5 |}
    else vel2 in
  (addVector pos vel3, multiplyScalar vel3 0.96,
   {| hue := hueBase palette + Math_sin (time v * 5 + fi * 0.1) * hueRange palette;
      saturation := paletteSaturation palette;
      lightness := 0.3 + freqValue * 0.7 |},
   1 + freqValue * 6).

Definition updateParticlesChaos (v : t) (frequencyData : list Z) (average : float)
  (beat : bool) (beatIntensity : float) : option t :=
  match paletteAt (currentPalette v) with
  | None => if (0 <? particleCount v)%nat then None else Some v
  | Some palette =>
      option_map
        (fun p =>
           set_random (set_particles v p)
             (if beat then (randomCount v + 3 * particleCount v)%nat else randomCount v))
        (forEach
           (moveParticle (fun i =>
              stepChaos v palette beat beatIntensity
                (freqValueOf frequencyData (particleCount v) i) i))
           (seq 0 (particleCount v)) (particles v))
  end.

(** The step the [switch] of [update] selects for particle [i] in the
    modes that loop over the particles. *)
Definition modeStep (v : t) (palette : Palette) (frequencyData : list Z)
  (average : float) (beat : bool) (beatIntensity : float) (i : nat)
  : Vector3 -> Vector3 -> Moved :=
  let freqValue := freqValueOf frequencyData (particleCount v) i in
  match visualMode v with
  | cosmic => stepCosmic v palette beat beatIntensity freqValue
  | pulse => stepPulse v palette beat beatIntensity freqValue i
  | chaos => stepChaos v palette beat beatIntensity freqValue i
  | _ => stepParticles v palette average beat beatIntensity freqValue
  end.

(** The same step for a particle whose frequency value is [freqValue]. *)
Definition modeStepOn (v : t) (palette : Palette) (average : float) (beat : bool)
  (beatIntensity freqValue : float) (i : nat) : Vector3 -> Vector3 -> Moved :=
  match visualMode v with
  | cosmic => stepCosmic v palette beat beatIntensity freqValue
  | pulse => stepPulse v palette beat beatIntensity freqValue i
  | chaos => stepChaos v palette beat beatIntensity freqValue i
  | _ => stepParticles v palette average beat beatIntensity freqValue
  end.

(** [updateCameraShake(bassIntensity, beat)]. *)
Definition updateCameraShake (v : t) (bass : float) (beat : bool) : t :=
  let c := camera v in
  let shaken := (if beat then bass * 10 else cameraShakeIntensity c) * 0.9 in
  let r := randomCount v in
  let shakes := gt shaken 0.1 in
  set_camera v
    {| cameraAngle := cameraAngle c;
       cameraRadius := cameraRadius c;
       cameraHeight := cameraHeight c;
       cameraPosition := cameraPosition c;
       cameraShake :=
         if shakes then
           {| vx := (Math_random r - 0.5) * shaken;
              vy := (Math_random (r + 1)%nat - 0.5) * shaken;
              vz := (Math_random (r + 2)%nat - 0.5) * shaken |}
         else {| vx := 0; vy := 0; vz := 0 |};
       cameraShakeIntensity := shaken |}
    (if shakes then (r + 3)%nat else r).

(** [updateCamera(audioIntensity)]. *)
Definition updateCamera (v : t) (audioIntensity : float) : t :=
  let c := camera v in
  let angle := cameraAngle c + (0.002 + audioIntensity * 0.001) in
  let dynamicRadius := cameraRadius c + audioIntensity * 50 in
  let dynamicHeight := cameraHeight c + bassIntensity v * 30 in
  set_camera v
    {| cameraAngle := angle;
       cameraRadius := cameraRadius c;
       cameraHeight := cameraHeight c;
       cameraPosition :=
         {| vx := Math_cos angle * dynamicRadius + vx (cameraShake c);
            vy := dynamicHeight + vy (cameraShake c);
            vz := Math_sin angle * dynamicRadius + vz (cameraShake c) |};
       cameraShake := cameraShake c;
       cameraShakeIntensity := cameraShakeIntensity c |}
    (randomCount v).

(** The [switch] of [update] over [this.visualMode]. *)
Definition updateMode (v : t) (frequencyData : list Z) (average : float) (beat : bool)
  (beatIntensity : float) : option t :=
  match visualMode v with
  | cosmic => updateParticlesCosmic v frequencyData average beat beatIntensity
  | neural => updateParticlesNeural v frequencyData average beat beatIntensity
  | pulse => updateParticlesPulse v frequencyData average beat beatIntensity
  | chaos => updateParticlesChaos v frequencyData average beat beatIntensity
  | minimal => updateParticlesMinimal v frequencyData average beat beatIntensity
  | other => updateParticles v frequencyData average beat beatIntensity
  end.

(** The head of [update], from the clock to the spiral angle: what the
    method does before it moves the particles. *)
Definition updateHead (v : t) (a : AudioData) (gestureCommands : option GestureCommands)
  : t :=
  let v1 :=
    set_clock v (time v + 0.01) (band (bands a) bass * 2)
      (band (bands a) mid * 1.5) (band (bands a) treble * 1.2) in
  let v2 :=
    match gestureCommands with
    | Some commands => processGestureCommands v1 commands (beat a) (beatIntensity a)
    | None => v1
    end in
  let v3 := updateCameraShake v2 (band (bands a) bass) (beat a) in
  set_spiral v3 (band (bands a) treble * 3)
    (spiralAngle v3 + (0.01 + band (bands a) bass * 0.05)).

(** [applyRadialSymmetry()]: the loops of [Symmetry.applyRadialSymmetry]
    on the position attribute. *)
Definition applyRadialSymmetry (v : t) : t :=
  let p := particles v in
  set_particles v
    {| particlePositions := particlePositions p;
       particleVelocities := particleVelocities p;
       particleColors := particleColors p;
       positions :=
         Symmetry.applyRadialSymmetry Math_sin Math_cos (particleCount v)
           (symmetrySegments v) (positions p);
       sizes := sizes p |}.

(** [update(audioData, gestureCommands)]; an absent argument is [None].
    The rendering that ends the method belongs to the renderer.  [None]:
    an exception leaves the method. *)
Definition update (v : t) (audioData : option AudioData)
  (gestureCommands : option GestureCommands) : option t :=
  match audioData with
  | None => Some v
  | Some a =>
      if negb (isRunning v) then Some v
      else
        let v4 := updateHead v a gestureCommands in
        match
          if negb (isFrozen v4) then
            updateMode v4 (frequencyData a) (average a) (beat a) (beatIntensity a)
          else updateParticleColors v4 (frequencyData a) (average a)
        with
        | Some v5 =>
            let v6 := updateCamera v5 (average a) in
            Some (if radialSymmetry v6 then applyRadialSymmetry v6 else v6)
        | None => None
        end
  end.

(** One iteration of the loop of [createParticleSystem]: five random
    numbers per particle, for the radius, the two angles, the hue and the
    size. *)
Definition createParticle (i : nat) : Vector3 * HSL * float :=
  let r := (5 * i)%nat in
  let radius := Math_random r * 100 + 50 in
  let theta := Math_random (r + 1)%nat * Math_PI * 2 in
  let phi := Math_acos (Math_random (r + 2)%nat * 2 - 1) in
  ({| vx := radius * Math_sin phi * Math_cos theta;
      vy := radius * Math_sin phi * Math_sin theta;
      vz := radius * Math_cos phi |},
   {| hue := 0.5 + Math_random (r + 3)%nat * 0.3; saturation := 1.0; lightness := 0.5 |},
   Math_fround (Math_random (r + 4)%nat * 2 + 1)).

(** The constructor with [init] and [createParticleSystem], for a
    particle count of [count] (2000 in the source). *)
Definition create (count : nat) : t :=
  let made := map createParticle (seq 0 count) in
  {| isRunning := false;
     particleCount := count;
     particles :=
       {| particlePositions := map (fun m => fst (fst m)) made;
          particleVelocities := map (fun _ => {| vx := 0; vy := 0; vz := 0 |}) made;
          particleColors := map (fun m => snd (fst m)) made;
          positions := attributeOf (map (fun m => fst (fst m)) made);
          sizes := map snd made |};
     time := 0;
     camera :=
       {| cameraAngle := 0; cameraRadius := 150; cameraHeight := 50;
          cameraPosition := {| vx := 0; vy := 0; vz := 150 |};
          cameraShake := {| vx := 0; vy := 0; vz := 0 |};
          cameraShakeIntensity := 0 |};
     bassIntensity := 0;
     midIntensity := 0;
     trebleIntensity := 0;
     isFrozen := false;
     pulseEffect := false;
     pulseIntensity := 0;
     decayCallbacks := 0;
     currentPalette := 0;
     radialSymmetry := false;
     symmetrySegments := 6;
     visualMode := cosmic;
     particleConnections := [];
     spiralAngle := 0;
     spiralTightness := 0.1;
     spikeIntensity := 0;
     randomCount := (5 * count)%nat |}.

(** *** Sequences of operations *)

Inductive Operation :=
| OpSetVisualMode (mode : VisualMode)
| OpGesture (commands : GestureCommands) (beat : bool) (beatIntensity : float)
| OpTriggerPulse (intensity : float)
| OpAnimationFrame
| OpStart
| OpStop
| OpUpdate (audioData : option AudioData) (commands : option GestureCommands).

Definition perform (v : t) (op : Operation) : option t :=
  match op with
  | OpSetVisualMode mode => Some (setVisualMode v mode)
  | OpGesture commands beat beatIntensity =>
      Some (processGestureCommands v commands beat beatIntensity)
  | OpTriggerPulse intensity => Some (triggerPulse v intensity)
  | OpAnimationFrame => Some (animationFrame v)
  | OpStart => Some (start v)
  | OpStop => Some (stop v)
  | OpUpdate audioData commands => update v audioData commands
  end.

Fixpoint run (v : t) (ops : list Operation) : option t :=
  match ops with
  | [] => Some v
  | op :: rest =>
      match perform v op with
      | Some v' => run v' rest
      | None => None
      end
  end.

(** The palette index of a gesture snapshot names a palette. *)
Definition validCommands (c : GestureCommands) : Prop := (0 <= colorPalette c <= 2)%Z.

Definition validOperation (op : Operation) : Prop :=
  match op with
  | OpGesture c _ _ => validCommands c
  | OpUpdate _ (Some c) => validCommands c
  | _ => True
  end.

End Host.

(** *** Values for the examples *)

(** A host for the examples; the properties hold for every host. *)
Definition exampleSin (x : float) : float := 0.
Definition exampleCos (x : float) : float := 1.
Definition exampleAcos (x : float) : float := 0.
Definition exampleAtan2 (y x : float) : float := 0.
Definition exampleRandom (n : nat) : float := 0.5.

(** A silent spectrum of 1024 bins, and the same with bin 16 at 255. *)
Definition quiet : list Z := repeat 0%Z 1024.
Definition tone16 : list Z := <[16%nat := 255%Z]> (repeat 0%Z 1024).

(** A frame whose spectrum has bin 16 at 255, with an average of 0.3. *)
Definition tone : AudioData :=
  {| frequencyData := tone16;
     average := 0.3;
     beat := false;
     beatIntensity := 0;
     bands := [ (sub, 0); (bass, 0); (low, 0); (mid, 0); (high, 0); (treble, 0) ] |}.

(** A running visualizer of [count] particles at rest, particle [i] at
    [(i, i, i)], otherwise as [still]. *)
Definition spread (count : nat) (mode : VisualMode) : t :=
  let placed :=
    map (fun i => {| vx := Z2F (Z.of_nat i); vy := Z2F (Z.of_nat i); vz := Z2F (Z.of_nat i) |})
      (seq 0 count) in
  set_particles (still count origin mode)
    {| particlePositions := placed;
       particleVelocities := repeat origin count;
       particleColors := repeat {| hue := 0.5; saturation := 1.0; lightness := 0.5 |} count;
       positions := attributeOf placed;
       sizes := repeat 1 count |}.

(** A gesture snapshot with [freeze] set, and one with nothing set. *)
Definition fist : GestureCommands :=
  {| freeze := true; pulseCommand := false; colorPalette := 0 |}.
Definition palm : GestureCommands :=
  {| freeze := false; pulseCommand := true; colorPalette := 1 |}.

(** A snapshot with [freeze] set and the second palette. *)
Definition frozenSunset : GestureCommands :=
  {| freeze := true; pulseCommand := false; colorPalette := 1 |}.

(** A sequence of operations: the start, two mode switches, a freeze, a
    pulse, two animation frames and three ticks. *)
Definition session : list Operation :=
  [ OpStart;
    OpUpdate (Some silence) None;
    OpSetVisualMode neural;
    OpGesture fist false 0;
    OpUpdate (Some silence) (Some fist);
    OpTriggerPulse 1;
    OpAnimationFrame;
    OpGesture palm true 0.5;
    OpAnimationFrame;
    OpSetVisualMode minimal;
    OpUpdate (Some silence) (Some palm) ].

End Visualizer.

(** ** Checks by enumeration

    The facts on binary64 arithmetic that the band extraction needs hold
    on finite ranges of integers; they are checked on every value of the
    range. *)

Module Enumeration.

Local Open Scope float_scope.

(** [f] on every integer [acc * 2^n + j] with [j < 2^n]. *)
Fixpoint all_bits (n : nat) (acc : int) (f : int -> bool) : bool :=
  match n with
  | O => f acc
  | S n' => all_bits n' (acc + acc)%uint63 f && all_bits n' (acc + acc + 1)%uint63 f
  end.

Definition add_exact (s b : int) : bool :=
  Leibniz.eqb (of_uint63 s + of_uint63 b) (of_uint63 (s + b)%uint63).

Definition sub_exact (e s : int) : bool :=
  if (s <=? e)%uint63 then
    Leibniz.eqb (of_uint63 e - of_uint63 s) (of_uint63 (e - s)%uint63)
  else true.

Definition energy_in_unit (k s : int) : bool :=
  if (s <=? 255 * k)%uint63 then
    let v := (of_uint63 s / of_uint63 k) / 255 in le 0 v && le v 1
  else true.

Definition full_scale (k : int) : bool :=
  Leibniz.eqb ((of_uint63 (255 * k)%uint63 / of_uint63 k) / 255) 1.

Definition floor_exact (z : int) : bool :=
  match floorZ (of_uint63 z) with
  | Some r => (r =? to_Z z)%Z
  | None => false
  end.

Definition width_ok (k : int) : bool := (1 <=? k)%uint63 && (k <=? 256)%uint63.

Definition bar_exact (n : int) : bool :=
  match floorZ (Math_floor (of_uint63 n / Z2F 64)) with
  | Some k => (k =? to_Z n / 64)%Z
  | None => false
  end.

End Enumeration.

(** ** The gesture controller (gesture-controller.js) *)

Module GestureController.

Local Open Scope float_scope.

(** The values of [currentGesture]: the four results of
    [recognizeGesture], and ['none']. *)
Inductive Gesture := fist | palm | peace | unknown | none.

#[global] Instance Gesture_eq_dec : EqDecision Gesture.
Proof. solve_decision. Defined.

(** [hand.landmarks]: an array of points, each an array of coordinates. *)
Abbreviation Landmarks := (list (list float)).

(** [point[k]] as an operand of a subtraction or of a comparison:
    [undefined] converts to NaN. *)
Definition coordinate (point : list float) (k : nat) : float :=
  match point !! k with
  | Some c => c
  | None => nan
  end.

(** The tip and the PIP joint of the index, middle, ring and little
    finger. *)
Definition fingerIndices : list (nat * nat) :=
  [ (8, 6); (12, 10); (16, 14); (20, 18) ]%nat.

(** The loop [fingerIndices.forEach(...)] of [getFingerExtensions].
    Reading a coordinate of an absent landmark is a TypeError. *)
Fixpoint pushExtensions (landmarks : Landmarks) (pairs : list (nat * nat))
  (fingers : list bool) : option (list bool) :=
  match pairs with
  | [] => Some fingers
  | (tipIdx, pipIdx) :: rest =>
      match landmarks !! tipIdx, landmarks !! pipIdx with
      | Some tip, Some pip =>
          let extended := coordinate tip 1 <? coordinate pip 1 in
          pushExtensions landmarks rest (fingers ++ [extended])
      | _, _ => None
      end
  end.

(** [getFingerExtensions(landmarks)]: thumb, index, middle, ring, little
    finger. *)
Definition getFingerExtensions (landmarks : Landmarks) : option (list bool) :=
  match landmarks !! 4%nat, landmarks !! 2%nat with
  | Some thumbTip, Some thumbBase =>
      let thumbExtended :=
        gt (Math_abs (coordinate thumbTip 0 - coordinate thumbBase 0)) 30 in
      pushExtensions landmarks fingerIndices [thumbExtended]
  | _, _ => None
  end.

(** [fingers[k]] as a condition: [undefined] is false. *)
Definition finger (fingers : list bool) (k : nat) : bool :=
  match fingers !! k with
  | Some b => b
  | None => false
  end.

(** [recognizeGesture(hand)]. *)
Definition recognizeGesture (landmarks : Landmarks) : option Gesture :=
  match getFingerExtensions landmarks with
  | Some fingers =>
      let extendedCount := length (filter (fun f => f = true) fingers) in
      Some (if (extendedCount =? 0)%nat then fist
            else if (extendedCount =? 5)%nat then palm
            else if (extendedCount =? 2)%nat && finger fingers 1 && finger fingers 2
                 then peace
            else unknown)
  | None => None
  end.

(** The fields of the controller that the detection reads and writes.
    [pulseTimeouts] counts the callbacks handed to [setTimeout] by the palm
    gesture and not yet run. *)
Record t := {
  isModelLoaded : bool;
  isRunning : bool;
  currentGesture : Gesture;
  lastGesture : Gesture;
  gestureHistory : list Gesture;
  gestureHistorySize : nat;
  commands : Visualizer.GestureCommands;
  pulseTimeouts : nat;
  calibrationMode : bool
}.

(** The constructor, with the outcome of [handpose.load()] in [init]. *)
Definition create (loaded : bool) : t :=
  {| isModelLoaded := loaded;
     isRunning := false;
     currentGesture := none;
     lastGesture := none;
     gestureHistory := [];
     gestureHistorySize := 5;
     commands :=
       {| Visualizer.freeze := false; Visualizer.pulseCommand := false;
          Visualizer.colorPalette := 0 |};
     pulseTimeouts := 0;
     calibrationMode := false |}.

Definition set_history (s : t) (h : list Gesture) : t :=
  {| isModelLoaded := isModelLoaded s; isRunning := isRunning s;
     currentGesture := currentGesture s; lastGesture := lastGesture s;
     gestureHistory := h; gestureHistorySize := gestureHistorySize s;
     commands := commands s; pulseTimeouts := pulseTimeouts s;
     calibrationMode := calibrationMode s |}.

Definition set_gesture (s : t) (current last : Gesture) : t :=
  {| isModelLoaded := isModelLoaded s; isRunning := isRunning s;
     currentGesture := current; lastGesture := last;
     gestureHistory := gestureHistory s; gestureHistorySize := gestureHistorySize s;
     commands := commands s; pulseTimeouts := pulseTimeouts s;
     calibrationMode := calibrationMode s |}.

Definition set_commands (s : t) (c : Visualizer.GestureCommands) (pending : nat) : t :=
  {| isModelLoaded := isModelLoaded s; isRunning := isRunning s;
     currentGesture := currentGesture s; lastGesture := lastGesture s;
     gestureHistory := gestureHistory s; gestureHistorySize := gestureHistorySize s;
     commands := c; pulseTimeouts := pending;
     calibrationMode := calibrationMode s |}.

Definition set_running (s : t) (b : bool) : t :=
  {| isModelLoaded := isModelLoaded s; isRunning := b;
     currentGesture := currentGesture s; lastGesture := lastGesture s;
     gestureHistory := gestureHistory s; gestureHistorySize := gestureHistorySize s;
     commands := commands s; pulseTimeouts := pulseTimeouts s;
     calibrationMode := calibrationMode s |}.

Definition set_calibration (s : t) (b : bool) : t :=
  {| isModelLoaded := isModelLoaded s; isRunning := isRunning s;
     currentGesture := currentGesture s; lastGesture := lastGesture s;
     gestureHistory := gestureHistory s; gestureHistorySize := gestureHistorySize s;
     commands := commands s; pulseTimeouts := pulseTimeouts s;
     calibrationMode := b |}.

(** [onGestureChange(gesture)]. *)
Definition onGestureChange (s : t) (gesture : Gesture) : t :=
  let c := commands s in
  match gesture with
  | fist =>
      set_commands s
        {| Visualizer.freeze := negb (Visualizer.freeze c);
           Visualizer.pulseCommand := Visualizer.pulseCommand c;
           Visualizer.colorPalette := Visualizer.colorPalette c |}
        (pulseTimeouts s)
  | palm =>
      set_commands s
        {| Visualizer.freeze := Visualizer.freeze c;
           Visualizer.pulseCommand := true;
           Visualizer.colorPalette := Visualizer.colorPalette c |}
        (S (pulseTimeouts s))
  | peace =>
      set_commands s
        {| Visualizer.freeze := Visualizer.freeze c;
           Visualizer.pulseCommand := Visualizer.pulseCommand c;
           Visualizer.colorPalette := Z.rem (Visualizer.colorPalette c + 1) 3 |}
        (pulseTimeouts s)
  | _ => s
  end.

(** The callback of the palm gesture's [setTimeout], 500 ms later. *)
Definition pulseTimeout (s : t) : t :=
  let c := commands s in
  set_commands s
    {| Visualizer.freeze := Visualizer.freeze c;
       Visualizer.pulseCommand := false;
       Visualizer.colorPalette := Visualizer.colorPalette c |}
    (Nat.pred (pulseTimeouts s)).

(** [gestureHistory.push(gesture)], followed by [shift()] when the
    history is longer than [gestureHistorySize]. *)
Definition pushGesture (s : t) (gesture : Gesture) : list Gesture :=
  let pushed := gestureHistory s ++ [gesture] in
  if (gestureHistorySize s <? length pushed)%nat then tail pushed else pushed.

(** [gestureCounts[g] = (gestureCounts[g] || 0) + 1] on an object whose
    keys are kept in the order of their insertion. *)
Fixpoint increment (g : Gesture) (counts : list (Gesture * nat)) : list (Gesture * nat) :=
  match counts with
  | [] => [ (g, 1%nat) ]
  | (k, n) :: rest =>
      if bool_decide (k = g) then (k, S n) :: rest else (k, n) :: increment g rest
  end.

Definition gestureCounts (history : list Gesture) : list (Gesture * nat) :=
  fold_left (fun counts g => increment g counts) history [].

(** [gestureCounts[g]] for a key of the object. *)
Definition countOf (counts : list (Gesture * nat)) (g : Gesture) : nat :=
  match find (fun p => bool_decide (fst p = g)) counts with
  | Some p => snd p
  | None => 0
  end.

(** [Object.keys(gestureCounts).reduce((a, b) => gestureCounts[a] >
    gestureCounts[b] ? a : b)]; without a key the reduction raises. *)
Definition mostCommon (counts : list (Gesture * nat)) : option Gesture :=
  match map fst counts with
  | [] => None
  | first :: rest =>
      Some (fold_left
              (fun a b => if (countOf counts b <? countOf counts a)%nat then a else b)
              rest first)
  end.

(** [updateGesture(gesture)]. *)
Definition updateGesture (s : t) (gesture : Gesture) : option t :=
  let s1 := set_history s (pushGesture s gesture) in
  match mostCommon (gestureCounts (gestureHistory s1)) with
  | Some common =>
      if negb (bool_decide (common = currentGesture s1))
         && negb (bool_decide (common = unknown))
         && negb (bool_decide (common = none))
      then Some (onGestureChange (set_gesture s1 common (currentGesture s1)) common)
      else Some s1
  | None => None
  end.

(** The pairs of landmarks [drawHandLandmarks] joins by a line. *)
Definition handConnections : list (nat * nat) :=
  [ (0, 1); (1, 2); (2, 3); (3, 4);
    (0, 5); (5, 6); (6, 7); (7, 8);
    (0, 9); (9, 10); (10, 11); (11, 12);
    (0, 13); (13, 14); (14, 15); (15, 16);
    (0, 17); (17, 18); (18, 19); (19, 20);
    (5, 9); (9, 13); (13, 17) ]%nat.

(** [drawHandLandmarks(hand)] as far as the controller is concerned: the
    drawing belongs to the canvas; destructuring an absent landmark is a
    TypeError. *)
Definition drawHandLandmarks (landmarks : Landmarks) : option unit :=
  if forallb
       (fun c => bool_decide (is_Some (landmarks !! fst c))
                 && bool_decide (is_Some (landmarks !! snd c)))
       handConnections
  then Some tt else None.

(** The body of the detection callback after [estimateHands] has
    answered with [predictions]; an exception is caught and logged, with
    the history as it was left. *)
Definition onPredictions (s : t) (predictions : list Landmarks) : t :=
  match predictions with
  | hand :: _ =>
      match drawHandLandmarks hand with
      | Some _ =>
          match recognizeGesture hand with
          | Some gesture =>
              match updateGesture s gesture with
              | Some s' => s'
              | None => set_history s (pushGesture s gesture)
              end
          | None => s
          end
      | None => s
      end
  | [] =>
      match updateGesture s none with
      | Some s' => s'
      | None => set_history s (pushGesture s none)
      end
  end.

(** One run of the detection callback, when [estimateHands] answers
    before anything else happens. *)
Definition detectGesture (s : t) (predictions : list Landmarks) : t :=
  if negb (isRunning s) then s else onPredictions s predictions.

(** [start()], with the outcome of [getUserMedia]. *)
Definition start (s : t) (granted : bool) : t * bool :=
  if negb (isModelLoaded s) then (s, false)
  else if isRunning s then (s, true)
  else if granted then (set_running s true, true)
  else (s, false).

(** [stop()]. *)
Definition stop (s : t) : t :=
  if negb (isRunning s) then s
  else
    let s1 := set_gesture (set_running s false) none (lastGesture s) in
    set_commands s1
      {| Visualizer.freeze := false;
         Visualizer.pulseCommand := false;
         Visualizer.colorPalette := Visualizer.colorPalette (commands s1) |}
      (pulseTimeouts s1).

Definition getCommands (s : t) : Visualizer.GestureCommands := commands s.

Definition startCalibration (s : t) : t := set_calibration s true.

Definition stopCalibration (s : t) : t := set_calibration s false.

(** What can happen to a controller: a call of [start] or [stop], an
    answer of the hand model reaching the detection callback, a timeout of
    the pulse command, the two calibration calls. *)
Inductive Event :=
| EvStart (granted : bool)
| EvStop
| EvDetect (predictions : list Landmarks)
| EvPredictions (predictions : list Landmarks)
| EvPulseTimeout
| EvStartCalibration
| EvStopCalibration.

Definition handle (s : t) (ev : Event) : t :=
  match ev with
  | EvStart granted => fst (start s granted)
  | EvStop => stop s
  | EvDetect predictions => detectGesture s predictions
  | EvPredictions predictions => onPredictions s predictions
  | EvPulseTimeout => pulseTimeout s
  | EvStartCalibration => startCalibration s
  | EvStopCalibration => stopCalibration s
  end.

Definition handleAll (s : t) (evs : list Event) : t := fold_left handle evs s.

(** The gestures fed to [updateGesture] one after the other. *)
Fixpoint updateGestures (s : t) (gestures : list Gesture) : option t :=
  match gestures with
  | [] => Some s
  | g :: rest =>
      match updateGesture s g with
      | Some s' => updateGestures s' rest
      | None => None
      end
  end.

(** A hand of 21 landmarks with the given fingers extended: the thumb
    tip 40 to the side of its base when extended, a finger tip 20 above
    its PIP joint when extended and 20 below otherwise. *)
Definition point (x y : float) : list float := [ x; y; 0 ].

Definition handOf (thumb index middle ring little : bool) : Landmarks :=
  let tipY (b : bool) := if b then 80 else 120 in
  [ point 100 200; point 100 180; point 100 160; point 100 150;
    point (if thumb then 140 else 100) 140;
    point 120 120; point 120 100; point 120 90; point 120 (tipY index);
    point 140 120; point 140 100; point 140 90; point 140 (tipY middle);
    point 160 120; point 160 100; point 160 90; point 160 (tipY ring);
    point 180 120; point 180 100; point 180 90; point 180 (tipY little) ].

(** What every event keeps: the window size of the constructor, a window
    within it, and a palette index that names a palette. *)
Definition steady (s : t) : Prop :=
  gestureHistorySize s = 5%nat
  /\ (length (gestureHistory s) <= 5)%nat
  /\ (0 <= Visualizer.colorPalette (commands s) <= 2)%Z
  /\ currentGesture s <> unknown.

End GestureController.

(** ** The presets (class [PresetManager] of audio-engine.js) *)

Module PresetManager.

Local Open Scope float_scope.
Local Open Scope string_scope.

(** The visualizer as the presets see it: the state of the particle
    model, the two trail fields of [Visualizer], and the alpha of the
    renderer's clear colour, set by [renderer.setClearColor(0x000000,
    alpha)]. *)
Record Stage := {
  visualizer : Visualizer.t;
  trailEffect : bool;
  trailOpacity : float;
  clearAlpha : float
}.

(** The stage the constructor of [Visualizer] leaves, with [init]. *)
Definition stageOf (v : Visualizer.t) : Stage :=
  {| visualizer := v; trailEffect := true; trailOpacity := 0.15; clearAlpha := 0.15 |}.

Definition set_visualizer (st : Stage) (v : Visualizer.t) : Stage :=
  {| visualizer := v; trailEffect := trailEffect st; trailOpacity := trailOpacity st;
     clearAlpha := clearAlpha st |}.

(** [this.cameraRadius = r]. *)
Definition set_cameraRadius (v : Visualizer.t) (r : float) : Visualizer.t :=
  let c := Visualizer.camera v in
  Visualizer.set_camera v
    {| Visualizer.cameraAngle := Visualizer.cameraAngle c;
       Visualizer.cameraRadius := r;
       Visualizer.cameraHeight := Visualizer.cameraHeight c;
       Visualizer.cameraPosition := Visualizer.cameraPosition c;
       Visualizer.cameraShake := Visualizer.cameraShake c;
       Visualizer.cameraShakeIntensity := Visualizer.cameraShakeIntensity c |}
    (Visualizer.randomCount v).

(** [Visualizer.toggleTrailEffect()]. *)
Definition toggleTrailEffect (st : Stage) : Stage :=
  let on := negb (trailEffect st) in
  {| visualizer := visualizer st;
     trailEffect := on;
     trailOpacity := trailOpacity st;
     clearAlpha := if on then trailOpacity st else 1 |}.

(** [Visualizer.toggleRadialSymmetry()] on the stage. *)
Definition toggleRadialSymmetry (st : Stage) : Stage :=
  set_visualizer st (Visualizer.toggleRadialSymmetry (visualizer st)).

(** A preset: the settings the manager applies, and the particle count
    each preset declares. *)
Record Preset := {
  presetMode : Visualizer.VisualMode;
  presetTrailEffect : bool;
  presetTrailOpacity : float;
  presetRadialSymmetry : bool;
  presetCameraRadius : float;
  presetParticleCount : nat
}.

Definition presets : list (String.string * Preset) :=
  [ ("cosmic",
     {| presetMode := Visualizer.cosmic; presetTrailEffect := true;
        presetTrailOpacity := 0.15; presetRadialSymmetry := false;
        presetCameraRadius := 150; presetParticleCount := 2000 |});
    ("neural",
     {| presetMode := Visualizer.neural; presetTrailEffect := false;
        presetTrailOpacity := 1.0; presetRadialSymmetry := false;
        presetCameraRadius := 180; presetParticleCount := 2000 |});
    ("pulse",
     {| presetMode := Visualizer.pulse; presetTrailEffect := true;
        presetTrailOpacity := 0.2; presetRadialSymmetry := false;
        presetCameraRadius := 140; presetParticleCount := 2000 |});
    ("chaos",
     {| presetMode := Visualizer.chaos; presetTrailEffect := true;
        presetTrailOpacity := 0.1; presetRadialSymmetry := false;
        presetCameraRadius := 160; presetParticleCount := 2000 |});
    ("minimal",
     {| presetMode := Visualizer.minimal; presetTrailEffect := false;
        presetTrailOpacity := 1.0; presetRadialSymmetry := false;
        presetCameraRadius := 200; presetParticleCount := 2000 |}) ].

Definition keyMap : list (String.string * String.string) :=
  [ ("1", "cosmic"); ("2", "neural"); ("3", "pulse"); ("4", "chaos"); ("5", "minimal");
    ("t", "toggleTrail"); ("k", "toggleKaleidoscope"); ("r", "randomize") ].

(** [table[key]] for a key the object holds itself ([undefined]
    otherwise; the properties an object inherits hold no preset and no
    action name). *)
Definition entry {A : Type} (table : list (String.string * A)) (key : String.string)
  : option A :=
  match find (fun p => String.eqb (fst p) key) table with
  | Some p => Some (snd p)
  | None => None
  end.

(** The manager.  [animation] is the callback [animate] of
    [smoothTransition] when it is handed to [requestAnimationFrame]: the
    initial radius and the target preset it closes over. *)
Record t := {
  currentPreset : String.string;
  isTransitioning : bool;
  transitionDuration : Z;
  transitionStart : Z;
  animation : option (float * Preset)
}.

Definition set_preset (m : t) (name : String.string) : t :=
  {| currentPreset := name; isTransitioning := isTransitioning m;
     transitionDuration := transitionDuration m; transitionStart := transitionStart m;
     animation := animation m |}.

Definition set_transition (m : t) (on : bool) (started : Z)
  (pending : option (float * Preset)) : t :=
  {| currentPreset := currentPreset m; isTransitioning := on;
     transitionDuration := transitionDuration m; transitionStart := started;
     animation := pending |}.

(** [applyPresetImmediate(preset)]. *)
Definition applyPresetImmediate (st : Stage) (preset : Preset) : Stage :=
  let v1 := Visualizer.setVisualMode (visualizer st) (presetMode preset) in
  let v2 := Visualizer.set_symmetry v1 (presetRadialSymmetry preset) in
  let v3 := set_cameraRadius v2 (presetCameraRadius preset) in
  {| visualizer := v3;
     trailEffect := presetTrailEffect preset;
     trailOpacity := presetTrailOpacity preset;
     clearAlpha := if presetTrailEffect preset then presetTrailOpacity preset else 1 |}.

Section Host.

(** [Math.pow], left to the host by the language standard. *)
Variable Math_pow : float -> float -> float.

(** [Math.min(elapsed / this.transitionDuration, 1)] at the time [now]. *)
Definition progressAt (m : t) (now : Z) : float :=
  Math_min (Z2F (now - transitionStart m) / Z2F (transitionDuration m)) 1.

Definition eased (progress : float) : float :=
  if progress <? 0.5 then 2 * progress * progress
  else 1 - Math_pow (-2 * progress + 2) 2 / 2.

(** One run of the callback [animate], [now] being the value of
    [Date.now()]; without a pending callback nothing runs. *)
Definition animate (w : t * Stage) (now : Z) : t * Stage :=
  let '(m, st) := w in
  match animation m with
  | None => w
  | Some (initialRadius, targetPreset) =>
      let progress := progressAt m now in
      let targetRadius := presetCameraRadius targetPreset in
      let st1 :=
        set_visualizer st
          (set_cameraRadius (visualizer st)
             (initialRadius + (targetRadius - initialRadius) * eased progress)) in
      if progress <? 1 then (m, st1)
      else (set_transition m false (transitionStart m) None,
            applyPresetImmediate st1 targetPreset)
  end.

(** [smoothTransition(targetPreset)]: [started] and [now] are the two
    values of [Date.now()], the second one in the first run of [animate]. *)
Definition smoothTransition (w : t * Stage) (targetPreset : Preset) (started now : Z)
  : t * Stage :=
  let '(m, st) := w in
  let initialRadius := Visualizer.cameraRadius (Visualizer.camera (visualizer st)) in
  animate (set_transition m true started (Some (initialRadius, targetPreset)), st) now.

(** [applyPreset(presetName, animate)], for the names the class and the
    demonstration call it with: the keys of [presets], and [undefined],
    which has no entry.  The display of the preset belongs to the page. *)
Definition applyPreset (w : t * Stage) (presetName : String.string) (animated : bool)
  (started now : Z) : t * Stage :=
  let '(m, st) := w in
  match entry presets presetName with
  | None => w
  | Some preset =>
      if isTransitioning m then w
      else
        let previousPreset := currentPreset m in
        let m1 := set_preset m presetName in
        if animated && negb (String.eqb previousPreset presetName)
        then smoothTransition (m1, st) preset started now
        else (m1, applyPresetImmediate st preset)
  end.

(** [presetNames[Math.floor(Math.random() * presetNames.length)]], with
    the result [random] of [Math.random()]. *)
Definition randomPreset (random : float) : option String.string :=
  let presetNames := map fst presets in
  match floorZ (Math_floor (random * Z2F (Z.of_nat (length presetNames)))) with
  | Some k => if (k <? 0)%Z then None else presetNames !! Z.to_nat k
  | None => None
  end.

(** [randomizePreset()]: [applyPreset(undefined, true)] finds no preset. *)
Definition randomizePreset (w : t * Stage) (random : float) (started now : Z) : t * Stage :=
  match randomPreset random with
  | Some name => applyPreset w name true started now
  | None => w
  end.

(** [handleKeyPress(event)]: [key] is [event.key.toLowerCase()] and
    [tagName] is [event.target.tagName]. *)
Definition handleKeyPress (w : t * Stage) (key tagName : String.string) (random : float)
  (started now : Z) : t * Stage :=
  let '(m, st) := w in
  if String.eqb tagName "INPUT" || String.eqb tagName "TEXTAREA" then w
  else
    match entry keyMap key with
    | None => w
    | Some action =>
        if String.eqb action "toggleTrail" then (m, toggleTrailEffect st)
        else if String.eqb action "toggleKaleidoscope" then (m, toggleRadialSymmetry st)
        else if String.eqb action "randomize" then randomizePreset w random started now
        else
          match entry presets action with
          | Some _ => applyPreset w action true started now
          | None => w
          end
    end.

(** [getCurrentPreset()]. *)
Definition getCurrentPreset (m : t) : option Preset := entry presets (currentPreset m).

(** The constructor with [init], on the stage of its visualizer; [init]
    applies the first preset without a transition, so that the clock is
    not read. *)
Definition create (st : Stage) : t * Stage :=
  applyPreset
    ({| currentPreset := "cosmic"; isTransitioning := false;
        transitionDuration := 1000; transitionStart := 0; animation := None |}, st)
    "cosmic" false 0 0.

(** What the page does with a manager: a key pressed, an animation
    frame. *)
Inductive Event :=
| EvKey (key tagName : String.string) (random : float) (started now : Z)
| EvFrame (now : Z).

Definition handle (w : t * Stage) (ev : Event) : t * Stage :=
  match ev with
  | EvKey key tagName random started now => handleKeyPress w key tagName random started now
  | EvFrame now => animate w now
  end.

Definition handleAll (w : t * Stage) (evs : list Event) : t * Stage :=
  fold_left handle evs w.

End Host.

(** The clear alpha agrees with the trail fields. *)
Definition clearAgrees (st : Stage) : Prop :=
  clearAlpha st = if trailEffect st then trailOpacity st else 1.

(** The manager is at rest or in a transition with its callback pending,
    and its current preset is one of the table. *)
Definition consistent (m : t) : Prop :=
  (isTransitioning m = true <-> is_Some (animation m))
  /\ is_Some (getCurrentPreset m).

(** What no preset and no transition changes in the visualizer. *)
Definition untouched (v v' : Visualizer.t) : Prop :=
  Visualizer.particles v' = Visualizer.particles v
  /\ Visualizer.particleCount v' = Visualizer.particleCount v
  /\ Visualizer.currentPalette v' = Visualizer.currentPalette v
  /\ Visualizer.isFrozen v' = Visualizer.isFrozen v
  /\ Visualizer.isRunning v' = Visualizer.isRunning v.

(** The stage with another camera radius. *)
Definition withRadius (st : Stage) (r : float) : Stage :=
  set_visualizer st (set_cameraRadius (visualizer st) r).

(** A host for the examples. *)
Definition examplePow (x y : float) : float := x * x.

End PresetManager.

(** ** The demonstration (class [DemoMode]) *)

Module DemoMode.

Import PresetManager.

Local Open Scope float_scope.
Local Open Scope string_scope.

(** The demonstration's own state.  [stepTimeout] tells whether the
    timer of the current step is pending; [unfreezeTimeouts] counts the
    timers of the simulated freeze gesture that are pending. *)
Record t := {
  isActive : bool;
  currentStep : nat;
  stepTimeout : bool;
  unfreezeTimeouts : nat
}.

(** The demonstration, the preset manager and the visualizer's stage. *)
Definition World : Type := t * (PresetManager.t * Stage).

Definition create : t :=
  {| isActive := false; currentStep := 0; stepTimeout := false; unfreezeTimeouts := 0 |}.

Definition set_frozen (st : Stage) (frozen : bool) : Stage :=
  let v := visualizer st in
  set_visualizer st (Visualizer.set_gesture v frozen (Visualizer.currentPalette v)).

(** [this.visualizer.currentPalette = (this.visualizer.currentPalette + 1) % 3]. *)
Definition nextPalette (st : Stage) : Stage :=
  let v := visualizer st in
  set_visualizer st
    (Visualizer.set_gesture v (Visualizer.isFrozen v)
       (Z.rem (Visualizer.currentPalette v + 1) 3)).

(** [simulateGesture(type)]. *)
Definition simulateGesture (type : String.string) (w : World) : World :=
  let '(d, (m, st)) := w in
  if String.eqb type "pulse" then
    (d, (m, set_visualizer st (Visualizer.triggerPulse (visualizer st) 1.5)))
  else if String.eqb type "freeze" then
    ({| isActive := isActive d; currentStep := currentStep d;
        stepTimeout := stepTimeout d; unfreezeTimeouts := S (unfreezeTimeouts d) |},
     (m, set_frozen st true))
  else if String.eqb type "palette" then (d, (m, nextPalette st))
  else w.

(** The callback of the simulated freeze, 2000 ms later. *)
Definition unfreezeTimeout (w : World) : World :=
  let '(d, (m, st)) := w in
  ({| isActive := isActive d; currentStep := currentStep d;
      stepTimeout := stepTimeout d; unfreezeTimeouts := Nat.pred (unfreezeTimeouts d) |},
   (m, set_frozen st false)).

(** A step: its duration in milliseconds and its action, which reads the
    clock twice when it applies a preset. *)
Record Step := { duration : Z; action : World -> Z -> Z -> World }.

Section Host.

Variable Math_pow : float -> float -> float.

Definition showPreset (name : String.string) (w : World) (started now : Z) : World :=
  (fst w, applyPreset Math_pow (snd w) name true started now).

Definition demoSteps : list Step :=
  [ {| duration := 5000; action := showPreset "cosmic" |};
    {| duration := 6000; action := showPreset "cosmic" |};
    {| duration := 6000; action := showPreset "neural" |};
    {| duration := 6000; action := showPreset "pulse" |};
    {| duration := 6000; action := showPreset "chaos" |};
    {| duration := 6000; action := showPreset "minimal" |};
    {| duration := 5000;
       action := fun w started now =>
         let '(d, (m, st)) := w in
         let st1 := if negb (trailEffect st) then toggleTrailEffect st else st in
         showPreset "cosmic" (d, (m, st1)) started now |};
    {| duration := 5000;
       action := fun w _ _ => let '(d, (m, st)) := w in (d, (m, toggleRadialSymmetry st)) |};
    {| duration := 4000;
       action := fun w _ _ => let '(d, (m, st)) := w in (d, (m, nextPalette st)) |};
    {| duration := 5000; action := fun w _ _ => simulateGesture "pulse" w |};
    {| duration := 5000; action := showPreset "cosmic" |};
    {| duration := 5000; action := fun w _ _ => w |};
    {| duration := 5000; action := showPreset "cosmic" |} ].

(** [stop()]: the pending timer of the step is cleared. *)
Definition stop (w : World) : World :=
  let '(d, ms) := w in
  if negb (isActive d) then w
  else
    ({| isActive := false; currentStep := currentStep d; stepTimeout := false;
        unfreezeTimeouts := unfreezeTimeouts d |}, ms).

(** [runDemoStep()]. *)
Definition runDemoStep (w : World) (started now : Z) : World :=
  let '(d, ms) := w in
  if negb (isActive d) || (length demoSteps <=? currentStep d)%nat then stop w
  else
    match demoSteps !! currentStep d with
    | Some step =>
        let '(d1, ms1) := action step w started now in
        ({| isActive := isActive d1; currentStep := currentStep d1; stepTimeout := true;
            unfreezeTimeouts := unfreezeTimeouts d1 |}, ms1)
    | None => w
    end.

(** [start()]. *)
Definition start (w : World) (started now : Z) : World :=
  let '(d, ms) := w in
  if isActive d then w
  else
    runDemoStep
      ({| isActive := true; currentStep := 0; stepTimeout := stepTimeout d;
          unfreezeTimeouts := unfreezeTimeouts d |}, ms) started now.

(** The callback of a step's timer: the next step. *)
Definition stepTimedOut (w : World) (started now : Z) : World :=
  let '(d, ms) := w in
  if negb (stepTimeout d) then w
  else
    runDemoStep
      ({| isActive := isActive d; currentStep := S (currentStep d); stepTimeout := false;
          unfreezeTimeouts := unfreezeTimeouts d |}, ms) started now.

(** What happens to a demonstration: its start, the timer of a step, a
    key pressed (which stops it), the timer of a simulated freeze; and
    what happens to the preset manager besides. *)
Inductive Event :=
| EvStart (started now : Z)
| EvStepTimeout (started now : Z)
| EvSkip
| EvUnfreeze
| EvPresets (ev : PresetManager.Event).

Definition handle (w : World) (ev : Event) : World :=
  match ev with
  | EvStart started now => start w started now
  | EvStepTimeout started now => stepTimedOut w started now
  | EvSkip => stop w
  | EvUnfreeze => unfreezeTimeout w
  | EvPresets e => (fst w, PresetManager.handle Math_pow (snd w) e)
  end.

Definition handleAll (w : World) (evs : list Event) : World := fold_left handle evs w.

(** The timers of the steps, one after the other, with the clock
    readings of each. *)
Definition timeouts (w : World) (clocks : list (Z * Z)) : World :=
  fold_left (fun w c => stepTimedOut w (fst c) (snd c)) clocks w.

End Host.

(** What the demonstration keeps of the visualizer: the particles, and
    a palette index that names a palette. *)
Definition demoKeeps (v v' : Visualizer.t) : Prop :=
  Visualizer.particles v' = Visualizer.particles v
  /\ Visualizer.particleCount v' = Visualizer.particleCount v
  /\ ((0 <= Visualizer.currentPalette v <= 2)%Z
      -> (0 <= Visualizer.currentPalette v' <= 2)%Z).

End DemoMode.

(** ** The interface hidden by the performance mode ([hideUI] and
    [showUI] of performance-mode.js) *)

Module PerformanceMode.

Local Open Scope string_scope.

(** An element of the page as the class sees it: its id, its classes and
    [style.display]. *)
Record Element := {
  elementId : String.string;
  classList : list String.string;
  display : String.string
}.

Definition set_display (el : Element) (value : String.string) : Element :=
  {| elementId := elementId el; classList := classList el; display := value |}.

(** The elements of the page, in document order. *)
Abbreviation Document := (list Element).

Definition uiSelectors : list String.string :=
  [ ".header"; ".control-panel"; ".preset-panel";
    "#webcam-preview"; "#gesture-overlay"; "#recording-indicator" ].

(** Whether an element matches a selector of the two forms the class
    uses, [.class] and [#id]. *)
Definition matches (selector : String.string) (el : Element) : bool :=
  match selector with
  | String.String c name =>
      if Ascii.eqb c "." then existsb (String.eqb name) (classList el)
      else if Ascii.eqb c "#" then String.eqb (elementId el) name
      else false
  | String.EmptyString => false
  end.

(** [document.querySelectorAll(selector)]: the positions of the matching
    elements, in document order. *)
Definition querySelectorAll (doc : Document) (selector : String.string) : list nat :=
  List.filter (fun i => match doc !! i with
                        | Some el => matches selector el
                        | None => false
                        end)
    (seq 0 (length doc)).

(** [s || d] for two strings: the empty string is falsy. *)
Definition orElse (s d : String.string) : String.string :=
  match s with
  | String.EmptyString => d
  | _ => s
  end.

(** An entry of [hiddenElements]: the element and its [originalDisplay]. *)
Abbreviation Hidden := (nat * String.string)%type.

(** The body of the inner loop of [hideUI]. *)
Definition hideElement (acc : Document * list Hidden) (i : nat) : Document * list Hidden :=
  let '(doc, hiddenElements) := acc in
  match doc !! i with
  | Some el =>
      if negb (String.eqb (display el) "none") then
        (<[i := set_display el "none"]> doc,
         hiddenElements ++ [ (i, orElse (display el) String.EmptyString) ])
      else acc
  | None => acc
  end.

(** [hideUI()]: the page and [hiddenElements] after it. *)
Definition hideUI (doc : Document) : Document * list Hidden :=
  fold_left
    (fun acc selector => fold_left hideElement (querySelectorAll (fst acc) selector) acc)
    uiSelectors (doc, []).

(** [showUI()]: the page after it; [hiddenElements] is emptied. *)
Definition showUI (doc : Document) (hiddenElements : list Hidden) : Document :=
  fold_left
    (fun doc h =>
       match doc !! fst h with
       | Some el => <[fst h := set_display el (snd h)]> doc
       | None => doc
       end)
    hiddenElements doc.

(** An element matched by a selector of the class. *)
Definition isUI (el : Element) : bool := existsb (fun selector => matches selector el) uiSelectors.

(** Whether [hiddenElements] holds an entry for the element at [i]. *)
Definition entered (hiddenElements : list Hidden) (i : nat) : bool :=
  existsb (fun h => fst h =? i)%nat hiddenElements.

(** What [hideUI] keeps while it runs on the page [doc0], [selectors]
    being the selectors it is done with: the page is [doc0] with the
    elements of [hiddenElements] hidden; every entry is for an element
    that a selector matches and holds the display the element had; no
    element is entered twice; and every element matched so far is entered
    or was hidden before. *)
Definition hiding (doc0 : Document) (selectors : list String.string)
  (acc : Document * list Hidden) : Prop :=
  (forall i : nat,
     fst acc !! i
     = match doc0 !! i with
       | Some el0 => if entered (snd acc) i then Some (set_display el0 "none") else Some el0
       | None => None
       end)
  /\ Forall (fun h => exists el0, doc0 !! fst h = Some el0 /\ snd h = display el0
                                  /\ isUI el0 = true) (snd acc)
  /\ NoDup (map fst (snd acc))
  /\ (forall (i : nat) (el0 : Element) (selector : String.string),
        doc0 !! i = Some el0 -> In selector selectors -> matches selector el0 = true ->
        entered (snd acc) i = true \/ display el0 = "none").

End PerformanceMode.

(** * Properties *)

Import AudioEngine.

(** Case analysis on the condition of a conditional of the goal. *)
Ltac case_if :=
  match goal with
  | |- context [if ?b then _ else _] => destruct b
  end.

(** ** Facts on binary64 numbers *)

Section FloatFacts.

Local Open Scope float_scope.

Lemma SFcompare_refl (x : spec_float) :
  x <> S754_nan -> SFcompare x x = Some Eq.
Proof.
  destruct x as [s| s| |s m e]; intros H; try congruence; simpl.
  - reflexivity.
  - destruct s; reflexivity.
  - rewrite Z.compare_refl, Pos.compare_cont_refl. destruct s; reflexivity.
Qed.

Lemma SFcompare_nan_l (y : spec_float) : SFcompare S754_nan y = None.
Proof. reflexivity. Qed.

Lemma SFcompare_nan_r (x : spec_float) : SFcompare x S754_nan = None.
Proof. destruct x as [s| s| |s m e]; reflexivity. Qed.

Lemma SFcompare_antisym (x y : spec_float) :
  SFcompare y x = option_map CompOpp (SFcompare x y).
Proof.
  destruct x as [sx|sx| |sx mx ex], y as [sy|sy| |sy my ey]; simpl;
    try reflexivity; try (destruct sx; reflexivity); try (destruct sy; reflexivity);
    try (destruct sx, sy; reflexivity).
  assert (Hm : Pos.compare_cont Eq my mx = CompOpp (Pos.compare_cont Eq mx my))
    by (rewrite Pos.compare_cont_antisym; reflexivity).
  rewrite (Z.compare_antisym ex ey), Hm.
  destruct sx, sy; simpl; try reflexivity;
    destruct (ex ?= ey)%Z; simpl; try reflexivity;
    destruct (Pos.compare_cont Eq mx my); reflexivity.
Qed.

Lemma is_nan_spec (x : float) : is_nan x = true <-> Prim2SF x = S754_nan.
Proof.
  unfold is_nan. rewrite FloatAxioms.eqb_spec. unfold SFeqb. split.
  - intros H. destruct (Prim2SF x) as [s| s| |s m e] eqn:E; try reflexivity;
      rewrite SFcompare_refl in H by congruence; discriminate.
  - intros ->. reflexivity.
Qed.

Lemma is_nan_eq (x : float) : is_nan x = true -> x = nan.
Proof.
  intros H. apply Prim2SF_inj. apply is_nan_spec in H. rewrite H. reflexivity.
Qed.

Lemma not_nan_spec (x : float) : is_nan x = false <-> Prim2SF x <> S754_nan.
Proof.
  rewrite <- is_nan_spec. destruct (is_nan x); split; congruence.
Qed.

Lemma leb_refl (x : float) : is_nan x = false -> (x <=? x) = true.
Proof.
  intros H. rewrite FloatAxioms.leb_spec. unfold SFleb.
  rewrite SFcompare_refl by (apply not_nan_spec; exact H). reflexivity.
Qed.

Lemma ltb_false_leb (x y : float) :
  is_nan x = false -> is_nan y = false -> (x <? y) = false -> (y <=? x) = true.
Proof.
  rewrite !not_nan_spec, FloatAxioms.ltb_spec, FloatAxioms.leb_spec. unfold SFltb, SFleb.
  rewrite (SFcompare_antisym (Prim2SF x) (Prim2SF y)). intros Hx Hy.
  destruct (SFcompare (Prim2SF x) (Prim2SF y)) as [[]|] eqn:E; simpl; try congruence.
  destruct (Prim2SF x) as [sx|sx| |sx mx ex], (Prim2SF y) as [sy|sy| |sy my ey];
    simpl in E; congruence.
Qed.

End FloatFacts.

(** ** The beat detector *)

Section BeatDetector.

Local Open Scope float_scope.

Lemma Math_max_nan (a b : float) :
  is_nan (Math_max a b) = false -> is_nan a = false /\ is_nan b = false.
Proof.
  unfold Math_max. destruct (is_nan a), (is_nan b); simpl; intros H;
    try (split; reflexivity); discriminate H.
Qed.

Lemma Math_max_ge_r (a b : float) :
  is_nan (Math_max a b) = false -> le b (Math_max a b) = true.
Proof.
  intros H. destruct (Math_max_nan _ _ H) as [Ha Hb]. clear H.
  unfold le, Math_max. rewrite Ha, Hb. simpl.
  destruct (a <? b) eqn:Hab; [ apply leb_refl; exact Hb | ].
  destruct (b <? a) eqn:Hba; [ apply ltb_false_leb; assumption | ].
  destruct (get_sign a); [ apply leb_refl; exact Hb | apply ltb_false_leb; assumption ].
Qed.

Lemma Math_max_ge_l (a b : float) :
  is_nan (Math_max a b) = false -> le a (Math_max a b) = true.
Proof.
  intros H. destruct (Math_max_nan _ _ H) as [Ha Hb]. clear H.
  unfold le, Math_max. rewrite Ha, Hb. simpl.
  destruct (a <? b) eqn:Hab; [ apply ltb_false_leb; try assumption | ].
  - destruct (b <? a) eqn:Hba; [ | reflexivity ].
    rewrite FloatAxioms.ltb_spec in Hab, Hba. unfold SFltb in Hab, Hba.
    rewrite (SFcompare_antisym (Prim2SF a) (Prim2SF b)) in Hba.
    destruct (SFcompare (Prim2SF a) (Prim2SF b)) as [[]|]; simpl in *; congruence.
  - destruct (b <? a) eqn:Hba; [ apply leb_refl; exact Ha | ].
    destruct (get_sign a); [ apply ltb_false_leb; assumption | apply leb_refl; exact Ha ].
Qed.

(** The values the constructor gives the detector. *)
Lemma create_beat_config (rate : float) :
  beatThreshold (create rate) = 1.3
  /\ beatDecayRate (create rate) = 0.98
  /\ beatMinInterval (create rate) = 200%Z
  /\ lastBeatTime (create rate) = 0%Z
  /\ currentBeat (create rate) = 0.
Proof. repeat split. Qed.

(** [detectBeat] leaves the configuration as it is. *)
Lemma detectBeat_config (e : AudioEngine.t) (a : float) (now : Z) :
  beatThreshold (fst (detectBeat e a now)) = beatThreshold e
  /\ beatDecayRate (fst (detectBeat e a now)) = beatDecayRate e
  /\ beatMinInterval (fst (detectBeat e a now)) = beatMinInterval e.
Proof. unfold detectBeat. destruct (beatFires e a now); repeat split. Qed.

(** What one call of [detectBeat] does. *)
Lemma detectBeat_effect (e : AudioEngine.t) (a : float) (now : Z) :
  let fired := snd (detectBeat e a now) in
  let e' := fst (detectBeat e a now) in
  (fired = true <->
     (now - lastBeatTime e > beatMinInterval e)%Z
     /\ gt a (currentBeat e * beatThreshold e) = true)
  /\ lastBeatTime e' = (if fired then now else lastBeatTime e)
  /\ currentBeat e' =
       Math_max ((if fired then a else currentBeat e) * beatDecayRate e) (a * 0.5).
Proof.
  unfold detectBeat. simpl. split; [ | destruct (beatFires e a now); split; reflexivity ].
  unfold beatFires. rewrite andb_true_iff, Z.ltb_lt. split; intros [H1 H2]; split;
    try assumption; lia.
Qed.

(** C2, as the code has it: a call reports a beat exactly when MORE than
    [beatMinInterval] milliseconds have passed since the last beat and the
    average exceeds [currentBeat * beatThreshold]; a beat sets the level to
    the average and the last beat time to now; and in every call the level
    (the new one after a beat) is then multiplied by [beatDecayRate] and
    floored at half the average with [Math.max]. *)
Theorem detectBeat_spec (e : AudioEngine.t) (a : float) (now : Z) :
  let fired := snd (detectBeat e a now) in
  let e' := fst (detectBeat e a now) in
  (fired = true <->
     (now - lastBeatTime e > beatMinInterval e)%Z
     /\ gt a (currentBeat e * beatThreshold e) = true)
  /\ lastBeatTime e' = (if fired then now else lastBeatTime e)
  /\ currentBeat e' =
       Math_max ((if fired then a else currentBeat e) * beatDecayRate e) (a * 0.5).
Proof.
  unfold detectBeat. simpl. split; [ | destruct (beatFires e a now); split; reflexivity ].
  unfold beatFires. rewrite andb_true_iff, Z.ltb_lt. split; intros [H1 H2]; split;
    try assumption; lia.
Qed.

(** C2, counterexample to "at least 200 ms": exactly 200 ms after a beat,
    with an average of 0.8 above 0.49 * 1.3, no beat is reported. *)
Lemma detectBeat_at_min_interval :
  snd (detectBeat (create 44100) 0.5 1700000000000) = true
  /\ (1700000000200 - lastBeatTime afterBeat >= beatMinInterval afterBeat)%Z
  /\ gt 0.8 (currentBeat afterBeat * beatThreshold afterBeat) = true
  /\ snd (detectBeat afterBeat 0.8 1700000000200) = false.
Proof. vm_compute. repeat split; congruence. Qed.

End BeatDetector.

(** ** Runs of the beat detector on a constant average *)

Section BeatRuns.

Local Open Scope Z_scope.

Lemma detectBeat_shift (e : AudioEngine.t) (a : float) (now k : Z) :
  detectBeat (shiftTime e k) a (now + k)
  = (shiftTime (fst (detectBeat e a now)) k, snd (detectBeat e a now)).
Proof.
  unfold detectBeat, beatFires, shiftTime. simpl.
  replace (now + k - (lastBeatTime e + k)) with (now - lastBeatTime e) by lia.
  destruct (_ && _); reflexivity.
Qed.

Lemma calls_shift (n : nat) : forall (e : AudioEngine.t) (a : float) (now tick k : Z),
  calls (shiftTime e k) a (now + k) tick n = shiftTime (calls e a now tick n) k.
Proof.
  induction n as [|n IH]; intros e a now tick k; cbn [calls]; [ reflexivity | ].
  rewrite detectBeat_shift. cbn [fst].
  replace (now + k + tick) with (now + tick + k) by lia. apply IH.
Qed.

Lemma calls_add (n : nat) : forall (m : nat) (e : AudioEngine.t) (a : float) (now tick : Z),
  calls e a now tick (n + m)
  = calls (calls e a now tick n) a (now + tick * Z.of_nat n) tick m.
Proof.
  induction n as [|n IH]; intros m e a now tick.
  - simpl. f_equal. lia.
  - cbn [calls Nat.add]. rewrite IH. f_equal. lia.
Qed.

Lemma shiftTime_shiftTime (e : AudioEngine.t) (j k : Z) :
  shiftTime (shiftTime e j) k = shiftTime e (j + k).
Proof. unfold shiftTime. simpl. f_equal. lia. Qed.

(** Thirteen calls at 16 ms after a beat on the average 0.5 bring the
    engine back to where it was, 208 ms later. *)
Lemma calls_period :
  calls afterBeat 0.5 1700000000016 16 13 = shiftTime afterBeat 208.
Proof. vm_compute. reflexivity. Qed.

Lemma calls_periods (q : nat) :
  calls afterBeat 0.5 1700000000016 16 (13 * q)
  = shiftTime afterBeat (208 * Z.of_nat q).
Proof.
  induction q as [|q IH].
  - simpl. unfold shiftTime. unfold afterBeat. vm_compute. reflexivity.
  - replace (13 * S q)%nat with (13 * q + 13)%nat by lia.
    rewrite calls_add, IH.
    replace (1700000000016 + 16 * Z.of_nat (13 * q))
      with (1700000000016 + 208 * Z.of_nat q) by lia.
    rewrite calls_shift, calls_period, shiftTime_shiftTime. f_equal. lia.
Qed.

(** C3, counterexample to the convergence: on the constant average 0.5,
    called every 16 ms from the constructor's state, the level is 0.49
    after every call number 13 q + 1, so it is never within 0.005 of 0.5
    from some call on. *)
Lemma runningLevel_does_not_converge :
  ~ (exists N : nat, forall n : nat, (N <= n)%nat ->
       near (currentBeat (calls (create 44100) 0.5 1700000000000 16 n)) 0.5 0.005
       = true).
Proof.
  intros [N H]. specialize (H (S (13 * N)) ltac:(lia)).
  cbn [calls] in H. fold afterBeat in H.
  replace (1700000000000 + 16) with 1700000000016 in H by reflexivity.
  rewrite calls_periods in H. vm_compute in H. discriminate H.
Qed.

Lemma beatTimes_after (inputs : list (float * Z)) : forall (e : AudioEngine.t) (t : Z),
  0 <= beatMinInterval e ->
  In t (beatTimes e inputs) -> t - lastBeatTime e > beatMinInterval e.
Proof.
  induction inputs as [|[a now] rest IH]; intros e t Hmin Hin; [ destruct Hin | ].
  cbn [beatTimes] in Hin.
  destruct (detectBeat_effect e a now) as (Hfire & Hlast & _).
  destruct (detectBeat_config e a now) as (_ & _ & Hcfg).
  destruct (snd (detectBeat e a now)) eqn:Hs.
  - destruct Hfire as [Hfire _]. destruct (Hfire eq_refl) as [Hgap _].
    destruct Hin as [<-|Hin]; [ exact Hgap | ].
    apply IH in Hin; [ | rewrite Hcfg; exact Hmin ].
    rewrite Hcfg, Hlast in Hin. lia.
  - apply IH in Hin; [ | rewrite Hcfg; exact Hmin ].
    rewrite Hcfg, Hlast in Hin. exact Hin.
Qed.

Lemma beatTimes_separated (inputs : list (float * Z)) :
  forall (e : AudioEngine.t) (i j : nat) (ti tj : Z),
  0 <= beatMinInterval e ->
  (i < j)%nat ->
  beatTimes e inputs !! i = Some ti -> beatTimes e inputs !! j = Some tj ->
  tj - ti > beatMinInterval e.
Proof.
  induction inputs as [|[a now] rest IH]; intros e i j ti tj Hmin Hij Hi Hj;
    [ discriminate Hi | ].
  cbn [beatTimes] in Hi, Hj.
  destruct (detectBeat_effect e a now) as (_ & Hlast & _).
  destruct (detectBeat_config e a now) as (_ & _ & Hcfg).
  assert (Hmin' : 0 <= beatMinInterval (fst (detectBeat e a now)))
    by (rewrite Hcfg; exact Hmin).
  destruct (snd (detectBeat e a now)) eqn:Hs.
  - destruct i as [|i], j as [|j]; try lia.
    + cbn [lookup list_lookup] in Hi, Hj. injection Hi as <-.
      apply list_elem_of_lookup_2, list_elem_of_In in Hj.
      apply beatTimes_after in Hj; [ | exact Hmin' ].
      rewrite Hcfg, Hlast in Hj. exact Hj.
    + cbn [lookup list_lookup] in Hi, Hj. rewrite <- Hcfg.
      apply (IH _ i j); try assumption; lia.
  - rewrite <- Hcfg. apply (IH _ i j); assumption.
Qed.

(** C3, as the code has it: whatever the averages and the times of the
    calls, after a call the level is at least half the call's average
    (when it is a number), and two calls that both report a beat are more
    than [beatMinInterval] milliseconds apart. *)
Theorem detectBeat_floor_and_separation (e : AudioEngine.t) :
  (forall (a : float) (now : Z),
     is_nan (currentBeat (fst (detectBeat e a now))) = false ->
     le (a * 0.5)%float (currentBeat (fst (detectBeat e a now))) = true)
  /\ (forall (inputs : list (float * Z)) (i j : nat) (ti tj : Z),
        0 <= beatMinInterval e ->
        (i < j)%nat ->
        beatTimes e inputs !! i = Some ti -> beatTimes e inputs !! j = Some tj ->
        tj - ti > beatMinInterval e).
Proof.
  split.
  - intros a now H. destruct (detectBeat_effect e a now) as (_ & _ & Hlevel).
    rewrite Hlevel in *. apply Math_max_ge_r. exact H.
  - intros inputs. apply beatTimes_separated.
Qed.

End BeatRuns.

(** ** Band energies *)

Section BandEnergy.

Import Enumeration.
Local Open Scope float_scope.

Lemma all_bits_spec (n : nat) : forall (acc : int) (f : int -> bool),
  ((to_Z acc + 1) * 2 ^ Z.of_nat n <= wB)%Z ->
  all_bits n acc f = true ->
  forall i : int,
    (to_Z acc * 2 ^ Z.of_nat n <= to_Z i < (to_Z acc + 1) * 2 ^ Z.of_nat n)%Z ->
    f i = true.
Proof.
  induction n as [|n IH]; intros acc f Hb Hall i Hi.
  - simpl in *. replace i with acc; [ exact Hall | ].
    apply to_Z_inj. lia.
  - cbn [all_bits] in Hall. apply andb_true_iff in Hall as [H0 H1].
    rewrite Nat2Z.inj_succ, Z.pow_succ_r in Hb, Hi by lia.
    pose proof (to_Z_bounded acc) as Hacc.
    assert (Hp : (0 < 2 ^ Z.of_nat n)%Z) by (apply Z.pow_pos_nonneg; lia).
    assert (E0 : to_Z (acc + acc) = (2 * to_Z acc)%Z).
    { rewrite Uint63.add_spec, Z.mod_small; nia. }
    assert (E1 : to_Z (acc + acc + 1) = (2 * to_Z acc + 1)%Z).
    { rewrite Uint63.add_spec, E0, to_Z_1, Z.mod_small; nia. }
    destruct (Z_lt_dec (to_Z i) ((2 * to_Z acc + 1) * 2 ^ Z.of_nat n)) as [Hlt|Hge].
    + apply (IH _ _ ltac:(rewrite E0; nia) H0). rewrite E0. nia.
    + apply (IH _ _ ltac:(rewrite E1; nia) H1). rewrite E1. nia.
Qed.

Lemma check_add_ok : all_bits 16 0 (fun s => all_bits 8 0 (add_exact s)) = true.
Proof. vm_compute. reflexivity. Qed.
Lemma check_sub_ok :
  all_bits 11 0 (fun e => if (e <=? 1024)%uint63 then all_bits 11 0 (sub_exact e) else true)
  = true.
Proof. vm_compute. reflexivity. Qed.
Lemma check_energy_ok :
  all_bits 9 0 (fun k =>
    if width_ok k then all_bits 16 0 (energy_in_unit k) && full_scale k else true) = true.
Proof. vm_compute. reflexivity. Qed.
Lemma check_floor_ok : all_bits 11 0 floor_exact = true.
Proof. vm_compute. reflexivity. Qed.

Lemma Z2F_nonneg (z : Z) : (0 <= z)%Z -> Z2F z = of_uint63 (of_Z z).
Proof. intros H. unfold Z2F. destruct (Z.ltb_spec z 0); [ lia | reflexivity ]. Qed.

Lemma to_Z_of_Z (z : Z) : (0 <= z < wB)%Z -> to_Z (of_Z z) = z.
Proof. intros H. rewrite of_Z_spec. apply Z.mod_small. exact H. Qed.

Lemma wB_value : wB = 9223372036854775808%Z.
Proof. reflexivity. Qed.

Lemma all_bits_below (n : nat) (f : int -> bool) (z : Z) :
  (Z.of_nat n <= 62)%Z ->
  all_bits n 0 f = true -> (0 <= z < 2 ^ Z.of_nat n)%Z -> f (of_Z z) = true.
Proof.
  intros Hn Hall Hz.
  assert (Hp : (2 ^ Z.of_nat n <= 2 ^ 62)%Z) by (apply Z.pow_le_mono_r; lia).
  assert (Hw : (2 ^ 62 < wB)%Z) by (rewrite wB_value; reflexivity).
  apply (all_bits_spec n 0 f); [ rewrite to_Z_0; lia | exact Hall | ].
  rewrite to_Z_0, to_Z_of_Z; lia.
Qed.

Lemma Z2F_add (s b : Z) :
  (0 <= s < 65536)%Z -> (0 <= b < 256)%Z -> Z2F s + Z2F b = Z2F (s + b).
Proof.
  intros Hs Hb. rewrite !Z2F_nonneg by lia.
  pose proof check_add_ok as H.
  apply (all_bits_below 16 _ s) in H; [ | lia | exact Hs ].
  apply (all_bits_below 8 _ b) in H; [ | lia | exact Hb ].
  unfold add_exact in H. apply FloatAxioms.Leibniz.eqb_spec in H. rewrite H.
  f_equal. apply to_Z_inj.
  rewrite Uint63.add_spec, !to_Z_of_Z by (rewrite wB_value; lia).
  apply Z.mod_small. rewrite wB_value. lia.
Qed.

Lemma Z2F_sub (s e : Z) :
  (0 <= s <= e)%Z -> (e <= 1024)%Z -> Z2F e - Z2F s = Z2F (e - s).
Proof.
  intros Hs He. rewrite !Z2F_nonneg by lia.
  pose proof check_sub_ok as H.
  apply (all_bits_below 11 _ e) in H; [ | lia | lia ]. cbv beta in H.
  assert (Hle : (of_Z e <=? 1024)%uint63 = true).
  { apply Uint63.leb_spec. rewrite to_Z_of_Z by (rewrite wB_value; lia).
    change (to_Z 1024) with 1024%Z. exact He. }
  rewrite Hle in H.
  apply (all_bits_below 11 _ s) in H; [ | lia | lia ].
  unfold sub_exact in H.
  assert (Hse : (of_Z s <=? of_Z e)%uint63 = true).
  { apply Uint63.leb_spec. rewrite !to_Z_of_Z by (rewrite wB_value; lia). lia. }
  rewrite Hse in H. apply FloatAxioms.Leibniz.eqb_spec in H. rewrite H.
  f_equal. apply to_Z_inj.
  rewrite Uint63.sub_spec, !to_Z_of_Z by (rewrite wB_value; lia).
  apply Z.mod_small. rewrite wB_value. lia.
Qed.

Lemma floorZ_Z2F (z : Z) : (0 <= z <= 1024)%Z -> floorZ (Z2F z) = Some z.
Proof.
  intros Hz. rewrite Z2F_nonneg by lia.
  pose proof check_floor_ok as H.
  apply (all_bits_below 11 _ z) in H; [ | lia | lia ].
  unfold floor_exact in H. destruct (floorZ (of_uint63 (of_Z z))) as [r|]; [ | discriminate ].
  apply Z.eqb_eq in H. rewrite to_Z_of_Z in H by (rewrite wB_value; lia). congruence.
Qed.

Lemma energy_checked (k s : Z) :
  (1 <= k <= 256)%Z -> (0 <= s <= 255 * k)%Z ->
  let v := (Z2F s / Z2F k) / 255 in
  le 0 v && le v 1 = true /\ (s = (255 * k)%Z -> v = 1).
Proof.
  intros Hk Hs. rewrite !Z2F_nonneg by lia.
  pose proof check_energy_ok as H.
  apply (all_bits_below 9 _ k) in H; [ | lia | lia ]. cbv beta in H.
  assert (Ek : to_Z (of_Z k) = k) by (apply to_Z_of_Z; rewrite wB_value; lia).
  assert (Hw : width_ok (of_Z k) = true).
  { unfold width_ok. apply andb_true_iff. split; apply Uint63.leb_spec; rewrite Ek.
    - change (to_Z 1) with 1%Z. lia.
    - change (to_Z 256) with 256%Z. lia. }
  rewrite Hw in H. apply andb_true_iff in H as [Hin Hfull].
  assert (Em : to_Z (255 * of_Z k) = (255 * k)%Z).
  { rewrite Uint63.mul_spec, Ek. change (to_Z 255) with 255%Z.
    apply Z.mod_small. rewrite wB_value. lia. }
  split.
  - apply (all_bits_below 16 _ s) in Hin; [ | lia | lia ].
    unfold energy_in_unit in Hin.
    assert (Hle : (of_Z s <=? 255 * of_Z k)%uint63 = true).
    { apply Uint63.leb_spec. rewrite Em, to_Z_of_Z by (rewrite wB_value; lia). lia. }
    rewrite Hle in Hin. exact Hin.
  - intros ->. unfold full_scale in Hfull. apply FloatAxioms.Leibniz.eqb_spec in Hfull.
    rewrite <- Hfull. do 3 f_equal. apply to_Z_inj. rewrite Em.
    apply to_Z_of_Z. rewrite wB_value. lia.
Qed.

Lemma binsTotal_step (d : list Z) (a n : nat) (b : Z) :
  d !! a = Some b -> binsTotal d a (S n) = (b + binsTotal d (S a) n)%Z.
Proof.
  intros Hb. unfold binsTotal. rewrite (drop_S d b a Hb). reflexivity.
Qed.

Lemma binsTotal_bounds (d : list Z) (n : nat) : forall a : nat,
  Forall isByte d -> (a + n <= length d)%nat ->
  (0 <= binsTotal d a n <= 255 * Z.of_nat n)%Z.
Proof.
  induction n as [|n IH]; intros a Hd Hlen.
  - unfold binsTotal. rewrite take_0. simpl. lia.
  - destruct (lookup_lt_is_Some_2 d a ltac:(lia)) as [b Hb].
    rewrite (binsTotal_step d a n b Hb).
    pose proof (Forall_lookup_1 _ _ _ _ Hd Hb) as Hbyte. unfold isByte in Hbyte.
    specialize (IH (S a) Hd ltac:(lia)). lia.
Qed.

Lemma binsTotal_full (d : list Z) (n : nat) : forall a : nat,
  Forall (eq 255%Z) d -> (a + n <= length d)%nat ->
  binsTotal d a n = (255 * Z.of_nat n)%Z.
Proof.
  induction n as [|n IH]; intros a Hd Hlen.
  - unfold binsTotal. rewrite take_0. reflexivity.
  - destruct (lookup_lt_is_Some_2 d a ltac:(lia)) as [b Hb].
    rewrite (binsTotal_step d a n b Hb).
    pose proof (Forall_lookup_1 _ _ _ _ Hd Hb) as <-.
    rewrite (IH (S a) Hd ltac:(lia)). lia.
Qed.

(** The loop's additions are exact: the sum is the number of the total. *)
Lemma bandSum_fold (d : list Z) (s : Z) (n : nat) : forall (a : nat) (acc : Z),
  Forall isByte d -> (0 <= s)%Z -> (Z.to_nat s + a + n <= length d)%nat ->
  (0 <= acc)%Z -> (acc + 255 * Z.of_nat n < 65536)%Z ->
  fold_left (fun sum i => sum + byteAt d i)
    (map (fun k => (s + Z.of_nat k)%Z) (seq a n)) (Z2F acc)
  = Z2F (acc + binsTotal d (Z.to_nat s + a) n).
Proof.
  induction n as [|n IH]; intros a acc Hd Hs Hlen Hacc Hsum.
  - unfold binsTotal. rewrite take_0. simpl. f_equal. lia.
  - cbn [seq map fold_left].
    destruct (lookup_lt_is_Some_2 d (Z.to_nat s + a) ltac:(lia)) as [b Hb].
    pose proof (Forall_lookup_1 _ _ _ _ Hd Hb) as Hbyte. unfold isByte in Hbyte.
    assert (Hat : byteAt d (s + Z.of_nat a) = Z2F b).
    { unfold byteAt. destruct (Z.ltb_spec (s + Z.of_nat a) 0); [ lia | ].
      replace (Z.to_nat (s + Z.of_nat a)) with (Z.to_nat s + a)%nat by lia.
      rewrite Hb. reflexivity. }
    rewrite Hat, Z2F_add by lia.
    rewrite (IH (S a) (acc + b)%Z Hd Hs) by lia.
    rewrite (binsTotal_step d _ n b Hb).
    replace (Z.to_nat s + S a)%nat with (S (Z.to_nat s + a)) by lia.
    f_equal. lia.
Qed.

Lemma bandSum_exact (d : list Z) (s e : Z) :
  Forall isByte d -> (0 <= s <= e)%Z -> (e <= Z.of_nat (length d))%Z ->
  (e - s <= 256)%Z ->
  bandSum d s e = Z2F (binsTotal d (Z.to_nat s) (Z.to_nat (e - s))).
Proof.
  intros Hd Hs He Hw. unfold bandSum.
  change 0 with (Z2F 0).
  rewrite (bandSum_fold d s (Z.to_nat (e - s)) 0 0 Hd) by lia.
  f_equal. rewrite Nat.add_0_r. lia.
Qed.

Lemma validBins_spec (d : list Z) (startBin endBin : float) :
  validBins d startBin endBin = true ->
  exists s e : Z,
    startBin = Z2F s /\ endBin = Z2F e
    /\ (0 <= s < e)%Z /\ (e <= Z.of_nat (length d))%Z /\ (e <= 1024)%Z
    /\ (e - s <= 256)%Z.
Proof.
  unfold validBins.
  destruct (floorZ startBin) as [s|]; [ | discriminate ].
  destruct (floorZ endBin) as [e|]; [ | discriminate ].
  rewrite !andb_true_iff, !FloatAxioms.Leibniz.eqb_spec.
  intros [[[[[[H1 H2] H3] H4] H5] H6] H7].
  exists s, e. repeat split; try assumption; lia.
Qed.

(** The energy of a band whose bins lie in the spectrum: a number of
    [0, 1], and 1 when every magnitude is 255. *)
Lemma bandEnergy_valid (d : list Z) (nyquist : float) (len : Z) (r : Range) :
  Forall isByte d -> validBand d nyquist len r = true ->
  exists v : float,
    bandEnergy d nyquist len r = Some v
    /\ inUnit v = true
    /\ (Forall (eq 255%Z) d -> v = 1).
Proof.
  intros Hd Hv. unfold validBand in Hv.
  destruct (validBins_spec _ _ _ Hv) as (s & e & Hs & He & Hse & Hlen & H1024 & Hw).
  unfold bandEnergy, bandLoop. rewrite Hs, He, !floorZ_Z2F by lia.
  destruct (Z.leb_spec e s); [ lia | ].
  assert (Hsmall : (Z.abs s <? 2 ^ 53)%Z && (Z.abs e <? 2 ^ 53)%Z = true).
  { apply andb_true_iff. split; apply Z.ltb_lt; lia. }
  rewrite Hsmall, bandSum_exact, Z2F_sub by (try assumption; lia).
  pose proof (binsTotal_bounds d (Z.to_nat (e - s)) (Z.to_nat s) Hd ltac:(lia)) as Hb.
  destruct (energy_checked (e - s) (binsTotal d (Z.to_nat s) (Z.to_nat (e - s))))
    as [Hunit Hfull]; [ lia | lia | ].
  eexists. split; [ reflexivity | ]. split; [ exact Hunit | ].
  intros Hall. apply Hfull.
  rewrite (binsTotal_full d _ _ Hall) by lia. lia.
Qed.

Lemma bandsLoop_valid (d : list Z) (nyquist : float) (len : Z) :
  forall bs : list (BandName * Range),
  Forall isByte d ->
  Forall (fun b => validBand d nyquist len (snd b) = true) bs ->
  exists out : list (BandName * float),
    bandsLoop d nyquist len bs = Some out
    /\ map fst out = map fst bs
    /\ Forall (fun b => inUnit (snd b) = true
                        /\ (Forall (eq 255%Z) d -> snd b = 1)) out.
Proof.
  induction bs as [|[name r] bs IH]; intros Hd Hv.
  - exists []. repeat split. constructor.
  - inversion Hv as [|? ? Hr Hrest]; subst. simpl in Hr.
    destruct (bandEnergy_valid d nyquist len r Hd Hr) as (v & Ev & Hu & Hf).
    destruct (IH Hd Hrest) as (out & Eout & Hnames & Hall).
    exists ((name, v) :: out). cbn [bandsLoop]. rewrite Ev, Eout.
    split; [ reflexivity | ]. split; [ simpl; f_equal; exact Hnames | ].
    constructor; [ split; assumption | exact Hall ].
Qed.

(** The bands in range: when every band of the engine has its bins in
    the spectrum (integers [s < e], [e] within the array and within 1024
    bins, at most 256 bins wide), [extractFrequencyBands] returns one
    energy per band, each in [0, 1], and each 1 when every magnitude is
    255. *)
Theorem extractFrequencyBands_unit (e : AudioEngine.t) (rate : float) (d : list Z) :
  sampleRate e = Some rate ->
  dataArray e = Some d ->
  Forall isByte d ->
  Forall (fun b => validBand d (rate / 2) (bufferLength e) (snd b) = true)
    (frequencyBands e) ->
  exists out : list (BandName * float),
    extractFrequencyBands e = Some out
    /\ map fst out = map fst (frequencyBands e)
    /\ Forall (fun b => inUnit (snd b) = true
                        /\ (Forall (eq 255%Z) d -> snd b = 1)) out.
Proof.
  intros Hrate Hdata Hd Hv. unfold extractFrequencyBands. rewrite Hrate, Hdata.
  apply bandsLoop_valid; assumption.
Qed.

End BandEnergy.

(** ** Feature extraction *)

Section Features.

Local Open Scope float_scope.

Lemma repeat_Forall {A : Type} (P : A -> Prop) (x : A) (n : nat) :
  P x -> Forall P (repeat x n).
Proof.
  intros H. apply List.Forall_forall. intros y Hy.
  apply repeat_spec in Hy. subst. exact H.
Qed.

(** The six bands at 48 kHz on a spectrum of 255s are in range. *)
Lemma extractFrequencyBands_unit_at_48kHz :
  exists out : list (BandName * float),
    extractFrequencyBands (fullScale 48000) = Some out
    /\ map fst out = map fst (frequencyBands (fullScale 48000))
    /\ Forall (fun b => inUnit (snd b) = true
                        /\ (Forall (eq 255%Z) (repeat 255%Z 1024) -> snd b = 1)) out.
Proof.
  apply (extractFrequencyBands_unit (fullScale 48000) 48000 (repeat 255%Z 1024)).
  - reflexivity.
  - reflexivity.
  - apply repeat_Forall. unfold isByte. lia.
  - repeat constructor; vm_compute; reflexivity.
Qed.

(** C4, the failing input: on a 192 kHz context the sub band, 0 to 60 Hz,
    has the bins [0, 0); its energy is 0 / 0, NaN, for the spectrum of
    255s as for any other, neither in [0, 1] nor 1. *)
Theorem sub_band_at_192kHz :
  option_map (fun out => band out sub) (extractFrequencyBands (fullScale 192000))
  = Some nan
  /\ inUnit nan = false
  /\ Leibniz.eqb nan 1 = false.
Proof. vm_compute. repeat split. Qed.

(** On an 8 kHz context the treble band, 4000 to 8000 Hz, has the bins
    [1024, 2048), beyond the 1024 magnitudes: the sum takes [undefined]
    and the energy is NaN. *)
Lemma treble_band_at_8kHz :
  option_map (fun out => band out treble) (extractFrequencyBands (fullScale 8000))
  = Some nan.
Proof. vm_compute. reflexivity. Qed.

(** C9: without an analyser or without the data array [getFrequencyData]
    returns, leaves the engine as it is, and its value has 1024 zero
    magnitudes, average 0, no beat, beat intensity 0 and six band
    energies 0. *)
Theorem getFrequencyData_uninitialized (e : AudioEngine.t) (snapshot : list Z) (now : Z) :
  analyser e = false \/ dataArray e = None ->
  getFrequencyData e snapshot now = Some (e, silence)
  /\ frequencyData silence = repeat 0%Z 1024
  /\ average silence = 0
  /\ beat silence = false
  /\ beatIntensity silence = 0
  /\ map fst (bands silence) = [sub; bass; low; mid; high; treble]
  /\ (forall name : BandName, band (bands silence) name = 0).
Proof.
  intros H. split.
  - unfold getFrequencyData. destruct H as [-> | ->]; [ reflexivity | ].
    destruct (analyser e); reflexivity.
  - repeat split. intros []; reflexivity.
Qed.

(** C9, witness: the engine whose audio context could not be created. *)
Lemma getFrequencyData_uninitialized_witness :
  getFrequencyData createFailed [] 1700000000000 = Some (createFailed, silence)
  /\ frequencyData silence = repeat 0%Z 1024
  /\ average silence = 0
  /\ beat silence = false
  /\ beatIntensity silence = 0
  /\ map fst (bands silence) = [sub; bass; low; mid; high; treble]
  /\ (forall name : BandName, band (bands silence) name = 0).
Proof.
  apply (getFrequencyData_uninitialized createFailed [] 1700000000000).
  left. reflexivity.
Defined.

End Features.

(** ** Loops over the particles *)

Import Visualizer.

Section Loops.

Context {S V : Type} (view : S -> nat -> V) (inv : S -> Prop).

(** A loop whose iterations all keep the view of [j] keeps it. *)
Lemma forEach_frame (body : nat -> S -> option S) (j : nat) (l : list nat) :
  forall s s' : S,
  (forall (i : nat) (s1 s2 : S), In i l -> body i s1 = Some s2 -> view s2 j = view s1 j) ->
  forEach body l s = Some s' -> view s' j = view s j.
Proof.
  induction l as [|i l IH]; intros s s' Hbody Hrun; cbn [forEach] in Hrun.
  - injection Hrun as <-. reflexivity.
  - destruct (body i s) as [s1|] eqn:E; [ | discriminate ].
    rewrite (IH s1 s'); [ | | exact Hrun ].
    + apply (Hbody i); [ left; reflexivity | exact E ].
    + intros k s2 s3 Hk. apply Hbody. right. exact Hk.
Qed.

(** A loop whose iterations return and keep the invariant returns and
    keeps it. *)
Lemma forEach_inv (body : nat -> S -> option S) (l : list nat) :
  forall s : S,
  (forall (i : nat) (s1 : S), In i l -> inv s1 -> exists s2, body i s1 = Some s2 /\ inv s2) ->
  inv s -> exists s', forEach body l s = Some s' /\ inv s'.
Proof.
  induction l as [|i l IH]; intros s Hbody Hs; cbn [forEach].
  - exists s. split; [ reflexivity | exact Hs ].
  - destruct (Hbody i s (or_introl eq_refl) Hs) as (s1 & E & Hs1). rewrite E.
    apply IH; [ | exact Hs1 ].
    intros k s2 Hk. apply Hbody. right. exact Hk.
Qed.

(** A loop whose iteration [i] rewrites the view of [i] and keeps the
    others: after it every index of the loop is rewritten once. *)
Lemma forEach_local (body : nat -> S -> option S) (upd : nat -> V -> V) (n : nat)
  (Hbody : forall (i : nat) (s : S), inv s -> i < n ->
     exists s', body i s = Some s' /\ inv s'
       /\ view s' i = upd i (view s i)
       /\ forall j : nat, j <> i -> view s' j = view s j) :
  forall (l : list nat) (s : S),
  NoDup l -> (forall i : nat, In i l -> i < n) -> inv s ->
  exists s', forEach body l s = Some s' /\ inv s'
    /\ forall j : nat,
         (In j l -> view s' j = upd j (view s j))
         /\ (~ In j l -> view s' j = view s j).
Proof.
  induction l as [|i l IH]; intros s Hnd Hlt Hs; cbn [forEach].
  - exists s. repeat split; [ exact Hs | intros [] ].
  - destruct (Hbody i s Hs (Hlt i (or_introl eq_refl))) as (s1 & E & Hs1 & Hi & Hother).
    rewrite E. apply NoDup_cons in Hnd as [Hnotin Hnd].
    rewrite list_elem_of_In in Hnotin.
    destruct (IH s1 Hnd (fun k Hk => Hlt k (or_intror Hk)) Hs1) as (s' & Es' & Hs' & Hview).
    exists s'. split; [ exact Es' | ]. split; [ exact Hs' | ]. intros j.
    destruct (Hview j) as [Hin Hout]. split.
    + intros [<-|Hj].
      * rewrite Hout by exact Hnotin. exact Hi.
      * rewrite Hin by exact Hj. rewrite Hother; [ reflexivity | ].
        intros ->. contradiction.
    + intros Hj. rewrite Hout by (intros H; apply Hj; right; exact H).
      apply Hother. intros ->. apply Hj. left. reflexivity.
Qed.

End Loops.

(** ** The particle arrays *)

Section ParticleArrays.

Local Open Scope float_scope.

Lemma lookup_insert_same {A : Type} (l : list A) (i : nat) (x : A) :
  <[i := x]> l !! i = option_map (fun _ => x) (l !! i).
Proof.
  destruct (l !! i) eqn:E; simpl.
  - apply list_lookup_insert_eq. apply lookup_lt_Some in E. exact E.
  - apply lookup_ge_None. rewrite length_insert. apply lookup_ge_None in E. exact E.
Qed.

Lemma fieldSize_lookup (p : Particles) (n i : nat) :
  fieldSize p n -> i < n ->
  exists (pos vel : Vector3) (color : HSL) (size : float),
    particleAt p i = (Some pos, Some vel, Some color, Some size).
Proof.
  intros (H1 & H2 & H3 & H4) Hi. unfold particleAt.
  destruct (lookup_lt_is_Some_2 (particlePositions p) i ltac:(lia)) as [pos ->].
  destruct (lookup_lt_is_Some_2 (particleVelocities p) i ltac:(lia)) as [vel ->].
  destruct (lookup_lt_is_Some_2 (particleColors p) i ltac:(lia)) as [c ->].
  destruct (lookup_lt_is_Some_2 (sizes p) i ltac:(lia)) as [sz ->].
  exists pos, vel, c, sz. reflexivity.
Qed.

Lemma moveParticle_size (step : nat -> Vector3 -> Vector3 -> Moved) (i n : nat)
  (p p' : Particles) :
  moveParticle step i p = Some p' -> fieldSize p n -> fieldSize p' n.
Proof.
  unfold moveParticle, fieldSize.
  destruct (particlePositions p !! i); [ | discriminate ].
  destruct (particleVelocities p !! i); [ | discriminate ].
  destruct (particleColors p !! i); [ | discriminate ].
  destruct (step i _ _) as [[[pos' vel'] c] sz]. intros [= <-]. cbn.
  rewrite !length_insert. tauto.
Qed.

Lemma moveParticle_frame (step : nat -> Vector3 -> Vector3 -> Moved) (i j : nat)
  (p p' : Particles) :
  moveParticle step i p = Some p' -> j <> i -> particleAt p' j = particleAt p j.
Proof.
  unfold moveParticle, particleAt.
  destruct (particlePositions p !! i); [ | discriminate ].
  destruct (particleVelocities p !! i); [ | discriminate ].
  destruct (particleColors p !! i); [ | discriminate ].
  destruct (step i _ _) as [[[pos' vel'] c] sz]. intros [= <-] Hne. cbn.
  rewrite !list_lookup_insert_ne by congruence. reflexivity.
Qed.

Lemma moveParticle_at (step : nat -> Vector3 -> Vector3 -> Moved) (i : nat)
  (p p' : Particles) :
  moveParticle step i p = Some p' -> particleAt p' i = movedAt step i (particleAt p i).
Proof.
  unfold moveParticle, particleAt, movedAt.
  destruct (particlePositions p !! i) as [pos|] eqn:E1; [ | discriminate ].
  destruct (particleVelocities p !! i) as [vel|] eqn:E2; [ | discriminate ].
  destruct (particleColors p !! i) as [c0|] eqn:E3; [ | discriminate ].
  destruct (step i pos vel) as [[[pos' vel'] c] sz]. intros [= <-]. cbn.
  rewrite !lookup_insert_same, E1, E2, E3. reflexivity.
Qed.

Lemma moveParticle_returns (step : nat -> Vector3 -> Vector3 -> Moved) (i n : nat)
  (p : Particles) :
  fieldSize p n -> i < n -> exists p', moveParticle step i p = Some p'.
Proof.
  intros Hp Hi. destruct (fieldSize_lookup p n i Hp Hi) as (pos & vel & c & sz & E).
  unfold particleAt in E. injection E as E1 E2 E3 E4.
  unfold moveParticle. rewrite E1, E2, E3.
  destruct (step i pos vel) as [[[pos' vel'] c'] sz']. eexists. reflexivity.
Qed.

(** A loop of [moveParticle] over all the particles of a field of [n]
    particles returns, keeps the number of particles, and moves each
    particle by its own step. *)
Lemma moveParticles_all (step : nat -> Vector3 -> Vector3 -> Moved) (n : nat)
  (p : Particles) :
  fieldSize p n ->
  exists p', forEach (moveParticle step) (seq 0 n) p = Some p'
    /\ fieldSize p' n
    /\ forall j : nat,
         (j < n -> particleAt p' j = movedAt step j (particleAt p j))
         /\ (n <= j -> particleAt p' j = particleAt p j).
Proof.
  intros Hp.
  destruct (forEach_local particleAt (fun q => fieldSize q n) (moveParticle step)
              (movedAt step) n) with (l := seq 0 n) (s := p)
    as (p' & E & Hp' & Hview).
  - intros i q Hq Hi. destruct (moveParticle_returns step i n q Hq Hi) as [q' Eq].
    exists q'. split; [ exact Eq | ]. split; [ exact (moveParticle_size _ _ _ _ _ Eq Hq) | ].
    split; [ exact (moveParticle_at _ _ _ _ Eq) | ].
    intros j Hj. exact (moveParticle_frame _ _ _ _ _ Eq Hj).
  - apply NoDup_seq.
  - intros i Hi. apply in_seq in Hi. lia.
  - exact Hp.
  - exists p'. split; [ exact E | ]. split; [ exact Hp' | ]. intros j.
    destruct (Hview j) as [Hin Hout]. split; intros Hj.
    + apply Hin. apply in_seq. lia.
    + apply Hout. rewrite in_seq. lia.
Qed.

End ParticleArrays.

(** ** A particle at the origin *)

Section Origin.

Local Open Scope float_scope.

Lemma add_nan_l (x : float) : nan + x = nan.
Proof.
  apply Prim2SF_inj. rewrite FloatAxioms.add_spec. change (Prim2SF nan) with S754_nan.
  reflexivity.
Qed.

Lemma add_nan_r (x : float) : x + nan = nan.
Proof.
  apply Prim2SF_inj. rewrite FloatAxioms.add_spec. change (Prim2SF nan) with S754_nan.
  destruct (Prim2SF x); reflexivity.
Qed.

Lemma mul_nan_l (x : float) : nan * x = nan.
Proof.
  apply Prim2SF_inj. rewrite FloatAxioms.mul_spec. change (Prim2SF nan) with S754_nan.
  reflexivity.
Qed.

(** The direction of the generic rule at the origin is 0 / 0. *)
Lemma origin_direction : 0 / Math_sqrt (0 * 0 + 0 * 0 + 0 * 0) = nan.
Proof. reflexivity. Qed.

(** The clamp of the cosmic and pulse rules at the origin: the
    denominator is 1 and the direction 0. *)
Lemma origin_direction_clamped :
  Math_max (Math_sqrt (0 * 0 + 0 * 0 + 0 * 0)) 1 = 1
  /\ Math_max (Math_sqrt (0 * 0 + 0 * 0)) 1 = 1
  /\ 0 / Math_max (Math_sqrt (0 * 0 + 0 * 0 + 0 * 0)) 1 = 0.
Proof. repeat split. Qed.

(** C1, the generic rule: whatever the state, the palette, the audio
    features and the velocity, one iteration of [updateParticles] (the
    rule of the neural mode and of the fallback) takes a particle at the
    origin to a position and a velocity whose components are all NaN. *)
Theorem stepParticles_origin (v : Visualizer.t) (palette : Palette) (average : float)
  (beat : bool) (beatIntensity freqValue : float) (vel : Vector3) :
  fst (fst (fst (stepParticles v palette average beat beatIntensity freqValue origin vel)))
    = nanVector
  /\ snd (fst (fst (stepParticles v palette average beat beatIntensity freqValue origin vel)))
    = nanVector.
Proof.
  unfold stepParticles, origin, addVector, multiplyScalar. cbn [vx vy vz fst snd].
  rewrite origin_direction.
  destruct (beat || pulseEffect v); cbn [vx vy vz];
    rewrite ?mul_nan_l, ?add_nan_r, ?mul_nan_l, ?add_nan_l, ?add_nan_r, ?mul_nan_l;
    split; reflexivity.
Qed.

(** C1, the failing input: 2000 particles at the origin, neural mode, a
    silent frame.  After [updateParticlesNeural] the position and the
    velocity of particle 0 are NaN. *)
Lemma updateParticlesNeural_origin :
  option_map (fun v' => (particlePositions (particles v') !! 0%nat,
                         particleVelocities (particles v') !! 0%nat))
    (updateParticlesNeural (still 2000 origin neural) (repeat 0%Z 1024) 0 false 0)
  = Some (Some nanVector, Some nanVector).
Proof. vm_compute. reflexivity. Qed.

End Origin.

(** ** The minimal rule *)

Section Minimal.

Local Open Scope float_scope.

Lemma placeParticle_frame (v : Visualizer.t) (palette : Palette) (freqValue : float)
  (bar p j : nat) (ps ps' : Particles) :
  placeParticle v palette freqValue bar p ps = Some ps' ->
  j <> (bar * barLength (particleCount v) + p)%nat ->
  particleAt ps' j = particleAt ps j.
Proof.
  unfold placeParticle, particleAt.
  destruct (particleCount v <=? _)%nat; [ intros [= <-]; reflexivity | ].
  destruct (particlePositions ps !! _); [ | discriminate ].
  destruct (particleColors ps !! _); [ | discriminate ].
  intros [= <-] Hne. cbn. rewrite !list_lookup_insert_ne by congruence. reflexivity.
Qed.

Lemma placeParticle_returns (v : Visualizer.t) (palette : Palette) (freqValue : float)
  (bar p : nat) (ps : Particles) :
  fieldSize ps (particleCount v) ->
  exists ps', placeParticle v palette freqValue bar p ps = Some ps'
    /\ fieldSize ps' (particleCount v).
Proof.
  intros Hps. unfold placeParticle.
  destruct (Nat.leb_spec (particleCount v) (bar * barLength (particleCount v) + p))
    as [Hout|Hin]; [ exists ps; split; [ reflexivity | exact Hps ] | ].
  destruct (fieldSize_lookup ps _ _ Hps Hin) as (pos & vel & c & sz & E).
  unfold particleAt in E. injection E as E1 E2 E3 E4. rewrite E1, E3.
  eexists. split; [ reflexivity | ].
  destruct Hps as (H1 & H2 & H3 & H4). unfold fieldSize. cbn.
  rewrite !length_insert. tauto.
Qed.

Lemma placeBar_returns (v : Visualizer.t) (palette : Palette) (frequencyData : list Z)
  (bar : nat) (ps : Particles) :
  fieldSize ps (particleCount v) ->
  exists ps', placeBar v palette frequencyData bar ps = Some ps'
    /\ fieldSize ps' (particleCount v).
Proof.
  intros Hps. unfold placeBar.
  apply (forEach_inv (fun q => fieldSize q (particleCount v))); [ | exact Hps ].
  intros p q _ Hq. apply placeParticle_returns. exact Hq.
Qed.

Lemma placeBar_frame (v : Visualizer.t) (palette : Palette) (frequencyData : list Z)
  (bar j : nat) (ps ps' : Particles) :
  placeBar v palette frequencyData bar ps = Some ps' ->
  (j < bar * barLength (particleCount v)
   \/ (bar + 1) * barLength (particleCount v) <= j)%nat ->
  particleAt ps' j = particleAt ps j.
Proof.
  unfold placeBar. intros Hrun Hj.
  apply (forEach_frame particleAt _ j) with (2 := Hrun).
  intros p q q' Hp Hq. apply in_seq in Hp.
  apply (placeParticle_frame _ _ _ _ _ _ _ _ Hq). lia.
Qed.

(** The minimal rule returns on a well-formed state and keeps the number
    of particles. *)
Lemma updateParticlesMinimal_returns (v : Visualizer.t) (frequencyData : list Z)
  (average : float) (beat : bool) (beatIntensity : float) :
  wellFormed v ->
  exists ps',
    forEach (placeBar v (default cyberpunk (paletteAt (currentPalette v))) frequencyData)
      (seq 0 barCount) (particles v) = Some ps'
    /\ fieldSize ps' (particleCount v)
    /\ updateParticlesMinimal v frequencyData average beat beatIntensity
       = Some (set_particles v ps').
Proof.
  intros [Hsize Hpal].
  destruct (forEach_inv (fun q => fieldSize q (particleCount v))
              (placeBar v (default cyberpunk (paletteAt (currentPalette v))) frequencyData)
              (seq 0 barCount) (particles v)) as (ps' & E & Hps').
  - intros bar q _ Hq. apply placeBar_returns. exact Hq.
  - exact Hsize.
  - exists ps'. split; [ exact E | ]. split; [ exact Hps' | ].
    unfold updateParticlesMinimal.
    destruct (paletteAt (currentPalette v)) as [palette|] eqn:Ep.
    + change (default cyberpunk (Some palette)) with palette in E.
      rewrite E. reflexivity.
    + unfold paletteAt in Ep.
      destruct (Z.eqb_spec (currentPalette v) 0); [ discriminate | ].
      destruct (Z.eqb_spec (currentPalette v) 1); [ discriminate | ].
      destruct (Z.eqb_spec (currentPalette v) 2); [ discriminate | lia ].
Qed.

(** [Math.floor(2000 / 64)] is 31. *)
Lemma barLength_default : barLength 2000 = 31%nat.
Proof. reflexivity. Qed.


End Minimal.

(** ** The frozen field *)

Section Frozen.

Local Open Scope float_scope.

Lemma paletteAt_valid (idx : Z) :
  (0 <= idx <= 2)%Z -> exists palette : Palette, paletteAt idx = Some palette.
Proof.
  intros H. unfold paletteAt.
  destruct (Z.eqb_spec idx 0); [ eexists; reflexivity | ].
  destruct (Z.eqb_spec idx 1); [ eexists; reflexivity | ].
  destruct (Z.eqb_spec idx 2); [ eexists; reflexivity | lia ].
Qed.

Lemma colorParticle_keeps (v : Visualizer.t) (palette : Palette) (frequencyData : list Z)
  (average : float) (i : nat) (p p' : Particles) :
  colorParticle v palette frequencyData average i p = Some p' ->
  (particlePositions p', particleVelocities p')
  = (particlePositions p, particleVelocities p).
Proof.
  unfold colorParticle. destruct (particleColors p !! i); [ | discriminate ].
  intros [= <-]. reflexivity.
Qed.

Lemma colorParticle_local (v : Visualizer.t) (palette : Palette) (frequencyData : list Z)
  (average : float) (n i : nat) (p : Particles) :
  fieldSize p n -> i < n ->
  exists p', colorParticle v palette frequencyData average i p = Some p'
    /\ fieldSize p' n
    /\ (particleColors p' !! i, sizes p' !! i)
       = (Some (frozenColor palette frequencyData average (particleCount v) i),
          Some (frozenSize (pulseEffect v) (pulseIntensity v) frequencyData
                  (particleCount v) i))
    /\ forall j : nat, j <> i ->
         (particleColors p' !! j, sizes p' !! j) = (particleColors p !! j, sizes p !! j).
Proof.
  intros Hp Hi. destruct (fieldSize_lookup p n i Hp Hi) as (pos & vel & c & sz & E).
  unfold particleAt in E. injection E as E1 E2 E3 E4.
  destruct Hp as (H1 & H2 & H3 & H4).
  unfold colorParticle. rewrite E3. eexists. split; [ reflexivity | ]. cbn.
  split; [ unfold fieldSize; cbn; rewrite !length_insert; tauto | ].
  split.
  - rewrite !list_lookup_insert_eq by lia. reflexivity.
  - intros j Hj. rewrite !list_lookup_insert_ne by congruence. reflexivity.
Qed.

(** [updateParticleColors] on a well-formed state: it returns, the
    positions and the velocities are the arrays it was given, and every
    colour and size is computed anew from the frame, the palette and the
    pulse. *)
Lemma updateParticleColors_spec (v : Visualizer.t) (frequencyData : list Z)
  (average : float) :
  wellFormed v ->
  exists (palette : Palette) (ps' : Particles),
    paletteAt (currentPalette v) = Some palette
    /\ updateParticleColors v frequencyData average = Some (set_particles v ps')
    /\ fieldSize ps' (particleCount v)
    /\ particlePositions ps' = particlePositions (particles v)
    /\ particleVelocities ps' = particleVelocities (particles v)
    /\ forall i : nat, i < particleCount v ->
         particleColors ps' !! i
         = Some (frozenColor palette frequencyData average (particleCount v) i)
         /\ sizes ps' !! i
            = Some (frozenSize (pulseEffect v) (pulseIntensity v) frequencyData
                      (particleCount v) i).
Proof.
  intros [Hsize Hpal]. destruct (paletteAt_valid _ Hpal) as [palette Ep].
  destruct (forEach_local (fun p j => (particleColors p !! j, sizes p !! j))
              (fun q => fieldSize q (particleCount v))
              (colorParticle v palette frequencyData average)
              (fun j _ =>
                 (Some (frozenColor palette frequencyData average (particleCount v) j),
                  Some (frozenSize (pulseEffect v) (pulseIntensity v) frequencyData
                          (particleCount v) j)))
              (particleCount v)) with (l := seq 0 (particleCount v)) (s := particles v)
    as (ps' & E & Hps' & Hview).
  - intros i q Hq Hi. apply colorParticle_local; assumption.
  - apply NoDup_seq.
  - intros i Hi. apply in_seq in Hi. lia.
  - exact Hsize.
  - exists palette, ps'. split; [ exact Ep | ].
    split; [ unfold updateParticleColors; rewrite Ep, E; reflexivity | ].
    split; [ exact Hps' | ].
    assert (Hkeep : (particlePositions ps', particleVelocities ps')
                    = (particlePositions (particles v), particleVelocities (particles v))).
    { apply (forEach_frame (fun p (_ : nat) => (particlePositions p, particleVelocities p))
               _ 0%nat) with (2 := E).
      intros i q q' _ Hq. exact (colorParticle_keeps _ _ _ _ _ _ _ Hq). }
    injection Hkeep as Hpos Hvel. split; [ exact Hpos | ]. split; [ exact Hvel | ].
    intros i Hi. destruct (Hview i) as [Hin _].
    specialize (Hin ltac:(apply in_seq; lia)). injection Hin as Hc Hs. split; assumption.
Qed.

End Frozen.

(** ** One tick of [update] *)

Section Ticks.

Variables Math_sin Math_cos : float -> float.
Variable Math_atan2 : float -> float -> float.
Variable Math_random : nat -> float.

Local Open Scope float_scope.

Local Abbreviation updateMode' := (updateMode Math_sin Math_cos Math_atan2 Math_random).
Local Abbreviation updateHead' := (updateHead Math_random).
Local Abbreviation update' := (update Math_sin Math_cos Math_atan2 Math_random).
Local Abbreviation modeStep' := (modeStep Math_sin Math_cos Math_atan2 Math_random).

(** In a mode that loops over the particles, [updateMode] on a
    well-formed state returns a well-formed state with as many particles,
    each moved by the mode's step. *)
Lemma updateMode_moves (v : Visualizer.t) (frequencyData : list Z) (average : float)
  (beat : bool) (beatIntensity : float) :
  wellFormed v -> visualMode v <> minimal ->
  exists (palette : Palette) (v' : Visualizer.t),
    paletteAt (currentPalette v) = Some palette
    /\ updateMode' v frequencyData average beat beatIntensity = Some v'
    /\ wellFormed v'
    /\ particleCount v' = particleCount v
    /\ forall j : nat,
         (j < particleCount v ->
          particleAt (particles v') j
          = movedAt (modeStep' v palette frequencyData average beat beatIntensity) j
              (particleAt (particles v) j))
         /\ (particleCount v <= j ->
             particleAt (particles v') j = particleAt (particles v) j).
Proof.
  intros [Hsize Hpal] Hmode. destruct (paletteAt_valid _ Hpal) as [palette Ep].
  exists palette.
  destruct (moveParticles_all (modeStep' v palette frequencyData average beat beatIntensity)
              (particleCount v) (particles v) Hsize) as (ps' & E & Hps' & Hview).
  unfold modeStep in *.
  unfold updateMode, updateParticlesNeural, updateParticlesCosmic, updateParticlesPulse,
    updateParticlesChaos, updateParticles.
  destruct (visualMode v); try congruence; rewrite Ep, E; cbn [option_map];
    eexists; (split; [ reflexivity | ]); (split; [ reflexivity | ]);
    (split; [ split; assumption | ]); (split; [ reflexivity | exact Hview ]).
Qed.

(** In every mode [updateMode] on a well-formed state returns a
    well-formed state with as many particles. *)
Lemma updateMode_returns (v : Visualizer.t) (frequencyData : list Z) (average : float)
  (beat : bool) (beatIntensity : float) :
  wellFormed v ->
  exists v' : Visualizer.t,
    updateMode' v frequencyData average beat beatIntensity = Some v'
    /\ wellFormed v' /\ particleCount v' = particleCount v.
Proof.
  intros Hwf. destruct (visualMode v) eqn:Hmode;
    try (destruct (updateMode_moves v frequencyData average beat beatIntensity Hwf
                     ltac:(congruence)) as (palette & v' & _ & E & Hwf' & Hn & _);
         exists v'; repeat split; solve [ exact E | apply Hwf' | exact Hn ]).
  destruct (updateParticlesMinimal_returns v frequencyData average beat beatIntensity Hwf)
    as (ps' & _ & Hps' & E).
  exists (set_particles v ps'). unfold updateMode. rewrite Hmode.
  split; [ exact E | ]. split; [ | reflexivity ].
  split; [ exact Hps' | apply Hwf ].
Qed.

Lemma decayPulse_keeps (v : Visualizer.t) :
  particles (decayPulse v) = particles v
  /\ particleCount (decayPulse v) = particleCount v
  /\ currentPalette (decayPulse v) = currentPalette v
  /\ isFrozen (decayPulse v) = isFrozen v
  /\ visualMode (decayPulse v) = visualMode v.
Proof. unfold decayPulse. case_if; repeat split. Qed.

Lemma triggerPulse_keeps (v : Visualizer.t) (intensity : float) :
  particles (triggerPulse v intensity) = particles v
  /\ particleCount (triggerPulse v intensity) = particleCount v
  /\ currentPalette (triggerPulse v intensity) = currentPalette v
  /\ isFrozen (triggerPulse v intensity) = isFrozen v
  /\ visualMode (triggerPulse v intensity) = visualMode v.
Proof. unfold triggerPulse, decayPulse. case_if; repeat split. Qed.

Lemma animationFrame_keeps (v : Visualizer.t) :
  particles (animationFrame v) = particles v
  /\ particleCount (animationFrame v) = particleCount v
  /\ currentPalette (animationFrame v) = currentPalette v
  /\ isFrozen (animationFrame v) = isFrozen v
  /\ visualMode (animationFrame v) = visualMode v.
Proof.
  unfold animationFrame. induction (decayCallbacks v) as [|n IH].
  - repeat split.
  - rewrite Nat.iter_succ. destruct (decayPulse_keeps
                (Nat.iter n decayPulse (set_pulse v (pulseEffect v) (pulseIntensity v) 0)))
      as (H1 & H2 & H3 & H4 & H5).
    destruct IH as (I1 & I2 & I3 & I4 & I5).
    repeat split; congruence.
Qed.

Lemma processGestureCommands_fields (v : Visualizer.t) (c : GestureCommands)
  (beat : bool) (beatIntensity : float) :
  particles (processGestureCommands v c beat beatIntensity) = particles v
  /\ particleCount (processGestureCommands v c beat beatIntensity) = particleCount v
  /\ visualMode (processGestureCommands v c beat beatIntensity) = visualMode v
  /\ isFrozen (processGestureCommands v c beat beatIntensity) = freeze c
  /\ currentPalette (processGestureCommands v c beat beatIntensity) = colorPalette c.
Proof.
  unfold processGestureCommands.
  set (v1 := set_gesture v (freeze c) (currentPalette v)).
  set (v2 := if pulseCommand c && negb (pulseEffect v1) then triggerPulse v1 beatIntensity
             else v1).
  assert (H2 : particles v2 = particles v /\ particleCount v2 = particleCount v
               /\ visualMode v2 = visualMode v /\ isFrozen v2 = freeze c).
  { unfold v2. destruct (pulseCommand c && negb (pulseEffect v1)).
    - destruct (triggerPulse_keeps v1 beatIntensity) as (H1 & H2 & H3 & H4 & H5).
      rewrite H1, H2, H4, H5. repeat split.
    - repeat split. }
  destruct H2 as (P1 & P2 & P3 & P4).
  case_bool_decide as Hpal; [ repeat split; congruence | ].
  cbn. repeat split; assumption.
Qed.

Lemma updateHead_fields (v : Visualizer.t) (a : AudioData) (c : option GestureCommands) :
  particles (updateHead' v a c) = particles v
  /\ particleCount (updateHead' v a c) = particleCount v
  /\ visualMode (updateHead' v a c) = visualMode v
  /\ isFrozen (updateHead' v a c)
     = match c with Some c' => freeze c' | None => isFrozen v end
  /\ currentPalette (updateHead' v a c)
     = match c with Some c' => colorPalette c' | None => currentPalette v end.
Proof.
  unfold updateHead, updateCameraShake. cbn.
  destruct c as [c'|]; [ | repeat split ].
  exact (processGestureCommands_fields
           (set_clock v (time v + 0.01) (band (bands a) bass * 2)
              (band (bands a) mid * 1.5) (band (bands a) treble * 1.2))
           c' (beat a) (beatIntensity a)).
Qed.

Lemma updateHead_wellFormed (v : Visualizer.t) (a : AudioData)
  (c : option GestureCommands) :
  wellFormed v -> (forall c', c = Some c' -> validCommands c') ->
  wellFormed (updateHead' v a c).
Proof.
  intros [Hsize Hpal] Hc.
  destruct (updateHead_fields v a c) as (H1 & H2 & _ & _ & H5).
  unfold wellFormed. rewrite H1, H2, H5. split; [ exact Hsize | ].
  destruct c as [c'|]; [ exact (Hc c' eq_refl) | exact Hpal ].
Qed.

(** The head of [update] leaves the symmetry settings alone, and the
    pulse too when the snapshot carries no pulse command. *)
Lemma processGestureCommands_symmetry (v : Visualizer.t) (c : GestureCommands)
  (beat : bool) (beatIntensity : float) :
  radialSymmetry (processGestureCommands v c beat beatIntensity) = radialSymmetry v
  /\ symmetrySegments (processGestureCommands v c beat beatIntensity) = symmetrySegments v
  /\ (pulseCommand c = false ->
      pulseEffect (processGestureCommands v c beat beatIntensity) = pulseEffect v
      /\ pulseIntensity (processGestureCommands v c beat beatIntensity) = pulseIntensity v).
Proof.
  unfold processGestureCommands.
  set (v1 := set_gesture v (freeze c) (currentPalette v)).
  assert (H : forall v2 : Visualizer.t,
            radialSymmetry v2 = radialSymmetry v -> symmetrySegments v2 = symmetrySegments v ->
            (pulseCommand c = false ->
             pulseEffect v2 = pulseEffect v /\ pulseIntensity v2 = pulseIntensity v) ->
            radialSymmetry (if bool_decide (colorPalette c = currentPalette v2) then v2
                            else set_gesture v2 (isFrozen v2) (colorPalette c))
            = radialSymmetry v
            /\ symmetrySegments (if bool_decide (colorPalette c = currentPalette v2) then v2
                                 else set_gesture v2 (isFrozen v2) (colorPalette c))
               = symmetrySegments v
            /\ (pulseCommand c = false ->
                pulseEffect (if bool_decide (colorPalette c = currentPalette v2) then v2
                             else set_gesture v2 (isFrozen v2) (colorPalette c))
                = pulseEffect v
                /\ pulseIntensity (if bool_decide (colorPalette c = currentPalette v2) then v2
                                   else set_gesture v2 (isFrozen v2) (colorPalette c))
                   = pulseIntensity v)).
  { intros v2 A B C. case_bool_decide; repeat split; solve [ assumption | apply C; assumption ]. }
  apply H.
  - destruct (pulseCommand c && negb (pulseEffect v1)); [ | reflexivity ].
    unfold triggerPulse, decayPulse. case_if; reflexivity.
  - destruct (pulseCommand c && negb (pulseEffect v1)); [ | reflexivity ].
    unfold triggerPulse, decayPulse. case_if; reflexivity.
  - intros ->. cbn [andb]. split; reflexivity.
Qed.

Lemma updateHead_symmetry (v : Visualizer.t) (a : AudioData) (c : option GestureCommands) :
  radialSymmetry (updateHead' v a c) = radialSymmetry v
  /\ symmetrySegments (updateHead' v a c) = symmetrySegments v
  /\ (match c with Some c' => pulseCommand c' = false | None => True end ->
      pulseEffect (updateHead' v a c) = pulseEffect v
      /\ pulseIntensity (updateHead' v a c) = pulseIntensity v).
Proof.
  unfold updateHead, updateCameraShake. cbn.
  destruct c as [c'|]; [ | repeat split ].
  exact (processGestureCommands_symmetry
           (set_clock v (time v + 0.01) (band (bands a) bass * 2)
              (band (bands a) mid * 1.5) (band (bands a) treble * 1.2))
           c' (beat a) (beatIntensity a)).
Qed.

(** [updateParticleColors] does not touch the position attribute. *)
Lemma updateParticleColors_positions (v v' : Visualizer.t) (frequencyData : list Z)
  (average : float) :
  updateParticleColors v frequencyData average = Some v' ->
  positions (particles v') = positions (particles v).
Proof.
  unfold updateParticleColors. destruct (paletteAt (currentPalette v)) as [palette|].
  - destruct (forEach _ _ _) as [ps'|] eqn:E; [ | discriminate ]. intros [= <-].
    cbn [particles set_particles].
    apply (forEach_frame (fun p (_ : nat) => positions p) _ 0%nat) with (2 := E).
    intros i q q' _. unfold colorParticle.
    destruct (particleColors q !! i); [ | discriminate ]. intros [= <-]. reflexivity.
  - case_if; [ discriminate | ]. intros [= <-]. reflexivity.
Qed.

(** [frequencyData[idx] / 255] for an index that is the integer [k] of a
    bin holding the magnitude [m]. *)
Lemma sample_at (frequencyData : list Z) (idx : float) (k : nat) (m : Z) :
  floorZ idx = Some (Z.of_nat k) -> frequencyData !! k = Some m ->
  sample frequencyData idx = Z2F m / 255.
Proof.
  intros Hk Hm. unfold sample, byteAt. rewrite Hk.
  destruct (Z.ltb_spec (Z.of_nat k) 0); [ lia | ]. rewrite Nat2Z.id, Hm. reflexivity.
Qed.

(** A tick of a running visualizer whose gesture snapshot has [freeze]
    set: the rule of the frozen field, then the radial symmetry when it is
    on. *)
Lemma frozen_tick (v : Visualizer.t) (a : AudioData) (c : GestureCommands) :
  isRunning v = true ->
  freeze c = true ->
  fieldSize (particles v) (particleCount v) ->
  validCommands c ->
  exists (v' : Visualizer.t) (palette : Palette),
    update' v (Some a) (Some c) = Some v'
    /\ paletteAt (colorPalette c) = Some palette
    /\ isFrozen v' = true
    /\ particlePositions (particles v') = particlePositions (particles v)
    /\ particleVelocities (particles v') = particleVelocities (particles v)
    /\ positions (particles v')
       = (if radialSymmetry v
          then Symmetry.applyRadialSymmetry Math_sin Math_cos (particleCount v)
                 (symmetrySegments v) (positions (particles v))
          else positions (particles v))
    /\ (pulseCommand c = false ->
        pulseEffect v' = pulseEffect v /\ pulseIntensity v' = pulseIntensity v)
    /\ forall i : nat, i < particleCount v ->
         particleColors (particles v') !! i
         = Some (frozenColor palette (frequencyData a) (average a) (particleCount v) i)
         /\ sizes (particles v') !! i
            = Some (frozenSize (pulseEffect v') (pulseIntensity v') (frequencyData a)
                      (particleCount v) i).
Proof.
  intros Hrun Hfreeze Hsize Hc.
  destruct (updateHead_fields v a (Some c)) as (H1 & H2 & _ & H4 & H5).
  destruct (updateHead_symmetry v a (Some c)) as (S1 & S2 & Hpulse).
  assert (Hwf : wellFormed (updateHead' v a (Some c))).
  { unfold wellFormed. rewrite H1, H2, H5. split; [ exact Hsize | exact Hc ]. }
  destruct (updateParticleColors_spec _ (frequencyData a) (average a) Hwf)
    as (palette & ps' & Ep & E & _ & Hpos & Hvel & Hcs).
  pose proof (updateParticleColors_positions _ _ _ _ E) as Hattr.
  cbn [particles set_particles] in Hattr.
  unfold update. rewrite Hrun. cbn [negb]. rewrite H4, Hfreeze. cbn [negb].
  rewrite E. rewrite H5 in Ep. rewrite H2 in Hcs. rewrite H1 in Hpos, Hvel, Hattr.
  cbn [updateCamera set_camera set_particles radialSymmetry]. rewrite S1.
  destruct (radialSymmetry v); eexists; exists palette;
    (split; [ reflexivity | ]); (split; [ exact Ep | ]);
    cbn [applyRadialSymmetry updateCamera set_camera set_particles particles isFrozen
         particlePositions particleVelocities particleColors positions sizes
         particleCount symmetrySegments pulseEffect pulseIntensity];
    rewrite ?H2, ?S2, ?Hattr, H4;
    repeat (split; [ solve [ assumption | reflexivity ] | ]);
    exact Hcs.
Qed.

(** C5, as the code has it: a tick of a running visualizer whose gesture
    snapshot has [freeze] set returns and stays frozen; the positions and
    the velocities of all the particles are the ones before the tick,
    whatever the visual mode; the position attribute, which is what is
    drawn, is the one before the tick when the radial symmetry is off, and
    with the radial symmetry on it is the result of [applyRadialSymmetry];
    and the colour and the size of every particle are computed anew: for
    particle [i] of [N], with [m] the magnitude of bin [floor(i / N *
    binCount)] and [f = m / 255], the hue is [hueBase + f * hueRange -
    average * 0.2], the saturation [saturation + f * 0.1] and the lightness
    [0.4 + f * 0.4] of the palette the snapshot names, and the size is [1
    + f * 3] plus twice the intensity of a pulse in progress.  A snapshot
    without a pulse command leaves the pulse as it is. *)
Theorem update_frozen (v : Visualizer.t) (a : AudioData) (c : GestureCommands) :
  isRunning v = true ->
  freeze c = true ->
  fieldSize (particles v) (particleCount v) ->
  validCommands c ->
  exists (v' : Visualizer.t) (palette : Palette),
    update' v (Some a) (Some c) = Some v'
    /\ [ cyberpunk; sunset; ocean ] !! Z.to_nat (colorPalette c) = Some palette
    /\ isFrozen v' = true
    /\ particlePositions (particles v') = particlePositions (particles v)
    /\ particleVelocities (particles v') = particleVelocities (particles v)
    /\ positions (particles v')
       = (if radialSymmetry v
          then Symmetry.applyRadialSymmetry Math_sin Math_cos (particleCount v)
                 (symmetrySegments v) (positions (particles v))
          else positions (particles v))
    /\ (pulseCommand c = false ->
        pulseEffect v' = pulseEffect v /\ pulseIntensity v' = pulseIntensity v)
    /\ forall (i k : nat) (m : Z), i < particleCount v ->
         floorZ (Math_floor (Z2F (Z.of_nat i) / Z2F (Z.of_nat (particleCount v))
                             * Z2F (Z.of_nat (length (frequencyData a)))))
         = Some (Z.of_nat k) ->
         frequencyData a !! k = Some m ->
         particleColors (particles v') !! i
         = Some {| hue := hueBase palette + Z2F m / 255 * hueRange palette
                          - average a * 0.2;
                   saturation := paletteSaturation palette + Z2F m / 255 * 0.1;
                   lightness := 0.4 + Z2F m / 255 * 0.4 |}
         /\ sizes (particles v') !! i
            = Some (Math_fround
                      (1 + Z2F m / 255 * 3
                       + (if pulseEffect v' then pulseIntensity v' * 2 else 0))).
Proof.
  intros Hrun Hfreeze Hsize Hc.
  destruct (frozen_tick v a c Hrun Hfreeze Hsize Hc)
    as (v' & palette & E & Ep & Hf & Hpos & Hvel & Hattr & Hpulse & Hcs).
  exists v', palette. split; [ exact E | ]. split.
  { unfold paletteAt in Ep. unfold validCommands in Hc.
    destruct (Z.eqb_spec (colorPalette c) 0) as [->|]; [ exact Ep | ].
    destruct (Z.eqb_spec (colorPalette c) 1) as [->|]; [ exact Ep | ].
    destruct (Z.eqb_spec (colorPalette c) 2) as [->|]; [ exact Ep | lia ]. }
  repeat (split; [ assumption | ]).
  intros i k m Hi Hk Hm. destruct (Hcs i Hi) as [-> ->].
  unfold frozenColor, frozenSize, freqValueOf, binIndex.
  rewrite (sample_at _ _ k m Hk Hm). split; reflexivity.
Qed.

(** The end of [update], the camera and the radial symmetry, keeps the
    four particle arrays, the particle count and the palette. *)
Lemma updateTail_wellFormed (v : Visualizer.t) (audioIntensity : float) :
  wellFormed v ->
  let v6 := updateCamera Math_sin Math_cos v audioIntensity in
  wellFormed (if radialSymmetry v6 then applyRadialSymmetry Math_sin Math_cos v6 else v6)
  /\ particleCount (if radialSymmetry v6 then applyRadialSymmetry Math_sin Math_cos v6
                    else v6)
     = particleCount v.
Proof.
  intros [Hsize Hpal] v6. destruct (radialSymmetry v6);
    (split; [ split; [ exact Hsize | exact Hpal ] | reflexivity ]).
Qed.

(** A tick on a well-formed state returns a well-formed state with as
    many particles. *)
Lemma update_returns (v : Visualizer.t) (a : option AudioData)
  (c : option GestureCommands) :
  wellFormed v -> (forall c', c = Some c' -> validCommands c') ->
  exists v' : Visualizer.t,
    update' v a c = Some v' /\ wellFormed v' /\ particleCount v' = particleCount v.
Proof.
  intros Hwf Hc. unfold update.
  destruct a as [a|]; [ | exists v; repeat split; apply Hwf ].
  destruct (isRunning v); cbn [negb]; [ | exists v; repeat split; apply Hwf ].
  pose proof (updateHead_wellFormed v a c Hwf Hc) as Hwf4.
  destruct (updateHead_fields v a c) as (_ & H2 & _).
  destruct (isFrozen (updateHead' v a c)); cbn [negb].
  - destruct (updateParticleColors_spec _ (frequencyData a) (average a) Hwf4)
      as (palette & ps' & _ & E & Hps' & _).
    rewrite E. eexists. split; [ reflexivity | ].
    assert (Hwf5 : wellFormed (set_particles (updateHead' v a c) ps'))
      by (split; [ exact Hps' | apply Hwf4 ]).
    destruct (updateTail_wellFormed _ (average a) Hwf5) as [Hw Hn].
    split; [ exact Hw | ]. rewrite Hn. exact H2.
  - destruct (updateMode_returns _ (frequencyData a) (average a) (beat a)
                (beatIntensity a) Hwf4) as (v5 & E & Hwf5 & Hn5).
    rewrite E. eexists. split; [ reflexivity | ].
    destruct (updateTail_wellFormed _ (average a) Hwf5) as [Hw Hn].
    split; [ exact Hw | ]. rewrite Hn. congruence.
Qed.

Local Abbreviation perform' := (perform Math_sin Math_cos Math_atan2 Math_random).
Local Abbreviation run' := (run Math_sin Math_cos Math_atan2 Math_random).

Lemma perform_returns (v : Visualizer.t) (op : Operation) :
  wellFormed v -> validOperation op ->
  exists v' : Visualizer.t,
    perform' v op = Some v' /\ wellFormed v' /\ particleCount v' = particleCount v.
Proof.
  intros Hwf Hop. destruct op as [mode|c beat bi|intensity| | | |a c]; cbn [perform].
  - eexists. split; [ reflexivity | ]. split; [ exact Hwf | reflexivity ].
  - destruct (processGestureCommands_fields v c beat bi) as (H1 & H2 & _ & _ & H5).
    eexists. split; [ reflexivity | ]. unfold wellFormed. rewrite H1, H2, H5.
    split; [ split; [ apply Hwf | exact Hop ] | reflexivity ].
  - destruct (triggerPulse_keeps v intensity) as (H1 & H2 & H3 & _).
    eexists. split; [ reflexivity | ]. unfold wellFormed. rewrite H1, H2, H3.
    split; [ exact Hwf | reflexivity ].
  - destruct (animationFrame_keeps v) as (H1 & H2 & H3 & _).
    eexists. split; [ reflexivity | ]. unfold wellFormed. rewrite H1, H2, H3.
    split; [ exact Hwf | reflexivity ].
  - eexists. split; [ reflexivity | ]. split; [ exact Hwf | reflexivity ].
  - eexists. split; [ reflexivity | ]. split; [ exact Hwf | reflexivity ].
  - apply update_returns; [ exact Hwf | ].
    intros c' ->. exact Hop.
Qed.

(** C7: from a well-formed state (the constructor's), every sequence of
    mode switches, gesture snapshots (freeze, pulse, palette), pulse
    triggers, animation frames and ticks returns, and the state it ends
    in has the particle count and the four particle arrays of the length
    it started with; a mode switch changes the mode and nothing else. *)
Theorem run_particle_count (ops : list Operation) : forall v : Visualizer.t,
  wellFormed v ->
  Forall validOperation ops ->
  exists v' : Visualizer.t,
    run' v ops = Some v'
    /\ particleCount v' = particleCount v
    /\ fieldSize (particles v') (particleCount v)
    /\ forall mode : VisualMode,
         particles (setVisualMode v mode) = particles v
         /\ visualMode (setVisualMode v mode) = mode.
Proof.
  induction ops as [|op ops IH]; intros v Hwf Hops; cbn [run].
  - exists v. repeat split; apply Hwf.
  - inversion Hops as [|? ? Hop Hrest]; subst.
    destruct (perform_returns v op Hwf Hop) as (v1 & E & Hwf1 & Hn1). rewrite E.
    destruct (IH v1 Hwf1 Hrest) as (v' & E' & Hn' & Hsize' & _).
    exists v'. split; [ exact E' | ]. rewrite <- Hn1.
    split; [ exact Hn' | ]. split; [ exact Hsize' | ]. intros mode. split; reflexivity.
Qed.

(** *** The bin a particle reads *)

(** A loop in which the iteration [k0] alone changes a view, by [f], and
    every iteration returns. *)
Lemma forEach_once {S V : Type} (view : S -> V) (inv : S -> Prop)
  (body : nat -> S -> option S) (f : V -> V) (k0 : nat) (l : list nat) :
  NoDup l ->
  (forall (k : nat) (s : S), In k l -> inv s ->
     exists s', body k s = Some s' /\ inv s'
       /\ view s' = (if Nat.eq_dec k k0 then f (view s) else view s)) ->
  forall s : S, inv s ->
  exists s', forEach body l s = Some s' /\ inv s'
    /\ (In k0 l -> view s' = f (view s))
    /\ (~ In k0 l -> view s' = view s).
Proof.
  induction l as [|k l IH]; intros Hnd Hbody s Hs; cbn [forEach].
  - exists s. split; [ reflexivity | ]. split; [ exact Hs | ].
    split; [ intros [] | reflexivity ].
  - apply NoDup_cons in Hnd as [Hk Hnd]. rewrite list_elem_of_In in Hk.
    destruct (Hbody k s (or_introl eq_refl) Hs) as (s1 & E1 & Hs1 & Hv1). rewrite E1.
    destruct (IH Hnd (fun j t Hj => Hbody j t (or_intror Hj)) s1 Hs1)
      as (s' & E' & Hs' & Hin & Hout).
    exists s'. split; [ exact E' | ]. split; [ exact Hs' | ].
    destruct (Nat.eq_dec k k0) as [->|Hne].
    + split; [ | intros H; exfalso; apply H; left; reflexivity ].
      intros _. rewrite (Hout Hk). exact Hv1.
    + split.
      * intros [H|H]; [ contradiction | ]. rewrite (Hin H), Hv1. reflexivity.
      * intros H. rewrite Hout by (intros H'; apply H; right; exact H'). exact Hv1.
Qed.

Lemma placeParticle_at (v : Visualizer.t) (palette : Palette) (freqValue : float)
  (bar p : nat) (ps ps' : Particles) :
  placeParticle v palette freqValue bar p ps = Some ps' ->
  particleAt ps' (bar * barLength (particleCount v) + p)
  = placedAt v palette freqValue bar p
      (particleAt ps (bar * barLength (particleCount v) + p)).
Proof.
  unfold placeParticle, particleAt, placedAt.
  destruct (particleCount v <=? _)%nat eqn:Hle.
  - intros [= <-]. destruct (particlePositions ps !! _); [ | reflexivity ].
    destruct (particleColors ps !! _); reflexivity.
  - destruct (particlePositions ps !! _) as [pos|] eqn:E1; [ | discriminate ].
    destruct (particleColors ps !! _) as [c|] eqn:E3; [ | discriminate ].
    intros [= <-]. cbn. rewrite !lookup_insert_same, E1, E3. reflexivity.
Qed.

(** The bar [i / barLength] alone places particle [i], once, in its
    iteration [i mod barLength]. *)
Lemma placeBar_at (v : Visualizer.t) (palette : Palette) (frequencyData : list Z)
  (bar i : nat) (ps : Particles) :
  (i < barCount * barLength (particleCount v))%nat ->
  fieldSize ps (particleCount v) ->
  exists ps', placeBar v palette frequencyData bar ps = Some ps'
    /\ fieldSize ps' (particleCount v)
    /\ particleAt ps' i
       = (if Nat.eq_dec bar (i / barLength (particleCount v))%nat
          then placedAt v palette
                 (sample frequencyData
                    (binIndex (i / barLength (particleCount v))%nat barCount
                       (length frequencyData)))
                 (i / barLength (particleCount v))%nat (i `mod` barLength (particleCount v))%nat
                 (particleAt ps i)
          else particleAt ps i).
Proof.
  intros Hi Hps. set (L := barLength (particleCount v)) in *.
  assert (HL : L <> 0%nat) by (intros H0; rewrite H0 in Hi; lia).
  pose proof (Nat.div_mod_eq i L) as Hdm.
  pose proof (Nat.mod_upper_bound i L HL) as Hmod.
  destruct (Nat.eq_dec bar (i / L)%nat) as [->|Hbar].
  - unfold placeBar. fold L.
    destruct (forEach_once (fun q => particleAt q i) (fun q => fieldSize q (particleCount v))
                (placeParticle v palette
                   (sample frequencyData (binIndex (i / L)%nat barCount (length frequencyData)))
                   (i / L)%nat)
                (placedAt v palette
                   (sample frequencyData (binIndex (i / L)%nat barCount (length frequencyData)))
                   (i / L)%nat (i `mod` L)%nat)
                (i `mod` L)%nat (seq 0 L) (NoDup_seq 0 L)) with (s := ps)
      as (ps' & E & Hps' & Hin & _); [ | exact Hps | ].
    + intros p q Hp Hq. destruct (placeParticle_returns v palette
                                    (sample frequencyData
                                       (binIndex (i / L)%nat barCount (length frequencyData)))
                                    (i / L)%nat p q Hq) as (q' & Eq & Hq').
      exists q'. split; [ exact Eq | ]. split; [ exact Hq' | ].
      destruct (Nat.eq_dec p (i `mod` L)%nat) as [->|Hp0].
      * pose proof (placeParticle_at _ _ _ _ _ _ _ Eq) as H. fold L in H.
        replace (i / L * L + i mod L)%nat with i in H by lia. exact H.
      * apply (placeParticle_frame _ _ _ _ _ _ _ _ Eq). fold L. lia.
    + exists ps'. split; [ exact E | ]. split; [ exact Hps' | ].
      apply Hin. apply in_seq. lia.
  - destruct (placeBar_returns v palette frequencyData bar ps Hps) as (ps' & E & Hps').
    exists ps'. split; [ exact E | ]. split; [ exact Hps' | ].
    apply (placeBar_frame _ _ _ _ _ _ _ E). fold L.
    destruct (Nat.lt_ge_cases i (bar * L)%nat) as [Hlt|Hge]; [ left; exact Hlt | right ].
    destruct (Nat.lt_ge_cases i ((bar + 1) * L)%nat) as [Hlt|Hge']; [ | exact Hge' ].
    exfalso. apply Hbar. apply (Nat.div_unique i L bar (i - bar * L)%nat); lia.
Qed.

(** What the minimal rule makes of a particle of a bar. *)
Lemma updateParticlesMinimal_at (v : Visualizer.t) (frequencyData : list Z)
  (average : float) (beat : bool) (beatIntensity : float) (i : nat) :
  wellFormed v ->
  (i < barCount * barLength (particleCount v))%nat ->
  exists (palette : Palette) (ps' : Particles),
    paletteAt (currentPalette v) = Some palette
    /\ updateParticlesMinimal v frequencyData average beat beatIntensity
       = Some (set_particles v ps')
    /\ particleAt ps' i
       = placedAt v palette
           (sample frequencyData
              (binIndex (i / barLength (particleCount v))%nat barCount (length frequencyData)))
           (i / barLength (particleCount v))%nat (i `mod` barLength (particleCount v))%nat
           (particleAt (particles v) i).
Proof.
  intros [Hsize Hpal] Hi. destruct (paletteAt_valid _ Hpal) as [palette Ep].
  exists palette. set (L := barLength (particleCount v)) in *.
  assert (HL : L <> 0%nat) by (intros H0; rewrite H0 in Hi; lia).
  destruct (forEach_once (fun q => particleAt q i) (fun q => fieldSize q (particleCount v))
              (placeBar v palette frequencyData)
              (placedAt v palette
                 (sample frequencyData (binIndex (i / L)%nat barCount (length frequencyData)))
                 (i / L)%nat (i `mod` L)%nat)
              (i / L)%nat (seq 0 barCount) (NoDup_seq 0 barCount)) with (s := particles v)
    as (ps' & E & _ & Hin & _); [ | exact Hsize | ].
  - intros bar q _ Hq. destruct (placeBar_at v palette frequencyData bar i q Hi Hq)
      as (q' & Eq & Hq' & Hv).
    exists q'. split; [ exact Eq | ]. split; [ exact Hq' | ]. fold L in Hv.
    destruct (Nat.eq_dec bar (i / L)%nat); exact Hv.
  - exists ps'. split; [ exact Ep | ].
    split; [ unfold updateParticlesMinimal; rewrite Ep, E; reflexivity | ].
    apply Hin. apply in_seq. split; [ lia | ].
    apply Nat.Div0.div_lt_upper_bound. lia.
Qed.

Lemma movedAt_agree (step1 step2 : nat -> Vector3 -> Vector3 -> Moved) (i : nat)
  (a : option Vector3 * option Vector3 * option HSL * option float) :
  (forall pos vel : Vector3, step1 i pos vel = step2 i pos vel) ->
  movedAt step1 i a = movedAt step2 i a.
Proof.
  intros H. unfold movedAt. destruct a as [[[[pos|] [vel|]] [c|]] sz]; try reflexivity.
  rewrite H. reflexivity.
Qed.

Local Abbreviation modeStepOn' := (modeStepOn Math_sin Math_cos Math_atan2 Math_random).

(** C8, as the code has it.  On a well-formed state every rule returns,
    and particle [i] of [N] gets what the rule computes from one
    magnitude [m] of the spectrum, as the frequency value [m / 255]:
    - in the rules that loop over the particles (cosmic, neural, pulse,
      chaos and the fallback) the position, velocity, colour and size are
      the rule's step on the magnitude of bin [floor(i / N * binCount)];
    - in the frozen colour update the colour and the size are computed
      from the magnitude of the same bin;
    - in the minimal rule a particle of a bar gets the place, colour and
      size computed from the magnitude of the bin of its bar, [floor(bar /
      64 * binCount)] with [bar = floor(i / floor(N / 64))]. *)
Theorem particle_reads_one_bin (v : Visualizer.t) (frequencyData : list Z)
  (average : float) (beat : bool) (beatIntensity : float) (i : nat) :
  wellFormed v ->
  (i < particleCount v)%nat ->
  (visualMode v = minimal -> (i < barCount * barLength (particleCount v))%nat) ->
  exists (palette : Palette) (v1 v2 : Visualizer.t),
    paletteAt (currentPalette v) = Some palette
    /\ updateMode' v frequencyData average beat beatIntensity = Some v1
    /\ updateParticleColors v frequencyData average = Some v2
    /\ (forall (k : nat) (m : Z),
          floorZ (Math_floor (Z2F (Z.of_nat i) / Z2F (Z.of_nat (particleCount v))
                              * Z2F (Z.of_nat (length frequencyData))))
          = Some (Z.of_nat k) ->
          frequencyData !! k = Some m ->
          (visualMode v <> minimal ->
           particleAt (particles v1) i
           = movedAt (modeStepOn' v palette average beat beatIntensity (Z2F m / 255)) i
               (particleAt (particles v) i))
          /\ particleColors (particles v2) !! i
             = Some {| hue := hueBase palette + Z2F m / 255 * hueRange palette
                              - average * 0.2;
                       saturation := paletteSaturation palette + Z2F m / 255 * 0.1;
                       lightness := 0.4 + Z2F m / 255 * 0.4 |}
          /\ sizes (particles v2) !! i
             = Some (Math_fround
                       (1 + Z2F m / 255 * 3
                        + (if pulseEffect v then pulseIntensity v * 2 else 0))))
    /\ (forall (k : nat) (m : Z),
          visualMode v = minimal ->
          floorZ (Math_floor (Z2F (Z.of_nat (i / barLength (particleCount v))%nat) / 64
                              * Z2F (Z.of_nat (length frequencyData))))
          = Some (Z.of_nat k) ->
          frequencyData !! k = Some m ->
          particleAt (particles v1) i
          = placedAt v palette (Z2F m / 255) (i / barLength (particleCount v))%nat
              (i `mod` barLength (particleCount v))%nat (particleAt (particles v) i)).
Proof.
  intros Hwf Hi Hbar.
  destruct (updateParticleColors_spec v frequencyData average Hwf)
    as (palette & q2 & Ep & E2 & _ & _ & _ & Hc2).
  exists palette.
  assert (Hfrozen : forall (k : nat) (m : Z),
            floorZ (binIndex i (particleCount v) (length frequencyData)) = Some (Z.of_nat k) ->
            frequencyData !! k = Some m ->
            freqValueOf frequencyData (particleCount v) i = Z2F m / 255).
  { intros k m Hk Hm. unfold freqValueOf. exact (sample_at _ _ k m Hk Hm). }
  destruct (visualMode v) eqn:Hmode.
  1-4, 6:
    destruct (updateMode_moves v frequencyData average beat beatIntensity Hwf
                ltac:(congruence)) as (pal1 & v1 & Ep1 & E1 & _ & _ & Hv1);
    assert (pal1 = palette) as -> by congruence;
    exists v1, (set_particles v q2);
    (split; [ exact Ep | ]); (split; [ exact E1 | ]); (split; [ exact E2 | ]);
    (split; [ | intros k m Hmin; discriminate Hmin ]);
    intros k m Hk Hm; pose proof (Hfrozen k m Hk Hm) as Hf;
    (split; [ intros _; rewrite (proj1 (Hv1 i) Hi); apply movedAt_agree; intros pos vel;
              unfold modeStep, modeStepOn; rewrite Hmode, Hf; reflexivity | ]);
    destruct (Hc2 i Hi) as [Hc Hs]; cbn [particles set_particles]; rewrite Hc, Hs;
    unfold frozenColor, frozenSize; rewrite Hf; split; reflexivity.
  destruct (updateParticlesMinimal_at v frequencyData average beat beatIntensity i Hwf
              (Hbar eq_refl)) as (pal1 & q1 & Ep1 & E1 & Hq1).
  assert (pal1 = palette) as -> by congruence.
  exists (set_particles v q1), (set_particles v q2).
  split; [ exact Ep | ]. split; [ unfold updateMode; rewrite Hmode; exact E1 | ].
  split; [ exact E2 | ]. split.
  - intros k m Hk Hm. pose proof (Hfrozen k m Hk Hm) as Hf.
    split; [ intros H; contradiction | ].
    destruct (Hc2 i Hi) as [Hc Hs]. cbn [particles set_particles]. rewrite Hc, Hs.
    unfold frozenColor, frozenSize. rewrite Hf. split; reflexivity.
  - intros k m _ Hk Hm. cbn [particles set_particles]. rewrite Hq1.
    assert (Hs : sample frequencyData
                   (binIndex (i / barLength (particleCount v))%nat barCount
                      (length frequencyData))
                 = Z2F m / 255)
      by (apply (sample_at _ _ k m); [ exact Hk | exact Hm ]).
    rewrite Hs. reflexivity.
Qed.

End Ticks.

(** ** The pulse *)

Section Pulse.

Local Open Scope float_scope.

Lemma decayed_succ (intensity : float) (k : nat) :
  decayed intensity (S k) = decayed intensity k * 0.85.
Proof. unfold decayed. rewrite Nat.iter_succ. reflexivity. Qed.

Lemma frames_succ (n : nat) (v : Visualizer.t) :
  frames (S n) v = animationFrame (frames n v).
Proof. unfold frames. rewrite Nat.iter_succ. reflexivity. Qed.

Lemma triggerPulse_state (v : Visualizer.t) (intensity : float) :
  decayCallbacks v = 0%nat ->
  triggerPulse v intensity
  = if gt (decayed intensity 1) 0.1 then set_pulse v true (decayed intensity 1) 1
    else set_pulse v false 0 0.
Proof.
  intros H. unfold triggerPulse, decayPulse, decayed. cbn. rewrite H.
  case_if; reflexivity.
Qed.

Lemma animationFrame_state (v : Visualizer.t) (x : float) :
  animationFrame (set_pulse v true x 1)
  = if gt (x * 0.85) 0.1 then set_pulse v true (x * 0.85) 1 else set_pulse v false 0 0.
Proof. unfold animationFrame, decayPulse. cbn. case_if; reflexivity. Qed.

Lemma frames_active (v : Visualizer.t) (intensity : float) (j : nat) :
  decayCallbacks v = 0%nat ->
  (forall k : nat, (1 <= k <= S j)%nat -> gt (decayed intensity k) 0.1 = true) ->
  frames j (triggerPulse v intensity) = set_pulse v true (decayed intensity (S j)) 1.
Proof.
  intros H0. induction j as [|j IH]; intros Hgt.
  - unfold frames. cbn [Nat.iter]. rewrite (triggerPulse_state v intensity H0).
    rewrite (Hgt 1%nat ltac:(lia)). reflexivity.
  - rewrite frames_succ, IH by (intros k Hk; apply Hgt; lia).
    rewrite animationFrame_state, <- decayed_succ.
    rewrite (Hgt (S (S j)) ltac:(lia)). reflexivity.
Qed.

Lemma frames_cleared (v : Visualizer.t) (intensity : float) (m : nat) :
  decayCallbacks v = 0%nat ->
  (forall k : nat, (1 <= k <= m)%nat -> gt (decayed intensity k) 0.1 = true) ->
  gt (decayed intensity (S m)) 0.1 = false ->
  frames m (triggerPulse v intensity) = set_pulse v false 0 0.
Proof.
  intros H0 Hgt Hle. destruct m as [|j].
  - unfold frames. cbn [Nat.iter]. rewrite (triggerPulse_state v intensity H0), Hle.
    reflexivity.
  - rewrite frames_succ, (frames_active v intensity j H0) by (intros k Hk; apply Hgt; lia).
    rewrite animationFrame_state, <- decayed_succ, Hle. reflexivity.
Qed.

(** C6, as the code has it: a pulse triggered with intensity [I] while no
    pulse is decaying starts from [I + 1.5] and takes its first decay in
    the call; [j] frames later the intensity is [(I + 1.5)] multiplied
    [j + 1] times by 0.85, as long as every product is above 0.1; the
    frame whose product is not above 0.1 clears the pulse, with the
    intensity exactly 0 and no callback left; and a gesture snapshot with
    [pulse] set then triggers a pulse at once. *)
Theorem pulse_decays_and_clears (v : Visualizer.t) (intensity : float) (m : nat) :
  decayCallbacks v = 0%nat ->
  (forall k : nat, (1 <= k <= m)%nat -> gt (decayed intensity k) 0.1 = true) ->
  gt (decayed intensity (S m)) 0.1 = false ->
  (forall j : nat, (j < m)%nat ->
     pulseEffect (frames j (triggerPulse v intensity)) = true
     /\ pulseIntensity (frames j (triggerPulse v intensity)) = decayed intensity (S j))
  /\ pulseEffect (frames m (triggerPulse v intensity)) = false
  /\ pulseIntensity (frames m (triggerPulse v intensity)) = 0
  /\ decayCallbacks (frames m (triggerPulse v intensity)) = 0%nat
  /\ forall (c : GestureCommands) (beat : bool) (again : float),
       pulseCommand c = true ->
       pulseEffect (processGestureCommands (frames m (triggerPulse v intensity))
                      c beat again)
       = gt (decayed again 1) 0.1
       /\ pulseIntensity (processGestureCommands (frames m (triggerPulse v intensity))
                            c beat again)
          = if gt (decayed again 1) 0.1 then decayed again 1 else 0.
Proof.
  intros H0 Hgt Hle. split.
  - intros j Hj. rewrite (frames_active v intensity j H0) by (intros k Hk; apply Hgt; lia).
    split; reflexivity.
  - rewrite (frames_cleared v intensity m H0 Hgt Hle).
    split; [ reflexivity | ]. split; [ reflexivity | ]. split; [ reflexivity | ].
    intros c beat again Hc. unfold processGestureCommands. cbn [pulseEffect set_gesture
      set_pulse negb]. rewrite Hc. cbn [andb].
    rewrite triggerPulse_state by reflexivity.
    destruct (gt (decayed again 1) 0.1); case_bool_decide; split; reflexivity.
Qed.

(** C6, witness: the default intensity 1.  The products 2.5 * 0.85^k are
    above 0.1 for k = 1..19 and the twentieth is not: the pulse is cleared
    at the nineteenth frame after the trigger. *)
Lemma pulse_decays_and_clears_witness :
  (forall j : nat, (j < 19)%nat ->
     pulseEffect (frames j (triggerPulse (still 2000 origin cosmic) 1)) = true
     /\ pulseIntensity (frames j (triggerPulse (still 2000 origin cosmic) 1))
        = decayed 1 (S j))
  /\ pulseEffect (frames 19 (triggerPulse (still 2000 origin cosmic) 1)) = false
  /\ pulseIntensity (frames 19 (triggerPulse (still 2000 origin cosmic) 1)) = 0
  /\ decayCallbacks (frames 19 (triggerPulse (still 2000 origin cosmic) 1)) = 0%nat
  /\ forall (c : GestureCommands) (beat : bool) (again : float),
       pulseCommand c = true ->
       pulseEffect (processGestureCommands
                      (frames 19 (triggerPulse (still 2000 origin cosmic) 1)) c beat again)
       = gt (decayed again 1) 0.1
       /\ pulseIntensity (processGestureCommands
                            (frames 19 (triggerPulse (still 2000 origin cosmic) 1))
                            c beat again)
          = if gt (decayed again 1) 0.1 then decayed again 1 else 0.
Proof.
  apply (pulse_decays_and_clears (still 2000 origin cosmic) 1 19).
  - reflexivity.
  - intros k Hk.
    do 20 (destruct k as [|k]; [ first [ lia | vm_compute; reflexivity ] | ]). lia.
  - vm_compute. reflexivity.
Defined.

(** C6, counterexample to the bound: for [I = 1] the spec's bound
    [ceil(log(0.1 / I) / log(0.85))] is 15, since
    0.85^15 <= 0.1 < 0.85^14; the intensity right after the trigger is
    2.125, above [I], and 15 frames after the trigger the pulse is still
    on, with an intensity above 0.1. *)
Lemma pulse_outlasts_bound :
  (10 * 85 ^ 15 <= 100 ^ 15 /\ 100 ^ 14 < 10 * 85 ^ 14)%Z
  /\ pulseIntensity (triggerPulse (still 2000 origin cosmic) 1) = 2.125
  /\ pulseEffect (frames 15 (triggerPulse (still 2000 origin cosmic) 1)) = true
  /\ gt (pulseIntensity (frames 15 (triggerPulse (still 2000 origin cosmic) 1))) 0.1 = true.
Proof.
  split; [ split; [ apply Z.leb_le | apply Z.ltb_lt ]; vm_compute; reflexivity | ].
  vm_compute. repeat split.
Qed.

End Pulse.

(** ** The constructor *)

Section Construction.

Variables Math_sin Math_cos Math_acos : float -> float.
Variable Math_random : nat -> float.

(** The constructor's state holds [count] particles in each array, names
    the first palette, and is neither running nor frozen. *)
Lemma create_wellFormed (count : nat) :
  wellFormed (Visualizer.create Math_sin Math_cos Math_acos Math_random count)
  /\ particleCount (Visualizer.create Math_sin Math_cos Math_acos Math_random count)
     = count
  /\ decayCallbacks (Visualizer.create Math_sin Math_cos Math_acos Math_random count)
     = 0%nat.
Proof.
  split; [ | split; reflexivity ].
  split; [ | cbn; lia ]. unfold fieldSize. cbn.
  rewrite !length_map, !length_seq. tauto.
Qed.

End Construction.

(** ** Examples on 2000 particles *)

Section Examples.

Import Enumeration.
Local Open Scope float_scope.

Lemma check_bar_ok : all_bits 12 0 bar_exact = true.
Proof. vm_compute. reflexivity. Qed.

(** [Math.floor(n / 64)] is the integer quotient, for the particle counts
    below 4096. *)
Lemma barLength_div (n : nat) : (Z.of_nat n < 4096)%Z -> barLength n = (n / 64)%nat.
Proof.
  intros Hn. pose proof check_bar_ok as H.
  apply (all_bits_below 12 _ (Z.of_nat n)) in H; [ | lia | lia ].
  unfold bar_exact in H. unfold barLength, particlesPerBar.
  rewrite Z2F_nonneg by lia. change (Z.of_nat barCount) with 64%Z.
  destruct (floorZ _) as [k|]; [ | discriminate ].
  apply Z.eqb_eq in H. rewrite to_Z_of_Z in H by (rewrite wB_value; lia).
  subst k. rewrite <- (Nat2Z.id (n / 64)). f_equal.
  rewrite Nat2Z.inj_div. reflexivity.
Qed.


Lemma spread_wellFormed (count : nat) (mode : VisualMode) :
  wellFormed (spread count mode).
Proof.
  split; [ | cbn; lia ]. unfold fieldSize. cbn.
  rewrite !repeat_length, length_map, length_seq. tauto.
Qed.

(** C3, witness: a first call on the average 0.5 leaves the level at
    0.49, above 0.25; and in the run of three calls at 0, 200 and 201 ms
    the two beats are 201 ms apart. *)
Lemma detectBeat_floor_and_separation_witness :
  le (0.5 * 0.5) (currentBeat (fst (detectBeat (AudioEngine.create 44100) 0.5
                                      1700000000000))) = true
  /\ (1700000000201 - 1700000000000 > beatMinInterval (AudioEngine.create 44100))%Z.
Proof.
  destruct (detectBeat_floor_and_separation (AudioEngine.create 44100)) as [Hfloor Hsep].
  split.
  - apply Hfloor. vm_compute. reflexivity.
  - apply (Hsep [ (0.5, 1700000000000%Z); (0.8, 1700000000200%Z); (0.8, 1700000000201%Z) ]
             0%nat 1%nat).
    + vm_compute. congruence.
    + lia.
    + vm_compute. reflexivity.
    + vm_compute. reflexivity.
Defined.

Lemma toggleRadialSymmetry_wellFormed (v : Visualizer.t) :
  wellFormed v -> wellFormed (toggleRadialSymmetry v).
Proof. intros H. exact H. Qed.

(** C5, witness: 2000 particles in a row, the radial symmetry on, a
    frame with bin 16 at 255 and an average of 0.3, a snapshot with
    [freeze] set and the second palette.  Particle 32 reads bin 16. *)
Lemma update_frozen_witness :
  exists v' : Visualizer.t,
    update exampleSin exampleCos exampleAtan2 exampleRandom
      (toggleRadialSymmetry (spread 2000 cosmic)) (Some tone) (Some frozenSunset) = Some v'
    /\ isFrozen v' = true
    /\ particlePositions (particles v')
       = particlePositions (particles (toggleRadialSymmetry (spread 2000 cosmic)))
    /\ particleVelocities (particles v')
       = particleVelocities (particles (toggleRadialSymmetry (spread 2000 cosmic)))
    /\ positions (particles v')
       = Symmetry.applyRadialSymmetry exampleSin exampleCos 2000 6
           (positions (particles (toggleRadialSymmetry (spread 2000 cosmic))))
    /\ particleColors (particles v') !! 32%nat
       = Some {| hue := 0.14000000000000001; saturation := 1;
                 lightness := 0.80000000000000004 |}
    /\ sizes (particles v') !! 32%nat = Some 4.
Proof.
  destruct (update_frozen exampleSin exampleCos exampleAtan2 exampleRandom
              (toggleRadialSymmetry (spread 2000 cosmic)) tone frozenSunset)
    as (v' & palette & E & Ep & Hf & Hpos & Hvel & Hattr & Hpulse & Hc).
  - reflexivity.
  - reflexivity.
  - apply (toggleRadialSymmetry_wellFormed _ (spread_wellFormed 2000 cosmic)).
  - (unfold validCommands; cbn; lia).
  - injection Ep as <-. destruct (Hpulse eq_refl) as [Hpe _].
    destruct (Hc 32%nat 16%nat 255%Z) as [Hcol Hsz];
      [ vm_compute; lia | vm_compute; reflexivity | reflexivity | ].
    rewrite Hpe in Hsz. exists v'.
    (split; [ exact E | ]). (split; [ exact Hf | ]). (split; [ exact Hpos | ]).
    (split; [ exact Hvel | ]). (split; [ rewrite Hattr; reflexivity | ]).
    (split; [ rewrite Hcol | rewrite Hsz ]; reflexivity).
Defined.

(** C7, witness: the session above from the constructor's state on 2000
    particles. *)
Lemma run_particle_count_witness :
  exists v' : Visualizer.t,
    run exampleSin exampleCos exampleAtan2 exampleRandom
      (Visualizer.create exampleSin exampleCos exampleAcos exampleRandom 2000) session
    = Some v'
    /\ particleCount v'
       = particleCount (Visualizer.create exampleSin exampleCos exampleAcos exampleRandom 2000)
    /\ fieldSize (particles v')
         (particleCount
            (Visualizer.create exampleSin exampleCos exampleAcos exampleRandom 2000))
    /\ forall mode : VisualMode,
         particles
           (setVisualMode
              (Visualizer.create exampleSin exampleCos exampleAcos exampleRandom 2000) mode)
         = particles (Visualizer.create exampleSin exampleCos exampleAcos exampleRandom 2000)
         /\ visualMode
              (setVisualMode
                 (Visualizer.create exampleSin exampleCos exampleAcos exampleRandom 2000)
                 mode)
            = mode.
Proof.
  apply (run_particle_count exampleSin exampleCos exampleAtan2 exampleRandom session
           (Visualizer.create exampleSin exampleCos exampleAcos exampleRandom 2000)).
  - apply create_wellFormed.
  - unfold session. repeat constructor; cbn; lia.
Defined.

(** C8, witness: 2000 particles in a row and a spectrum with bin 16 at
    255.  Particle 32 reads bin 16 in the cosmic rule and in the frozen
    colour update; in the minimal rule particle 31, the first of bar 1,
    reads bin 16 as well. *)
Lemma particle_reads_one_bin_witness :
  (exists v1 v2 : Visualizer.t,
     updateMode exampleSin exampleCos exampleAtan2 exampleRandom
       (spread 2000 cosmic) tone16 0.3 false 0 = Some v1
     /\ updateParticleColors (spread 2000 cosmic) tone16 0.3 = Some v2
     /\ particleAt (particles v1) 32
        = (Some {| vx := 33.18; vy := 32.18; vz := 31.68 |},
           Some {| vx := 1.0855999999999999; vy := 0.1656; vz := -0.2944 |},
           Some {| hue := 0.56788225099390854; saturation := 1; lightness := 1 |},
           Some 5)
     /\ particleColors (particles v2) !! 32%nat
        = Some {| hue := 0.73999999999999999; saturation := 1.1000000000000001;
                  lightness := 0.80000000000000004 |}
     /\ sizes (particles v2) !! 32%nat = Some 4)
  /\ (exists v1 : Visualizer.t,
        updateMode exampleSin exampleCos exampleAtan2 exampleRandom
          (spread 2000 minimal) tone16 0.3 false 0 = Some v1
        /\ particleAt (particles v1) 31
           = (Some {| vx := -10.850000000000001; vy := 18.850000000000001;
                      vz := 26.350000000000001 |},
              Some {| vx := 0; vy := 0; vz := 0 |},
              Some {| hue := 0.5; saturation := 1; lightness := 1 |},
              Some 7)).
Proof.
  split.
  - destruct (particle_reads_one_bin exampleSin exampleCos exampleAtan2 exampleRandom
                (spread 2000 cosmic) tone16 0.3 false 0 32
                (spread_wellFormed 2000 cosmic))
      as (palette & v1 & v2 & Ep & E1 & E2 & Hloop & _);
      [ vm_compute; lia | intros H; discriminate H | ].
    injection Ep as <-.
    destruct (Hloop 16%nat 255%Z) as (Hmv & Hcol & Hsz);
      [ vm_compute; reflexivity | reflexivity | ].
    exists v1, v2. (split; [ exact E1 | ]). (split; [ exact E2 | ]).
    rewrite Hmv by discriminate. rewrite Hcol, Hsz. vm_compute. repeat split.
  - destruct (particle_reads_one_bin exampleSin exampleCos exampleAtan2 exampleRandom
                (spread 2000 minimal) tone16 0.3 false 0 31
                (spread_wellFormed 2000 minimal))
      as (palette & v1 & v2 & Ep & E1 & _ & _ & Hbar);
      [ vm_compute; lia | intros _; vm_compute; lia | ].
    injection Ep as <-.
    exists v1. (split; [ exact E1 | ]).
    rewrite (Hbar 16%nat 255%Z eq_refl) by (vm_compute; reflexivity).
    vm_compute. reflexivity.
Defined.

(** C8, counterexample: in the minimal mode particle 31 of 2000 is the
    first particle of bar 1 and reads bin 16, not bin
    [floor(31 / 2000 * 1024) = 15]: the two example spectra agree on bin
    15 and give the particle the sizes 3 and 7. *)
Lemma minimal_reads_bar_bin :
  floorZ (binIndex 31 2000 1024) = Some 15%Z
  /\ quiet !! 15%nat = tone16 !! 15%nat
  /\ option_map (fun v' => sizes (particles v') !! 31%nat)
       (updateParticlesMinimal (still 2000 origin minimal) quiet 0 false 0)
     = Some (Some 3)
  /\ option_map (fun v' => sizes (particles v') !! 31%nat)
       (updateParticlesMinimal (still 2000 origin minimal) tone16 0 false 0)
     = Some (Some 7).
Proof. vm_compute. repeat split. Qed.


End Examples.

(** ** The beat detector on silence and on NaN *)

Section BeatEdges.

Local Open Scope float_scope.

(** Rounding keeps the sign it is given. *)
Lemma binary_round_aux_sign (sx : bool) (mx ex : Z) (lx : SpecFloat.location) :
  match binary_round_aux prec emax sx mx ex lx with
  | S754_zero s | S754_infinity s | S754_finite s _ _ => s = sx
  | S754_nan => True
  end.
Proof.
  unfold binary_round_aux.
  destruct (shr_fexp prec emax mx ex lx) as [mrs' e'].
  destruct (shr_fexp prec emax _ e' loc_Exact) as [mrs'' e''].
  destruct (shr_m mrs''); [ reflexivity | | exact I ].
  destruct (e'' <=? emax - prec)%Z; reflexivity.
Qed.

(** A number that is not below zero, times a positive finite number, is
    not below zero. *)
Lemma mul_not_negative (c k : float) (mk : positive) (ek : Z) :
  Prim2SF k = S754_finite false mk ek ->
  (c <? 0) = false -> (c * k <? 0) = false.
Proof.
  intros Hk. rewrite !FloatAxioms.ltb_spec, FloatAxioms.mul_spec, Hk.
  change (Prim2SF 0) with (S754_zero false). unfold SFltb, SF64mul.
  destruct (Prim2SF c) as [s|s| |s m e]; cbn [SFmul SFcompare xorb];
    try destruct s; cbn; try reflexivity; try discriminate.
  intros _.
  pose proof (binary_round_aux_sign false (Z.pos (m * mk)) (e + ek) loc_Exact) as H.
  destruct (binary_round_aux prec emax false (Z.pos (m * mk)) (e + ek) loc_Exact)
    as [s|s| |s m' e']; try subst s; reflexivity.
Qed.

Lemma Math_max_not_negative (x : float) :
  (x <? 0) = false -> (Math_max x 0 <? 0) = false.
Proof.
  intros H. unfold Math_max. destruct (is_nan x || is_nan 0); [ reflexivity | ].
  rewrite H. destruct (0 <? x); [ exact H | ].
  destruct (get_sign x); [ reflexivity | exact H ].
Qed.

Lemma Math_max_nan_r (x y : float) : is_nan y = true -> Math_max x y = nan.
Proof. intros H. unfold Math_max. rewrite H, orb_true_r. reflexivity. Qed.

Lemma Math_max_nan_l (x y : float) : is_nan x = true -> Math_max x y = nan.
Proof. intros H. unfold Math_max. rewrite H. reflexivity. Qed.

Lemma gt_nan_r (a : float) : gt a nan = false.
Proof.
  unfold gt. rewrite FloatAxioms.ltb_spec. change (Prim2SF nan) with S754_nan.
  reflexivity.
Qed.

(** One call on silence, from a level that is not negative. *)
Lemma detectBeat_silence (e : AudioEngine.t) (now : Z) :
  beatThreshold e = 1.3 -> beatDecayRate e = 0.98 -> (currentBeat e <? 0) = false ->
  snd (detectBeat e 0 now) = false
  /\ (currentBeat (fst (detectBeat e 0 now)) <? 0) = false.
Proof.
  intros Ht Hr Hc.
  assert (Hq : beatFires e 0 now = false).
  { unfold beatFires, gt. rewrite Ht.
    rewrite (mul_not_negative (currentBeat e) 1.3 5854679515581645%positive (-52)%Z)
      by (reflexivity || exact Hc).
    apply andb_false_r. }
  unfold detectBeat. rewrite Hq. cbn [fst snd set_beat currentBeat]. rewrite Hr.
  split; [ reflexivity | ]. change (0 * 0.5) with 0.
  apply Math_max_not_negative.
  apply (mul_not_negative (currentBeat e) 0.98 8827055269646172%positive (-53)%Z);
    [ reflexivity | exact Hc ].
Qed.

(** X1: silence never reports a beat.  From a level that is not below
    zero (the constructor's is 0) and with the constructor's threshold and
    decay rate, a run of calls of [detectBeat] whose averages are all 0
    reports no beat, whatever the times of the calls. *)
Theorem silence_never_beats (e : AudioEngine.t) (inputs : list (float * Z)) :
  beatThreshold e = 1.3 -> beatDecayRate e = 0.98 -> (currentBeat e <? 0) = false ->
  Forall (fun input => fst input = 0) inputs ->
  beatTimes e inputs = [].
Proof.
  intros Ht Hr Hc Hin. revert e Ht Hr Hc.
  induction Hin as [|[a now] inputs Ha _ IH]; intros e Ht Hr Hc; [ reflexivity | ].
  cbn [fst] in Ha. subst a. cbn [beatTimes].
  destruct (detectBeat_silence e now Ht Hr Hc) as [Hs Hc'].
  destruct (detectBeat_config e 0 now) as (Ht' & Hr' & _).
  rewrite Hs. apply IH; congruence.
Qed.

(** One call from a level that is NaN. *)
Lemma detectBeat_nan_level (e : AudioEngine.t) (a : float) (now : Z) :
  is_nan (currentBeat e) = true ->
  snd (detectBeat e a now) = false
  /\ is_nan (currentBeat (fst (detectBeat e a now))) = true.
Proof.
  intros Hc. apply is_nan_eq in Hc.
  assert (Hq : beatFires e a now = false).
  { unfold beatFires. rewrite Hc, mul_nan_l, gt_nan_r. apply andb_false_r. }
  unfold detectBeat. rewrite Hq. cbn [fst snd set_beat currentBeat].
  rewrite Hc, mul_nan_l. split; reflexivity.
Qed.

Lemma beatTimes_nan_level (inputs : list (float * Z)) : forall e : AudioEngine.t,
  is_nan (currentBeat e) = true -> beatTimes e inputs = [].
Proof.
  induction inputs as [|[a now] inputs IH]; intros e Hc; [ reflexivity | ].
  cbn [beatTimes]. destruct (detectBeat_nan_level e a now Hc) as [Hs Hc'].
  rewrite Hs. apply IH. exact Hc'.
Qed.

(** X2: one NaN silences the detector for good.  A call of [detectBeat]
    whose average is NaN leaves the level NaN, and no later call reports a
    beat, whatever its average and time: every comparison with the level
    is false and [Math.max] keeps the NaN. *)
Theorem nan_average_silences (e : AudioEngine.t) (a : float) (now : Z)
  (inputs : list (float * Z)) :
  is_nan a = true ->
  is_nan (currentBeat (fst (detectBeat e a now))) = true
  /\ beatTimes (fst (detectBeat e a now)) inputs = [].
Proof.
  intros Ha.
  assert (Hc : is_nan (currentBeat (fst (detectBeat e a now))) = true).
  { apply is_nan_eq in Ha. subst a. unfold detectBeat.
    cbn [fst set_beat currentBeat]. rewrite mul_nan_l.
    rewrite Math_max_nan_r by reflexivity. reflexivity. }
  split; [ exact Hc | apply beatTimes_nan_level; exact Hc ].
Qed.

End BeatEdges.

Lemma silence_never_beats_witness :
  beatTimes (AudioEngine.create 44100%float) [ (0%float, 1000%Z); (0%float, 2000%Z) ] = [].
Proof.
  apply (silence_never_beats (AudioEngine.create 44100%float) [ (0%float, 1000%Z); (0%float, 2000%Z) ]);
    try reflexivity.
  repeat constructor.
Defined.

Lemma nan_average_silences_witness :
  is_nan (currentBeat (fst (detectBeat (AudioEngine.create 44100%float) nan 1000))) = true
  /\ beatTimes (fst (detectBeat (AudioEngine.create 44100%float) nan 1000))
       [ (200%float, 2000%Z); (255%float, 3000%Z) ] = [].
Proof.
  apply (nan_average_silences (AudioEngine.create 44100%float) nan 1000
           [ (200%float, 2000%Z); (255%float, 3000%Z) ]).
  reflexivity.
Defined.

(** ** The lines of the neural rule *)

Section Connections.

Local Open Scope float_scope.

Lemma sampledIndices_spec (count i : nat) :
  In i (sampledIndices count) <-> (i `mod` 5 = 0 /\ i < Nat.min count 200)%nat.
Proof.
  unfold sampledIndices. rewrite <- list_elem_of_In, list_elem_of_filter, list_elem_of_In.
  rewrite in_seq. split; intros [H1 H2]; split; try assumption; lia.
Qed.

Lemma connect_spec (p : Particles) (threshold : float) (i j : nat) (c : Connection) :
  In c (connect p threshold i j) -> lineFrom c = i /\ lineTo c = j.
Proof.
  unfold connect. case_if; [ | intros [] ].
  intros [<-|[]]. split; reflexivity.
Qed.

Lemma connect_length (p : Particles) (threshold : float) (i j : nat) :
  (length (connect p threshold i j) <= 1)%nat.
Proof. unfold connect. case_if; cbn; lia. Qed.

Lemma flat_map_length_le {A B C : Type} (f : A -> list B) (g : A -> list C) (l : list A) :
  (forall x, length (f x) <= length (g x))%nat ->
  (length (flat_map f l) <= length (flat_map g l))%nat.
Proof.
  intros H. induction l as [|x l IH]; [ reflexivity | ].
  cbn [flat_map]. rewrite !length_app. specialize (H x). lia.
Qed.

(** The number of pairs [i < j] of sampled indices, for every bound up
    to 200. *)
Lemma sampled_pairs :
  forallb
    (fun m =>
       length
         (flat_map (fun i => flat_map (fun j => if (i <? j)%nat then [ tt ] else [])
                               (sampledIndices m))
            (sampledIndices m)) <=? 780)%nat
    (seq 0 201) = true.
Proof. vm_compute. reflexivity. Qed.

Lemma sampledIndices_min (count : nat) :
  sampledIndices count = sampledIndices (Nat.min count 200).
Proof. unfold sampledIndices. f_equal. f_equal. lia. Qed.

(** X3: the neural rule draws at most 780 lines a tick, and only among
    the first 200 particles: every line joins two particles [i < j] below
    [Math.min(particleCount, 200)] whose indices are multiples of 5. *)
Theorem connections_sampled (v : Visualizer.t) :
  (length (connections v) <= 780)%nat
  /\ (forall c : Connection, In c (connections v) ->
        (lineFrom c < lineTo c < Nat.min (particleCount v) 200
         /\ lineFrom c `mod` 5 = 0 /\ lineTo c `mod` 5 = 0)%nat).
Proof.
  split.
  - unfold connections. rewrite sampledIndices_min.
    pose proof sampled_pairs as H. rewrite forallb_forall in H.
    specialize (H (Nat.min (particleCount v) 200)).
    etransitivity; [ | apply Nat.leb_le, H, in_seq; lia ].
    apply flat_map_length_le. intros i. apply flat_map_length_le. intros j.
    destruct (i <? j)%nat; [ apply connect_length | reflexivity ].
  - intros c Hc. unfold connections in Hc.
    apply in_flat_map in Hc as (i & Hi & Hc). apply in_flat_map in Hc as (j & Hj & Hc).
    destruct (Nat.ltb_spec i j) as [Hij|]; [ | destruct Hc ].
    apply connect_spec in Hc as [-> ->].
    apply sampledIndices_spec in Hi as [Hi5 Hi]. apply sampledIndices_spec in Hj as [Hj5 Hj].
    repeat split; assumption.
Qed.

End Connections.

(** ** A gesture snapshot with an unknown palette *)

Section UnknownPalette.

Variables Math_sin Math_cos Math_acos : float -> float.
Variable Math_atan2 : float -> float -> float.
Variable Math_random : nat -> float.

Local Open Scope float_scope.

Lemma paletteAt_unknown (idx : Z) : ~ (0 <= idx <= 2)%Z -> paletteAt idx = None.
Proof.
  intros H. unfold paletteAt.
  destruct (Z.eqb_spec idx 0); [ lia | ]. destruct (Z.eqb_spec idx 1); [ lia | ].
  destruct (Z.eqb_spec idx 2); [ lia | reflexivity ].
Qed.

(** X4: a tick with a palette index that names no palette raises.  For a
    running visualizer of 64 to 4095 particles, [update] with audio data
    and a gesture snapshot whose palette index is outside 0..2 does not
    return, in every visual mode and frozen or not: the palette looked up
    is [undefined] and the first particle reads a field of it. *)
Theorem update_unknown_palette (v : Visualizer.t) (a : AudioData) (c : GestureCommands) :
  isRunning v = true ->
  (64 <= particleCount v < 4096)%nat ->
  ~ validCommands c ->
  update Math_sin Math_cos Math_atan2 Math_random v (Some a) (Some c) = None.
Proof.
  intros Hrun Hn Hc. unfold update. rewrite Hrun. cbn [negb].
  destruct (updateHead_fields Math_random v a (Some c)) as (_ & H2 & H3 & _ & H5).
  set (v4 := updateHead Math_random v a (Some c)) in *.
  assert (Hp : paletteAt (currentPalette v4) = None)
    by (rewrite H5; apply paletteAt_unknown; exact Hc).
  assert (H0 : (0 <? particleCount v4)%nat = true) by (apply Nat.ltb_lt; lia).
  assert (Hb : (0 <? barLength (particleCount v4))%nat = true).
  { apply Nat.ltb_lt. rewrite barLength_div by lia.
    apply Nat.div_str_pos. lia. }
  destruct (isFrozen v4); cbn [negb].
  - unfold updateParticleColors. rewrite Hp, H0. reflexivity.
  - unfold updateMode, updateParticlesCosmic, updateParticlesNeural, updateParticlesPulse,
      updateParticlesChaos, updateParticlesMinimal, updateParticles.
    rewrite Hp, H0, Hb. destruct (visualMode v4); reflexivity.
Qed.

End UnknownPalette.

Lemma update_unknown_palette_witness :
  update exampleSin exampleCos exampleAtan2 exampleRandom (still 2000 origin cosmic)
    (Some silence) (Some {| freeze := false; pulseCommand := false; colorPalette := 3 |})
  = None.
Proof.
  apply update_unknown_palette.
  - reflexivity.
  - cbn. lia.
  - unfold validCommands. cbn. lia.
Defined.

(** ** The radial symmetry *)

Section RadialSymmetry.

Import Symmetry.

Variables Math_sin Math_cos : float -> float.

Local Open Scope float_scope.

Lemma store_length (positions : list float) (idx value : float) :
  length (store positions idx value) = length positions.
Proof.
  unfold store. destruct (indexOf _ idx); [ apply length_insert | reflexivity ].
Qed.

Lemma indexOf_integer (len : nat) (idx : float) (k : nat) :
  indexOf len idx = Some k -> integerOf idx = Some (Z.of_nat k).
Proof.
  unfold indexOf, integerOf. destruct (floorZ idx) as [z|]; [ | discriminate ].
  destruct (Z.leb_spec 0 z); cbn [andb]; [ | discriminate ].
  destruct (z <? Z.of_nat len)%Z; cbn [andb]; [ | discriminate ].
  destruct (idx =? Z2F z); [ | discriminate ].
  intros [= <-]. rewrite Z2Nat.id by assumption. reflexivity.
Qed.

Lemma store_frame (positions : list float) (idx value : float) (k : nat) :
  integerOf idx <> Some (Z.of_nat k) ->
  store positions idx value !! k = positions !! k.
Proof.
  intros H. unfold store. destruct (indexOf _ idx) as [j|] eqn:E; [ | reflexivity ].
  apply indexOf_integer in E. apply list_lookup_insert_ne. intros ->. contradiction.
Qed.

Lemma copyParticle_frame (perSegment : float) (segment : nat) (cos sin : float) (i k : nat)
  (positions : list float) :
  Forall (fun idx => integerOf idx <> Some (Z.of_nat k)) (targets perSegment segment i) ->
  length (copyParticle perSegment segment cos sin i positions) = length positions
  /\ copyParticle perSegment segment cos sin i positions !! k = positions !! k.
Proof.
  unfold targets. intros H.
  apply Forall_cons in H as [H0 H]. apply Forall_cons in H as [H1 H].
  apply Forall_cons in H as [H2 _]. unfold copyParticle.
  split; [ rewrite !store_length; reflexivity | ].
  rewrite !store_frame by assumption. reflexivity.
Qed.

Lemma copyFrom_frame (fuel : nat) (perSegment : float) (segment : nat) (cos sin : float)
  (k : nat) : forall (i : nat) (positions : list float),
  (forall j : nat, (i <= j < i + fuel)%nat -> (Z2F (Z.of_nat j) <? perSegment) = true ->
     Forall (fun idx => integerOf idx <> Some (Z.of_nat k)) (targets perSegment segment j)) ->
  length (copyFrom fuel perSegment segment cos sin i positions) = length positions
  /\ copyFrom fuel perSegment segment cos sin i positions !! k = positions !! k.
Proof.
  induction fuel as [|fuel IH]; intros i positions H; cbn [copyFrom].
  - split; reflexivity.
  - destruct (Z2F (Z.of_nat i) <? perSegment) eqn:Ei; [ | split; reflexivity ].
    destruct (copyParticle_frame perSegment segment cos sin i k positions) as [L1 F1];
      [ apply H; [ lia | exact Ei ] | ].
    destruct (IH (S i) (copyParticle perSegment segment cos sin i positions)) as [L2 F2];
      [ intros j Hj; apply H; lia | ].
    split; congruence.
Qed.

Lemma copySegment_frame (particleCount symmetrySegments segment k : nat)
  (positions : list float) :
  let perSegment := Z2F (Z.of_nat particleCount) / Z2F (Z.of_nat symmetrySegments) in
  (forall j : nat, (j <= particleCount)%nat -> (Z2F (Z.of_nat j) <? perSegment) = true ->
     Forall (fun idx => integerOf idx <> Some (Z.of_nat k)) (targets perSegment segment j)) ->
  length (copySegment Math_sin Math_cos particleCount symmetrySegments positions segment)
  = length positions
  /\ copySegment Math_sin Math_cos particleCount symmetrySegments positions segment !! k
     = positions !! k.
Proof.
  intros perSegment H. unfold copySegment. apply copyFrom_frame.
  intros j Hj. apply H. lia.
Qed.

(** An index that is not among the written ones keeps its value. *)
Lemma applyRadialSymmetry_frame (particleCount symmetrySegments : nat)
  (positions : list float) (k : nat) :
  ~ In (Z.of_nat k) (written particleCount symmetrySegments) ->
  length (applyRadialSymmetry Math_sin Math_cos particleCount symmetrySegments positions)
  = length positions
  /\ applyRadialSymmetry Math_sin Math_cos particleCount symmetrySegments positions !! k
     = positions !! k.
Proof.
  unfold applyRadialSymmetry, written. intros Hk.
  revert positions Hk. generalize (seq 1 (symmetrySegments - 1)) as segments.
  induction segments as [|segment segments IH]; intros positions Hk; cbn [fold_left].
  - split; reflexivity.
  - cbn [flat_map] in Hk. rewrite in_app_iff in Hk.
    destruct (IH (copySegment Math_sin Math_cos particleCount symmetrySegments positions
                    segment)) as [L2 F2]; [ tauto | ].
    destruct (copySegment_frame particleCount symmetrySegments segment k positions)
      as [L1 F1]; [ | split; congruence ].
    intros j Hj Ej. apply Forall_forall. intros idx Hidx Hint.
    apply Hk. left. apply in_flat_map. exists j.
    split; [ apply in_seq; lia | ]. rewrite Ej.
    apply list_elem_of_In. apply list_elem_of_omap. exists idx.
    split; [ exact Hidx | exact Hint ].
Qed.

Lemma written_default :
  forallb (fun w => (1000 <=? w)%Z && negb ((1537 <=? w)%Z && (w <? 2000)%Z))
    (written 2000 6) = true.
Proof. vm_compute. reflexivity. Qed.

(** X5: with the 2000 particles and the 6 segments of the constructor,
    [applyRadialSymmetry] keeps the length of the position attribute and
    never stores below index 1000 nor in the indices 1537 to 1999: the
    source third of the first segment is left alone, and for the particles
    from 179 on of the first segment the target index, computed in binary64
    as [(i + 2000 / 6 * 1) * 3], is not an integer, so that the store is
    ignored. *)
Theorem applyRadialSymmetry_default (positions : list float) (k : nat) :
  length (applyRadialSymmetry Math_sin Math_cos 2000 6 positions) = length positions
  /\ ((k < 1000 \/ 1537 <= k < 2000)%nat ->
      applyRadialSymmetry Math_sin Math_cos 2000 6 positions !! k = positions !! k).
Proof.
  assert (Hout : forall k : nat, (k < 1000 \/ 1537 <= k < 2000)%nat ->
                 ~ In (Z.of_nat k) (written 2000 6)).
  { clear k. intros k Hk Hin. pose proof written_default as H. rewrite forallb_forall in H.
    specialize (H _ Hin). apply andb_true_iff in H as [H1 H2].
    apply Z.leb_le in H1. apply negb_true_iff, andb_false_iff in H2.
    destruct H2 as [H2|H2]; [ apply Z.leb_gt in H2 | apply Z.ltb_ge in H2 ]; lia. }
  split.
  - destruct (applyRadialSymmetry_frame 2000 6 positions 0) as [L _]; [ | exact L ].
    apply Hout. left. lia.
  - intros Hk. apply applyRadialSymmetry_frame. apply Hout. exact Hk.
Qed.

(** *** The first copy of the first segment *)

Lemma storesAt_false (perSegment : float) (segment i k : nat) :
  storesAt perSegment segment i (Z.of_nat k) = false ->
  Forall (fun idx => integerOf idx <> Some (Z.of_nat k)) (targets perSegment segment i).
Proof.
  unfold storesAt. intros H. apply Forall_forall. intros idx Hidx Hint.
  apply list_elem_of_In in Hidx.
  assert (Ht : existsb (fun idx => match integerOf idx with
                                   | Some z => (z =? Z.of_nat k)%Z
                                   | None => false
                                   end) (targets perSegment segment i) = true).
  { apply existsb_exists. exists idx. split; [ exact Hidx | ].
    rewrite Hint. apply Z.eqb_refl. }
  congruence.
Qed.

Lemma copyFrom_step (fuel : nat) (perSegment : float) (segment : nat) (cos sin : float)
  (i : nat) (positions : list float) :
  copyFrom (S fuel) perSegment segment cos sin i positions
  = if Z2F (Z.of_nat i) <? perSegment
    then copyFrom fuel perSegment segment cos sin (S i)
           (copyParticle perSegment segment cos sin i positions)
    else positions.
Proof. reflexivity. Qed.

(** The segments that store nowhere at [k] leave the element [k]. *)
Lemma copySegments_frame (particleCount symmetrySegments : nat) (segments : list nat)
  (k : nat) :
  (forall segment j : nat, In segment segments -> (j <= particleCount)%nat ->
     (Z2F (Z.of_nat j)
      <? Z2F (Z.of_nat particleCount) / Z2F (Z.of_nat symmetrySegments)) = true ->
     storesAt (Z2F (Z.of_nat particleCount) / Z2F (Z.of_nat symmetrySegments))
       segment j (Z.of_nat k) = false) ->
  forall positions : list float,
  fold_left (copySegment Math_sin Math_cos particleCount symmetrySegments) segments
    positions !! k
  = positions !! k.
Proof.
  induction segments as [|segment segments IH]; intros H positions; cbn [fold_left].
  - reflexivity.
  - rewrite IH by (intros s j Hs; apply H; right; exact Hs).
    apply (copySegment_frame particleCount symmetrySegments segment k positions).
    intros j Hj Ej. apply storesAt_false. apply H; [ left; reflexivity | exact Hj | exact Ej ].
Qed.

Lemma store_at (positions : list float) (idx value : float) (k : nat) :
  indexOf (length positions) idx = Some k ->
  store positions idx value !! k = Some (Math_fround value).
Proof.
  intros E. unfold store. rewrite E. apply list_lookup_insert_eq.
  unfold indexOf in E. destruct (floorZ idx) as [z|]; [ | discriminate ].
  destruct (Z.leb_spec 0 z); cbn [andb] in E; [ | discriminate ].
  destruct (Z.ltb_spec z (Z.of_nat (length positions))); cbn [andb] in E; [ | discriminate ].
  destruct (idx =? Z2F z)%float; [ | discriminate ]. injection E as <-. lia.
Qed.

Lemma check_first_segment :
  forallb (fun j => negb ((Z2F (Z.of_nat j) <? Z2F (Z.of_nat 2000) / Z2F (Z.of_nat 6))
                          && storesAt (Z2F (Z.of_nat 2000) / Z2F (Z.of_nat 6)) 1 j 1001))
    (seq 1 2000) = true.
Proof. vm_compute. reflexivity. Qed.

Lemma check_later_segments :
  forallb (fun segment =>
    forallb (fun j => negb ((Z2F (Z.of_nat j) <? Z2F (Z.of_nat 2000) / Z2F (Z.of_nat 6))
                            && storesAt (Z2F (Z.of_nat 2000) / Z2F (Z.of_nat 6))
                                 segment j 1001))
      (seq 0 2001))
    [ 2; 3; 4; 5 ]%nat = true.
Proof. vm_compute. reflexivity. Qed.

(** With 2000 particles and 6 segments the element 1001, the second
    coordinate of particle 333, is stored once, by the first iteration of
    the first segment, which copies the second coordinate of particle 0
    there. *)
Lemma applyRadialSymmetry_first_copy (positions : list float) :
  length positions = (3 * 2000)%nat ->
  applyRadialSymmetry Math_sin Math_cos 2000 6 positions !! 1001%nat
  = Some (Math_fround (element positions 1)).
Proof.
  intros HL. unfold applyRadialSymmetry.
  change (seq 1 (6 - 1)) with ([ 1 ] ++ [ 2; 3; 4; 5 ])%nat. rewrite fold_left_app.
  rewrite (copySegments_frame 2000 6 [ 2; 3; 4; 5 ]%nat 1001).
  2:{ intros segment j Hs Hj Ej. pose proof check_later_segments as H.
      rewrite forallb_forall in H. specialize (H segment Hs).
      rewrite forallb_forall in H. specialize (H j ltac:(apply in_seq; lia)).
      rewrite Ej in H. cbn [andb] in H. apply negb_true_iff in H. exact H. }
  cbn [fold_left]. unfold copySegment. rewrite copyFrom_step.
  change (Z2F (Z.of_nat 0) <? Z2F (Z.of_nat 2000) / Z2F (Z.of_nat 6)) with true.
  cbv iota.
  destruct (copyFrom_frame 2000 (Z2F (Z.of_nat 2000) / Z2F (Z.of_nat 6)) 1
              (Math_cos (Math_PI * 2 / Z2F (Z.of_nat 6) * Z2F (Z.of_nat 1)))
              (Math_sin (Math_PI * 2 / Z2F (Z.of_nat 6) * Z2F (Z.of_nat 1)))
              1001 1
              (copyParticle (Z2F (Z.of_nat 2000) / Z2F (Z.of_nat 6)) 1
                 (Math_cos (Math_PI * 2 / Z2F (Z.of_nat 6) * Z2F (Z.of_nat 1)))
                 (Math_sin (Math_PI * 2 / Z2F (Z.of_nat 6) * Z2F (Z.of_nat 1)))
                 0 positions)) as [_ ->].
  { intros j Hj Ej. apply storesAt_false. pose proof check_first_segment as H.
    rewrite forallb_forall in H. specialize (H j ltac:(apply in_seq; lia)).
    rewrite Ej in H. cbn [andb] in H. apply negb_true_iff in H. exact H. }
  unfold copyParticle. cbv zeta.
  rewrite store_frame by (vm_compute; discriminate).
  rewrite (store_at _ _ _ 1001) by (rewrite store_length, HL; vm_compute; reflexivity).
  f_equal. f_equal. unfold element. rewrite store_length, HL.
  change (indexOf (3 * 2000) (Z2F (Z.of_nat 0) * 3 + 1)) with (Some 1%nat).
  change (indexOf (3 * 2000) 1) with (Some 1%nat). cbv beta iota.
  rewrite store_frame by (vm_compute; discriminate). reflexivity.
Qed.

End RadialSymmetry.

Lemma applyRadialSymmetry_default_witness :
  length (Symmetry.applyRadialSymmetry exampleSin exampleCos 2000 6 (repeat 1%float (3 * 2000)))
  = length (repeat 1%float (3 * 2000))
  /\ ((1600 < 1000 \/ 1537 <= 1600 < 2000)%nat ->
      Symmetry.applyRadialSymmetry exampleSin exampleCos 2000 6 (repeat 1%float (3 * 2000))
        !! 1600%nat
      = repeat 1%float (3 * 2000) !! 1600%nat).
Proof.
  apply (applyRadialSymmetry_default exampleSin exampleCos (repeat 1%float (3 * 2000)) 1600).
Defined.

(** C5, counterexample: 2000 particles in a row, the radial symmetry
    switched on, a silent frame and a snapshot with [freeze] set.  The
    second coordinate of particle 333 in the position attribute is 333
    before the tick and 0, the one of particle 0, after it, whatever the
    host's [Math] functions are. *)
Lemma frozen_tick_redraws :
  radialSymmetry (toggleRadialSymmetry (spread 2000 cosmic)) = true
  /\ positions (particles (toggleRadialSymmetry (spread 2000 cosmic))) !! 1001%nat
     = Some 333%float
  /\ forall (Math_sin Math_cos : float -> float) (Math_atan2 : float -> float -> float)
       (Math_random : nat -> float),
       exists v' : Visualizer.t,
         update Math_sin Math_cos Math_atan2 Math_random
           (toggleRadialSymmetry (spread 2000 cosmic)) (Some silence) (Some fist) = Some v'
         /\ isFrozen v' = true
         /\ positions (particles v') !! 1001%nat = Some 0%float.
Proof.
  split; [ reflexivity | ]. split; [ vm_compute; reflexivity | ].
  intros Math_sin Math_cos Math_atan2 Math_random.
  destruct (frozen_tick Math_sin Math_cos Math_atan2 Math_random
              (toggleRadialSymmetry (spread 2000 cosmic)) silence fist)
    as (v' & palette & E & _ & Hf & _ & _ & Hattr & _).
  - reflexivity.
  - reflexivity.
  - apply (toggleRadialSymmetry_wellFormed _ (spread_wellFormed 2000 cosmic)).
  - unfold validCommands. cbn. lia.
  - exists v'. split; [ exact E | ]. split; [ exact Hf | ]. rewrite Hattr.
    change (radialSymmetry (toggleRadialSymmetry (spread 2000 cosmic))) with true.
    cbv iota.
    change (particleCount (toggleRadialSymmetry (spread 2000 cosmic))) with 2000%nat.
    change (symmetrySegments (toggleRadialSymmetry (spread 2000 cosmic))) with 6%nat.
    rewrite applyRadialSymmetry_first_copy by (vm_compute; reflexivity).
    vm_compute. reflexivity.
Qed.

(** ** The gesture controller *)

Section Gestures.

Import GestureController.

Local Open Scope float_scope.

Lemma pushExtensions_length (landmarks : Landmarks) (pairs : list (nat * nat)) :
  forall fingers out : list bool,
  pushExtensions landmarks pairs fingers = Some out ->
  length out = (length fingers + length pairs)%nat.
Proof.
  induction pairs as [|[tipIdx pipIdx] rest IH]; intros fingers out; cbn [pushExtensions].
  - intros [= <-]. cbn. lia.
  - destruct (landmarks !! tipIdx); [ | discriminate ].
    destruct (landmarks !! pipIdx); [ | discriminate ].
    intros E. rewrite (IH _ _ E), length_app. cbn. lia.
Qed.

Lemma pushExtensions_returns (landmarks : Landmarks) (pairs : list (nat * nat)) :
  forall fingers : list bool,
  Forall (fun c => (fst c < length landmarks)%nat /\ (snd c < length landmarks)%nat) pairs ->
  exists out, pushExtensions landmarks pairs fingers = Some out.
Proof.
  induction pairs as [|[tipIdx pipIdx] rest IH]; intros fingers Hall; cbn [pushExtensions].
  - eexists. reflexivity.
  - inversion Hall as [|? ? [Ht Hp] Hrest]; subst. cbn [fst snd] in Ht, Hp.
    destruct (lookup_lt_is_Some_2 landmarks tipIdx Ht) as [tip ->].
    destruct (lookup_lt_is_Some_2 landmarks pipIdx Hp) as [pip ->].
    apply IH. exact Hrest.
Qed.

Lemma pushExtensions_reads (landmarks : Landmarks) (pairs : list (nat * nat)) :
  forall fingers out : list bool,
  pushExtensions landmarks pairs fingers = Some out ->
  Forall (fun c => (fst c < length landmarks)%nat /\ (snd c < length landmarks)%nat) pairs.
Proof.
  induction pairs as [|[tipIdx pipIdx] rest IH]; intros fingers out; cbn [pushExtensions].
  - intros _. constructor.
  - destruct (landmarks !! tipIdx) eqn:Et; [ | discriminate ].
    destruct (landmarks !! pipIdx) eqn:Ep; [ | discriminate ].
    intros E. constructor; [ | exact (IH _ _ E) ].
    split; cbn [fst snd]; eapply lookup_lt_Some; eassumption.
Qed.

Lemma getFingerExtensions_returns (landmarks : Landmarks) :
  is_Some (getFingerExtensions landmarks) <-> (21 <= length landmarks)%nat.
Proof.
  unfold getFingerExtensions. split.
  - intros [out E].
    destruct (landmarks !! 4%nat); [ | discriminate ].
    destruct (landmarks !! 2%nat); [ | discriminate ].
    apply pushExtensions_reads in E. unfold fingerIndices in E.
    repeat (apply Forall_cons in E; destruct E as [? E]). cbn [fst snd] in *. lia.
  - intros Hlen.
    destruct (lookup_lt_is_Some_2 landmarks 4 ltac:(lia)) as [tip ->].
    destruct (lookup_lt_is_Some_2 landmarks 2 ltac:(lia)) as [base ->].
    destruct (pushExtensions_returns landmarks fingerIndices
                [gt (Math_abs (coordinate tip 0 - coordinate base 0)) 30]) as [out ->].
    + unfold fingerIndices. repeat constructor; cbn [fst snd]; lia.
    + eexists. reflexivity.
Qed.

Lemma getFingerExtensions_five (landmarks : Landmarks) (fingers : list bool) :
  getFingerExtensions landmarks = Some fingers ->
  exists thumb index middle ring little : bool,
    fingers = [ thumb; index; middle; ring; little ].
Proof.
  unfold getFingerExtensions.
  destruct (landmarks !! 4%nat); [ | discriminate ].
  destruct (landmarks !! 2%nat); [ | discriminate ].
  intros E. apply pushExtensions_length in E. cbn in E.
  destruct fingers as [|a [|b [|c [|d [|e [|? ?]]]]]]; try discriminate.
  exists a, b, c, d, e. reflexivity.
Qed.

(** X6: [recognizeGesture] returns a gesture exactly for a hand of at
    least 21 landmarks; on a shorter array it raises. *)
Theorem recognizeGesture_returns (landmarks : Landmarks) :
  is_Some (recognizeGesture landmarks) <-> (21 <= length landmarks)%nat.
Proof.
  rewrite <- getFingerExtensions_returns. unfold recognizeGesture.
  destruct (getFingerExtensions landmarks); split; intros [x E];
    try discriminate; eexists; reflexivity.
Qed.

(** X7: the gesture is a function of the five extensions: a fist is no
    finger extended, a palm all five, the peace sign the index and the
    middle finger and no other, and every other hand is unknown. *)
Theorem recognizeGesture_spec (landmarks : Landmarks) (fingers : list bool) :
  getFingerExtensions landmarks = Some fingers ->
  exists g : Gesture,
    recognizeGesture landmarks = Some g
    /\ (g = fist <-> fingers = [ false; false; false; false; false ])
    /\ (g = palm <-> fingers = [ true; true; true; true; true ])
    /\ (g = peace <-> fingers = [ false; true; true; false; false ])
    /\ g <> none.
Proof.
  intros E. unfold recognizeGesture. rewrite E.
  destruct (getFingerExtensions_five _ _ E) as (a & b & c & d & e & ->).
  eexists. split; [ reflexivity | ].
  destruct a, b, c, d, e; vm_compute; repeat split; intros; congruence.
Qed.

Lemma recognizeGesture_spec_witness :
  exists g : Gesture,
    recognizeGesture (handOf false true true false false) = Some g
    /\ (g = fist <-> [ false; true; true; false; false ] = [ false; false; false; false; false ])
    /\ (g = palm <-> [ false; true; true; false; false ] = [ true; true; true; true; true ])
    /\ (g = peace <-> [ false; true; true; false; false ] = [ false; true; true; false; false ])
    /\ g <> none.
Proof.
  apply (recognizeGesture_spec (handOf false true true false false)). reflexivity.
Defined.

(** *** The smoothing window *)

Lemma countOf_increment (counts : list (Gesture * nat)) (g g' : Gesture) :
  countOf (increment g counts) g'
  = if bool_decide (g = g') then S (countOf counts g') else countOf counts g'.
Proof.
  unfold countOf. induction counts as [|[k n] rest IH]; cbn [increment find fst snd].
  - repeat case_bool_decide; subst; cbn; congruence.
  - destruct (bool_decide (k = g)) eqn:Ek; cbn [find fst snd].
    + apply bool_decide_eq_true in Ek. subst k.
      repeat case_bool_decide; subst; cbn; congruence.
    + apply bool_decide_eq_false in Ek.
      destruct (bool_decide (k = g')) eqn:Ek'; [ | exact IH ].
      apply bool_decide_eq_true in Ek'. subst k.
      rewrite bool_decide_eq_false_2 by congruence. reflexivity.
Qed.

Lemma keys_increment (counts : list (Gesture * nat)) (g g' : Gesture) :
  In g' (map fst (increment g counts)) <-> g' = g \/ In g' (map fst counts).
Proof.
  induction counts as [|[k n] rest IH]; cbn [increment map fst In].
  - intuition congruence.
  - case_bool_decide as Ek; cbn [map fst In].
    + subst k. intuition congruence.
    + rewrite IH. tauto.
Qed.

Lemma countOf_fold (history : list Gesture) (g : Gesture) :
  forall counts : list (Gesture * nat),
  countOf (fold_left (fun counts g => increment g counts) history counts) g
  = (countOf counts g + count_occ Gesture_eq_dec history g)%nat.
Proof.
  induction history as [|x history IH]; intros counts; cbn [fold_left count_occ].
  - lia.
  - rewrite IH, countOf_increment.
    destruct (Gesture_eq_dec x g) as [->|Hne].
    + rewrite bool_decide_eq_true_2 by reflexivity. lia.
    + rewrite bool_decide_eq_false_2 by exact Hne. lia.
Qed.

Lemma keys_fold (history : list Gesture) (g : Gesture) :
  forall counts : list (Gesture * nat),
  In g (map fst (fold_left (fun counts g => increment g counts) history counts))
  <-> In g history \/ In g (map fst counts).
Proof.
  induction history as [|x history IH]; intros counts; cbn [fold_left In].
  - tauto.
  - rewrite IH, keys_increment. intuition congruence.
Qed.

Lemma countOf_gestureCounts (history : list Gesture) (g : Gesture) :
  countOf (gestureCounts history) g = count_occ Gesture_eq_dec history g.
Proof. unfold gestureCounts. rewrite countOf_fold. reflexivity. Qed.

Lemma keys_gestureCounts (history : list Gesture) (g : Gesture) :
  In g (map fst (gestureCounts history)) <-> In g history.
Proof. unfold gestureCounts. rewrite keys_fold. cbn. tauto. Qed.

(** The reduction keeps a key of the greatest count. *)
Lemma reduce_greatest (count : Gesture -> nat) (keys : list Gesture) :
  forall first : Gesture,
  let r := fold_left (fun a b => if (count b <? count a)%nat then a else b) keys first in
  In r (first :: keys) /\ forall x : Gesture, In x (first :: keys) -> (count x <= count r)%nat.
Proof.
  induction keys as [|k keys IH]; intros first; cbn [fold_left].
  - split; [ left; reflexivity | ]. intros x [<-|[]]. lia.
  - destruct (IH (if (count k <? count first)%nat then first else k)) as [Hin Hmax].
    split.
    + destruct Hin as [<-|Hin]; [ | right; right; exact Hin ].
      destruct (count k <? count first)%nat; [ left | right; left ]; reflexivity.
    + intros x Hx. destruct (Nat.ltb_spec (count k) (count first)) as [Hlt|Hge];
        destruct Hx as [<-|[<-|Hx]];
        try (apply Hmax; right; exact Hx);
        try (apply Hmax; left; reflexivity).
      * specialize (Hmax first (or_introl eq_refl)). lia.
      * specialize (Hmax k (or_introl eq_refl)). lia.
Qed.

(** On a history that is not empty the reduction returns one of its
    gestures, and no gesture occurs more often. *)
Lemma mostCommon_greatest (history : list Gesture) :
  history <> [] ->
  exists g : Gesture,
    mostCommon (gestureCounts history) = Some g
    /\ In g history
    /\ forall g' : Gesture,
         (count_occ Gesture_eq_dec history g' <= count_occ Gesture_eq_dec history g)%nat.
Proof.
  intros Hne. unfold mostCommon.
  destruct (map fst (gestureCounts history)) as [|first keys] eqn:Ek.
  - destruct history as [|x history]; [ congruence | ].
    assert (H : In x (map fst (gestureCounts (x :: history))))
      by (apply keys_gestureCounts; left; reflexivity).
    rewrite Ek in H. destruct H.
  - destruct (reduce_greatest (countOf (gestureCounts history)) keys first) as [Hin Hmax].
    eexists. split; [ reflexivity | ].
    split; [ apply keys_gestureCounts; rewrite Ek; exact Hin | ].
    intros g'. rewrite <- !countOf_gestureCounts.
    destruct (in_dec Gesture_eq_dec g' history) as [Hg'|Hg'].
    + apply Hmax. rewrite <- Ek. apply keys_gestureCounts. exact Hg'.
    + rewrite (countOf_gestureCounts history g').
      rewrite (proj1 (count_occ_not_In Gesture_eq_dec history g') Hg'). lia.
Qed.

Lemma pushGesture_spec (s : t) (g : Gesture) :
  (0 < gestureHistorySize s)%nat ->
  (length (gestureHistory s) <= gestureHistorySize s)%nat ->
  pushGesture s g
  = drop (length (gestureHistory s) + 1 - gestureHistorySize s) (gestureHistory s ++ [g])
  /\ pushGesture s g <> []
  /\ (length (pushGesture s g) <= gestureHistorySize s)%nat.
Proof.
  intros Hpos Hlen. unfold pushGesture. rewrite length_app. cbn [length].
  destruct (Nat.ltb_spec (gestureHistorySize s) (length (gestureHistory s) + 1)) as [Hfull|Hroom].
  - replace (length (gestureHistory s) + 1 - gestureHistorySize s)%nat with 1%nat by lia.
    destruct (gestureHistory s) as [|x h] eqn:Eh; cbn [length] in *; [ lia | ].
    cbn [app tail drop]. rewrite drop_0. split; [ reflexivity | ].
    split; [ destruct h; discriminate | rewrite length_app; cbn; lia ].
  - replace (length (gestureHistory s) + 1 - gestureHistorySize s)%nat with 0%nat by lia.
    rewrite drop_0. split; [ reflexivity | ].
    split; [ destruct (gestureHistory s); discriminate | rewrite length_app; cbn; lia ].
Qed.

(** [updateGesture] returns; the history is the pushed one, and the
    gesture it compares with the current one is a most frequent gesture
    of that history. *)
Lemma updateGesture_returns (s : t) (g : Gesture) :
  (0 < gestureHistorySize s)%nat ->
  (length (gestureHistory s) <= gestureHistorySize s)%nat ->
  exists (s' : t) (common : Gesture),
    updateGesture s g = Some s'
    /\ mostCommon (gestureCounts (pushGesture s g)) = Some common
    /\ In common (pushGesture s g)
    /\ (forall g' : Gesture,
          (count_occ Gesture_eq_dec (pushGesture s g) g'
           <= count_occ Gesture_eq_dec (pushGesture s g) common)%nat)
    /\ gestureHistory s' = pushGesture s g
    /\ gestureHistorySize s' = gestureHistorySize s
    /\ isRunning s' = isRunning s
    /\ (if bool_decide (common = currentGesture s) || bool_decide (common = unknown)
            || bool_decide (common = none)
        then commands s' = commands s /\ currentGesture s' = currentGesture s
             /\ pulseTimeouts s' = pulseTimeouts s
        else currentGesture s' = common /\ lastGesture s' = currentGesture s
             /\ commands s' = commands (onGestureChange s common)).
Proof.
  intros Hpos Hlen. destruct (pushGesture_spec s g Hpos Hlen) as (_ & Hne & _).
  destruct (mostCommon_greatest _ Hne) as (common & E & Hin & Hmax).
  unfold updateGesture. cbn [gestureHistory set_history currentGesture]. rewrite E.
  assert (Hsame : forall s1 : t, s1 = set_history s (pushGesture s g) ->
            gestureHistory s1 = pushGesture s g
            /\ gestureHistorySize s1 = gestureHistorySize s
            /\ isRunning s1 = isRunning s
            /\ commands s1 = commands s /\ currentGesture s1 = currentGesture s
            /\ pulseTimeouts s1 = pulseTimeouts s)
    by (intros s1 ->; repeat split).
  destruct (bool_decide (common = currentGesture s)) eqn:E1;
    [ | destruct (bool_decide (common = unknown)) eqn:E2;
        [ | destruct (bool_decide (common = none)) eqn:E3 ] ];
    cbn [negb andb orb].
  1, 2, 3: destruct (Hsame _ eq_refl) as (H1 & H2 & H3 & H4 & H5 & H6);
    eexists; exists common; (split; [ reflexivity | ]); (split; [ reflexivity | ]);
    (split; [ exact Hin | ]); (split; [ exact Hmax | ]);
    rewrite ?E1, ?E2, ?E3; cbn [orb]; rewrite ?orb_true_r; repeat split; assumption.
  eexists. exists common. split; [ reflexivity | ]. split; [ reflexivity | ].
  split; [ exact Hin | ]. split; [ exact Hmax | ]. rewrite E1, E2, E3. cbn [orb].
  destruct common; repeat split; reflexivity.
Qed.

Lemma updateGestures_history (gestures : list Gesture) : forall s : t,
  gestureHistorySize s = 5%nat ->
  (length (gestureHistory s) <= 5)%nat ->
  exists s' : t,
    updateGestures s gestures = Some s'
    /\ gestureHistorySize s' = 5%nat
    /\ gestureHistory s'
       = drop (length (gestureHistory s ++ gestures) - 5) (gestureHistory s ++ gestures).
Proof.
  induction gestures as [|g gestures IH]; intros s Hsize Hlen; cbn [updateGestures].
  - exists s. split; [ reflexivity | ]. split; [ exact Hsize | ].
    rewrite app_nil_r. replace (length (gestureHistory s) - 5)%nat with 0%nat by lia.
    rewrite drop_0. reflexivity.
  - destruct (updateGesture_returns s g ltac:(lia) ltac:(lia))
      as (s1 & common & E & _ & _ & _ & Hh & Hs & _).
    destruct (pushGesture_spec s g ltac:(lia) ltac:(lia)) as (Hp & _ & Hl).
    rewrite E. destruct (IH s1 ltac:(lia) ltac:(rewrite Hh; lia)) as (s' & E' & Hs' & Hh').
    exists s'. split; [ exact E' | ]. split; [ exact Hs' | ].
    rewrite Hh', Hh, Hp, Hsize.
    replace (gestureHistory s ++ g :: gestures) with ((gestureHistory s ++ [g]) ++ gestures)
      by (rewrite <- app_assoc; reflexivity).
    set (L := gestureHistory s ++ [g]).
    assert (HL : length L = (length (gestureHistory s) + 1)%nat)
      by (unfold L; rewrite length_app; reflexivity).
    rewrite <- (drop_app_le L gestures) by lia.
    rewrite drop_drop. f_equal. rewrite length_drop, !length_app. lia.
Qed.

(** X8: the detections fed to the smoothing never raise, and the window
    it keeps is the last five of them. *)
Theorem updateGestures_window (gestures : list Gesture) (loaded : bool) :
  exists s' : t,
    updateGestures (create loaded) gestures = Some s'
    /\ gestureHistory s' = drop (length gestures - 5) gestures.
Proof.
  destruct (updateGestures_history gestures (create loaded) eq_refl ltac:(cbn; lia))
    as (s' & E & _ & H).
  exists s'. split; [ exact E | exact H ].
Qed.

(** X9: [updateGesture] either keeps the current gesture and the
    commands, or makes current a gesture that is neither unknown nor none,
    that occurs in the window, and that no gesture of the window
    outnumbers; the gesture it replaces becomes the last one. *)
Theorem updateGesture_most_frequent (s : t) (g : Gesture) :
  (0 < gestureHistorySize s)%nat ->
  (length (gestureHistory s) <= gestureHistorySize s)%nat ->
  exists s' : t,
    updateGesture s g = Some s'
    /\ ((currentGesture s' = currentGesture s /\ commands s' = commands s)
        \/ (currentGesture s' <> currentGesture s
            /\ currentGesture s' <> unknown /\ currentGesture s' <> none
            /\ lastGesture s' = currentGesture s
            /\ In (currentGesture s') (gestureHistory s')
            /\ forall g' : Gesture,
                 (count_occ Gesture_eq_dec (gestureHistory s') g'
                  <= count_occ Gesture_eq_dec (gestureHistory s') (currentGesture s'))%nat)).
Proof.
  intros Hpos Hlen.
  destruct (updateGesture_returns s g Hpos Hlen)
    as (s' & common & E & _ & Hin & Hmax & Hh & _ & _ & Hcase).
  exists s'. split; [ exact E | ].
  destruct (bool_decide (common = currentGesture s)) eqn:E1;
    [ left; cbn [orb] in Hcase; tauto | ].
  destruct (bool_decide (common = unknown)) eqn:E2;
    [ left; cbn [orb] in Hcase; tauto | ].
  destruct (bool_decide (common = none)) eqn:E3;
    [ left; cbn [orb] in Hcase; tauto | ].
  cbn [orb] in Hcase. destruct Hcase as (Hc & Hl & _). right.
  apply bool_decide_eq_false in E1, E2, E3. rewrite Hc, Hh.
  repeat split; assumption.
Qed.

Lemma updateGesture_most_frequent_witness :
  exists s' : t,
    updateGesture (create true) fist = Some s'
    /\ ((currentGesture s' = currentGesture (create true)
         /\ commands s' = commands (create true))
        \/ (currentGesture s' <> currentGesture (create true)
            /\ currentGesture s' <> unknown /\ currentGesture s' <> none
            /\ lastGesture s' = currentGesture (create true)
            /\ In (currentGesture s') (gestureHistory s')
            /\ forall g' : Gesture,
                 (count_occ Gesture_eq_dec (gestureHistory s') g'
                  <= count_occ Gesture_eq_dec (gestureHistory s') (currentGesture s'))%nat)).
Proof.
  apply (updateGesture_most_frequent (create true) fist); cbn; lia.
Defined.

Lemma count_occ_two (history : list Gesture) (a b : Gesture) :
  a <> b ->
  (count_occ Gesture_eq_dec history a + count_occ Gesture_eq_dec history b
   <= length history)%nat.
Proof.
  intros Hne. induction history as [|x history IH]; cbn [count_occ length]; [ lia | ].
  destruct (Gesture_eq_dec x a), (Gesture_eq_dec x b); subst; try congruence; lia.
Qed.

(** X10: a recognised gesture seen in three detections running is the
    current gesture after the third, whatever the window held before. *)
Theorem three_detections_set_gesture (s : t) (g : Gesture) :
  gestureHistorySize s = 5%nat ->
  (length (gestureHistory s) <= 5)%nat ->
  g = fist \/ g = palm \/ g = peace ->
  exists s' : t,
    updateGestures s [ g; g; g ] = Some s' /\ currentGesture s' = g.
Proof.
  intros Hsize Hlen Hg.
  destruct (updateGestures_history [ g; g ] s Hsize Hlen) as (s2 & E2 & Hs2 & Hh2).
  assert (Hl2 : (length (gestureHistory s2) <= 5)%nat).
  { rewrite Hh2, length_drop, length_app. cbn. lia. }
  destruct (updateGesture_returns s2 g ltac:(lia) ltac:(lia))
    as (s3 & common & E3 & _ & _ & Hmax & _ & _ & _ & Hcase).
  destruct (pushGesture_spec s2 g ltac:(lia) ltac:(lia)) as (Hp & _ & Hl).
  exists s3. split.
  { cbn [updateGestures] in *.
    destruct (updateGesture s g) as [s1|]; [ | discriminate ].
    destruct (updateGesture s1 g) as [s2'|]; [ | discriminate ].
    injection E2 as ->. rewrite E3. reflexivity. }
  assert (Hthree : (3 <= count_occ Gesture_eq_dec (pushGesture s2 g) g)%nat).
  { rewrite Hp, Hh2, Hs2.
    set (H0 := gestureHistory s) in *.
    set (k := (length (H0 ++ [ g; g ]) - 5)%nat).
    assert (Hk : (k <= length H0)%nat) by (unfold k; rewrite length_app; cbn; lia).
    rewrite (drop_app_le H0 [ g; g ] k Hk).
    set (H1 := drop k H0).
    assert (HH1 : (length H1 <= 3)%nat).
    { unfold H1, k. rewrite length_drop, length_app. cbn. lia. }
    replace ((H1 ++ [ g; g ]) ++ [ g ]) with (H1 ++ [ g; g; g ])
      by (rewrite <- app_assoc; reflexivity).
    rewrite length_app. cbn [length].
    rewrite (drop_app_le H1 [ g; g; g ]) by lia.
    rewrite count_occ_app. cbn [count_occ].
    destruct (Gesture_eq_dec g g); [ lia | congruence ]. }
  assert (Hcommon : common = g).
  { destruct (Gesture_eq_dec common g) as [Heq|Hne]; [ exact Heq | exfalso ].
    pose proof (count_occ_two (pushGesture s2 g) common g Hne).
    specialize (Hmax g). lia. }
  subst common.
  destruct (bool_decide (g = currentGesture s2)) eqn:Ec.
  - apply bool_decide_eq_true in Ec. cbn [orb] in Hcase. destruct Hcase as (_ & -> & _).
    symmetry. exact Ec.
  - rewrite !bool_decide_eq_false_2 in Hcase by (destruct Hg as [->|[->| ->]]; discriminate).
    cbn [orb] in Hcase. apply Hcase.
Qed.

Lemma three_detections_set_gesture_witness :
  exists s' : t,
    updateGestures (create true) [ peace; peace; peace ] = Some s'
    /\ currentGesture s' = peace.
Proof.
  apply (three_detections_set_gesture (create true) peace);
    [ reflexivity | cbn; lia | right; right; reflexivity ].
Defined.

(** X11: a gesture that is current is not acted on again: while the window
    and the detections hold only that gesture, unknown hands and no hand,
    the commands and the current gesture stay as they are.  In particular
    a fist, the hand taken away and a fist again toggle the freeze once. *)
Theorem repeated_gesture_fires_once (gestures : list Gesture) : forall (s : t) (g : Gesture),
  (0 < gestureHistorySize s)%nat ->
  (length (gestureHistory s) <= gestureHistorySize s)%nat ->
  currentGesture s = g ->
  Forall (fun x => x = g \/ x = unknown \/ x = none) (gestureHistory s) ->
  Forall (fun x => x = g \/ x = unknown \/ x = none) gestures ->
  exists s' : t,
    updateGestures s gestures = Some s'
    /\ commands s' = commands s /\ currentGesture s' = g.
Proof.
  induction gestures as [|x gestures IH]; intros s g Hpos Hlen Hcur Hh Hgs;
    cbn [updateGestures].
  - exists s. repeat split; assumption.
  - inversion Hgs as [|? ? Hx Hrest]; subst.
    destruct (updateGesture_returns s x Hpos Hlen)
      as (s1 & common & E & _ & Hin & _ & Hh1 & Hs1 & _ & Hcase).
    destruct (pushGesture_spec s x Hpos Hlen) as (Hp & _ & Hl).
    assert (Hwin : Forall (fun y => y = currentGesture s \/ y = unknown \/ y = none)
                     (pushGesture s x)).
    { rewrite Hp. apply Forall_drop. apply Forall_app. split; [ exact Hh | ].
      constructor; [ exact Hx | constructor ]. }
    assert (Hc : common = currentGesture s \/ common = unknown \/ common = none).
    { rewrite Forall_forall in Hwin. apply Hwin. apply list_elem_of_In. exact Hin. }
    assert (Hkeep : commands s1 = commands s /\ currentGesture s1 = currentGesture s).
    { destruct Hc as [Hc|[Hc|Hc]].
      - rewrite (bool_decide_eq_true_2 _ Hc) in Hcase. cbn [orb] in Hcase. tauto.
      - rewrite (bool_decide_eq_true_2 (common = unknown) Hc), orb_true_r in Hcase.
        cbn [orb] in Hcase. tauto.
      - rewrite (bool_decide_eq_true_2 (common = none) Hc), orb_true_r in Hcase. tauto. }
    destruct Hkeep as [Hk1 Hk2]. rewrite E.
    destruct (IH s1 (currentGesture s)) as (s' & E' & Hc' & Hg').
    + rewrite Hs1. exact Hpos.
    + rewrite Hh1, Hs1. exact Hl.
    + exact Hk2.
    + rewrite Hh1. exact Hwin.
    + exact Hrest.
    + exists s'. split; [ exact E' | ]. split; [ congruence | exact Hg' ].
Qed.

Lemma repeated_gesture_fires_once_witness :
  exists s' : t,
    updateGestures
      (onGestureChange
         (set_gesture (set_history (create true) [ fist ]) fist none) fist)
      [ none; none; unknown; fist; fist; fist ] = Some s'
    /\ commands s'
       = commands (onGestureChange
                     (set_gesture (set_history (create true) [ fist ]) fist none) fist)
    /\ currentGesture s' = fist.
Proof.
  apply (repeated_gesture_fires_once [ none; none; unknown; fist; fist; fist ]
           (onGestureChange (set_gesture (set_history (create true) [ fist ]) fist none) fist)
           fist).
  - cbn. lia.
  - cbn. lia.
  - reflexivity.
  - repeat constructor.
  - repeat constructor; tauto.
Defined.

(** *** The commands handed to the visualizer *)

Lemma onGestureChange_palette (s : t) (g : Gesture) :
  (0 <= Visualizer.colorPalette (commands s) <= 2)%Z ->
  (0 <= Visualizer.colorPalette (commands (onGestureChange s g)) <= 2)%Z.
Proof.
  intros H. destruct g; cbn; try exact H.
  pose proof (Z.rem_bound_pos (Visualizer.colorPalette (commands s) + 1) 3). lia.
Qed.

Lemma updateGesture_steady (s : t) (g : Gesture) :
  steady s -> exists s' : t, updateGesture s g = Some s' /\ steady s'.
Proof.
  intros (Hsize & Hlen & Hpal & Hcur).
  destruct (updateGesture_returns s g ltac:(lia) ltac:(lia))
    as (s' & common & E & _ & _ & _ & Hh & Hs & _ & Hcase).
  destruct (pushGesture_spec s g ltac:(lia) ltac:(lia)) as (_ & _ & Hl).
  exists s'. split; [ exact E | ]. unfold steady. rewrite Hh, Hs.
  split; [ exact Hsize | ]. split; [ lia | ].
  destruct (bool_decide (common = currentGesture s)) eqn:E1;
    [ cbn [orb] in Hcase; destruct Hcase as (-> & -> & _); tauto | ].
  destruct (bool_decide (common = unknown)) eqn:E2;
    [ cbn [orb] in Hcase; destruct Hcase as (-> & -> & _); tauto | ].
  destruct (bool_decide (common = none)) eqn:E3;
    [ cbn [orb] in Hcase; destruct Hcase as (-> & -> & _); tauto | ].
  cbn [orb] in Hcase. destruct Hcase as (-> & _ & ->).
  apply bool_decide_eq_false in E2.
  split; [ apply onGestureChange_palette; exact Hpal | exact E2 ].
Qed.

Lemma onPredictions_steady (s : t) (predictions : list Landmarks) :
  steady s -> steady (onPredictions s predictions).
Proof.
  intros Hs. unfold onPredictions. destruct predictions as [|hand rest].
  - destruct (updateGesture_steady s none Hs) as (s' & -> & Hs'). exact Hs'.
  - destruct (drawHandLandmarks hand); [ | exact Hs ].
    destruct (recognizeGesture hand) as [g|]; [ | exact Hs ].
    destruct (updateGesture_steady s g Hs) as (s' & -> & Hs'). exact Hs'.
Qed.

Lemma handle_steady (s : t) (ev : Event) : steady s -> steady (handle s ev).
Proof.
  intros Hs. destruct ev as [granted| |predictions|predictions| | |]; cbn [handle].
  - unfold start. destruct (isModelLoaded s), (isRunning s), granted; exact Hs.
  - unfold stop. destruct (isRunning s); cbn [negb]; [ | exact Hs ].
    destruct Hs as (H1 & H2 & H3 & H4). repeat split; cbn; try assumption; try apply H3.
    discriminate.
  - unfold detectGesture. destruct (isRunning s); cbn [negb];
      [ apply onPredictions_steady | ]; exact Hs.
  - apply onPredictions_steady. exact Hs.
  - exact Hs.
  - exact Hs.
  - exact Hs.
Qed.

Lemma handleAll_steady (evs : list Event) : forall s : t,
  steady s -> steady (handleAll s evs).
Proof.
  unfold handleAll. induction evs as [|ev evs IH]; intros s Hs; cbn [fold_left].
  - exact Hs.
  - apply IH. apply handle_steady. exact Hs.
Qed.

(** X12: whatever happens to a controller after its construction (starts
    and stops, answers of the hand model, timeouts, calibration), the
    palette index of its commands is 0, 1 or 2, its window holds at most
    five detections, and its current gesture is never the unknown one. *)
Theorem handleAll_commands_valid (evs : list Event) (loaded : bool) :
  Visualizer.validCommands (getCommands (handleAll (create loaded) evs))
  /\ (length (gestureHistory (handleAll (create loaded) evs)) <= 5)%nat
  /\ currentGesture (handleAll (create loaded) evs) <> unknown.
Proof.
  destruct (handleAll_steady evs (create loaded)) as (_ & H2 & H3 & H4).
  - repeat split; cbn; try lia. discriminate.
  - repeat split; try assumption; apply H3.
Qed.

(** X13: a hand of fewer than 21 landmarks, and every answer while the
    controller is not running, leave the controller as it is: the
    exception of the drawing is caught before the gesture is looked at. *)
Theorem detectGesture_ignores (s : t) (hand : Landmarks) (rest : list Landmarks) :
  isRunning s = false \/ (length hand < 21)%nat ->
  detectGesture s (hand :: rest) = s.
Proof.
  intros [Hstop|Hshort]; unfold detectGesture; [ rewrite Hstop; reflexivity | ].
  destruct (isRunning s); cbn [negb]; [ | reflexivity ].
  unfold onPredictions, drawHandLandmarks.
  destruct (forallb _ handConnections) eqn:E; [ exfalso | reflexivity ].
  rewrite forallb_forall in E. specialize (E (19, 20)%nat).
  cbn [fst snd] in E. rewrite andb_true_iff in E.
  destruct E as [_ E]; [ unfold handConnections; cbn; tauto | ].
  apply bool_decide_eq_true in E. apply lookup_lt_is_Some in E. lia.
Qed.

Lemma detectGesture_ignores_witness :
  detectGesture (set_running (create true) true) ([ point 1 2; point 3 4 ] :: [])
  = set_running (create true) true.
Proof.
  apply (detectGesture_ignores (set_running (create true) true) [ point 1 2; point 3 4 ] []).
  right. cbn. lia.
Defined.

Lemma stop_stopped (s : t) : isRunning (stop s) = false.
Proof. unfold stop. destruct (isRunning s) eqn:E; cbn [negb]; [ reflexivity | exact E ]. Qed.

(** X14: [stop] of a running controller releases the freeze and the pulse
    command and keeps the palette; and the detection callbacks that start
    after it change nothing, so the freeze stays released until the
    controller is started again. *)
Theorem stop_releases (s : t) (answers : list (list Landmarks)) :
  isRunning s = true ->
  let s' := handleAll (stop s) (map EvDetect answers) in
  s' = stop s
  /\ Visualizer.freeze (getCommands s') = false
  /\ Visualizer.pulseCommand (getCommands s') = false
  /\ Visualizer.colorPalette (getCommands s') = Visualizer.colorPalette (getCommands s)
  /\ currentGesture s' = none.
Proof.
  intros Hrun s'.
  assert (Hs' : s' = stop s).
  { unfold s', handleAll. generalize (stop_stopped s). generalize (stop s) as s0.
    induction answers as [|a answers IH]; intros s0 Hs0; cbn [map fold_left handle].
    - reflexivity.
    - unfold detectGesture. rewrite Hs0. cbn [negb]. apply IH. exact Hs0. }
  split; [ exact Hs' | ]. rewrite Hs'. unfold stop. rewrite Hrun. repeat split.
Qed.

Lemma stop_releases_witness :
  let s := onGestureChange (set_running (create true) true) fist in
  let s' := handleAll (stop s) (map EvDetect [ [ handOf false false false false false ] ]) in
  s' = stop s
  /\ Visualizer.freeze (getCommands s') = false
  /\ Visualizer.pulseCommand (getCommands s') = false
  /\ Visualizer.colorPalette (getCommands s') = Visualizer.colorPalette (getCommands s)
  /\ currentGesture s' = none.
Proof.
  apply (stop_releases (onGestureChange (set_running (create true) true) fist)
           [ [ handOf false false false false false ] ]).
  reflexivity.
Defined.

End Gestures.

Section GesturesAndTicks.

Import GestureController.

Variables Math_sin Math_cos : float -> float.
Variable Math_atan2 : float -> float -> float.
Variable Math_random : nat -> float.

(** X15: the commands of a gesture controller, after whatever happened to
    it since its construction, never make a tick of the visualizer raise:
    [update] on a well-formed visualizer returns a well-formed visualizer
    with as many particles. *)
Theorem update_with_gestures (evs : list Event) (loaded : bool) (v : Visualizer.t)
  (a : option AudioData) :
  Visualizer.wellFormed v ->
  exists v' : Visualizer.t,
    Visualizer.update Math_sin Math_cos Math_atan2 Math_random v a
      (Some (getCommands (handleAll (create loaded) evs))) = Some v'
    /\ Visualizer.wellFormed v'
    /\ Visualizer.particleCount v' = Visualizer.particleCount v.
Proof.
  intros Hwf. apply update_returns; [ exact Hwf | ].
  intros c [= <-]. destruct (handleAll_steady evs (create loaded)) as (_ & _ & H & _).
  - repeat split; cbn; try lia. discriminate.
  - exact H.
Qed.

End GesturesAndTicks.

Lemma update_with_gestures_witness :
  exists v' : Visualizer.t,
    Visualizer.update exampleSin exampleCos exampleAtan2 exampleRandom
      (Visualizer.start (still 128 origin Visualizer.minimal)) (Some silence)
      (Some (GestureController.getCommands
               (GestureController.handleAll (GestureController.create true)
                  [ GestureController.EvStart true;
                    GestureController.EvDetect
                      [ GestureController.handOf false true true false false ] ])))
    = Some v'
    /\ Visualizer.wellFormed v'
    /\ Visualizer.particleCount v'
       = Visualizer.particleCount (Visualizer.start (still 128 origin Visualizer.minimal)).
Proof.
  apply (update_with_gestures exampleSin exampleCos exampleAtan2 exampleRandom).
  split; [ repeat split; apply repeat_length | cbn; lia ].
Defined.

(** ** The presets *)

Section Presets.

Import PresetManager.

Variable Math_pow : float -> float -> float.

Local Open Scope float_scope.

Local Abbreviation animate' := (animate Math_pow).
Local Abbreviation applyPreset' := (applyPreset Math_pow).
Local Abbreviation handleKeyPress' := (handleKeyPress Math_pow).
Local Abbreviation handle' := (PresetManager.handle Math_pow).
Local Abbreviation handleAll' := (PresetManager.handleAll Math_pow).

Lemma untouched_refl (v : Visualizer.t) : untouched v v.
Proof. repeat split. Qed.

Lemma untouched_trans (v1 v2 v3 : Visualizer.t) :
  untouched v1 v2 -> untouched v2 v3 -> untouched v1 v3.
Proof. unfold untouched. intuition congruence. Qed.

Lemma applyPresetImmediate_keeps (st : Stage) (preset : Preset) :
  clearAgrees (applyPresetImmediate st preset)
  /\ untouched (visualizer st) (visualizer (applyPresetImmediate st preset)).
Proof. split; [ reflexivity | repeat split ]. Qed.

Lemma animate_keeps (m : PresetManager.t) (st : Stage) (now : Z) :
  clearAgrees st -> consistent m ->
  clearAgrees (snd (animate' (m, st) now))
  /\ consistent (fst (animate' (m, st) now))
  /\ untouched (visualizer st) (visualizer (snd (animate' (m, st) now))).
Proof.
  intros Hst Hm. unfold animate.
  destruct (animation m) as [[initialRadius targetPreset]|] eqn:Ea.
  - destruct (progressAt m now <? 1); cbn [fst snd].
    + split; [ exact Hst | ]. split; [ exact Hm | repeat split ].
    + split; [ reflexivity | ]. split; [ | repeat split ].
      split; [ | apply Hm ]. cbn. split; [ discriminate | intros [x Hx]; discriminate ].
  - cbn [fst snd]. split; [ exact Hst | ]. split; [ exact Hm | repeat split ].
Qed.

Lemma applyPreset_keeps (m : PresetManager.t) (st : Stage) (name : String.string)
  (animated : bool) (started now : Z) :
  clearAgrees st -> consistent m ->
  clearAgrees (snd (applyPreset' (m, st) name animated started now))
  /\ consistent (fst (applyPreset' (m, st) name animated started now))
  /\ untouched (visualizer st)
       (visualizer (snd (applyPreset' (m, st) name animated started now))).
Proof.
  intros Hst Hm. unfold applyPreset.
  destruct (entry presets name) as [preset|] eqn:En;
    [ | cbn [fst snd]; split; [ exact Hst | split; [ exact Hm | apply untouched_refl ] ] ].
  destruct (isTransitioning m) eqn:Et;
    [ cbn [fst snd]; split; [ exact Hst | split; [ exact Hm | apply untouched_refl ] ] | ].
  assert (Hm1 : consistent (set_preset m name)).
  { destruct Hm as [Hm1 _]. split; [ exact Hm1 | ]. unfold getCurrentPreset. cbn.
    rewrite En. eexists. reflexivity. }
  destruct (animated && negb (String.eqb (currentPreset m) name)).
  - unfold smoothTransition. apply animate_keeps; [ exact Hst | ].
    destruct Hm1 as [_ H2]. split; [ | exact H2 ]. cbn.
    split; [ intros _; eexists; reflexivity | reflexivity ].
  - cbn [fst snd]. split; [ reflexivity | ]. split; [ exact Hm1 | repeat split ].
Qed.

Lemma handle_keeps (m : PresetManager.t) (st : Stage) (ev : PresetManager.Event) :
  clearAgrees st -> consistent m ->
  clearAgrees (snd (handle' (m, st) ev))
  /\ consistent (fst (handle' (m, st) ev))
  /\ untouched (visualizer st) (visualizer (snd (handle' (m, st) ev))).
Proof.
  intros Hst Hm. destruct ev as [key tagName random started now|now];
    cbn [PresetManager.handle]; [ | apply animate_keeps; assumption ].
  unfold handleKeyPress.
  assert (Hsame : clearAgrees (snd (m, st)) /\ consistent (fst (m, st))
                  /\ untouched (visualizer st) (visualizer (snd (m, st))))
    by (split; [ exact Hst | split; [ exact Hm | apply untouched_refl ] ]).
  destruct (_ || _); [ exact Hsame | ].
  destruct (entry keyMap key) as [action|]; [ | exact Hsame ].
  destruct (String.eqb action "toggleTrail");
    [ cbn [fst snd]; split; [ reflexivity | split; [ exact Hm | repeat split ] ] | ].
  destruct (String.eqb action "toggleKaleidoscope");
    [ cbn [fst snd]; split; [ exact Hst | split; [ exact Hm | repeat split ] ] | ].
  destruct (String.eqb action "randomize").
  - unfold randomizePreset. destruct (randomPreset random);
      [ apply applyPreset_keeps; assumption | exact Hsame ].
  - destruct (entry presets action); [ apply applyPreset_keeps; assumption | exact Hsame ].
Qed.

Lemma handleAll_keeps (evs : list PresetManager.Event) :
  forall (m : PresetManager.t) (st : Stage),
  clearAgrees st -> consistent m ->
  clearAgrees (snd (handleAll' (m, st) evs))
  /\ consistent (fst (handleAll' (m, st) evs))
  /\ untouched (visualizer st) (visualizer (snd (handleAll' (m, st) evs))).
Proof.
  unfold PresetManager.handleAll.
  induction evs as [|ev evs IH]; intros m st Hst Hm; cbn [fold_left].
  - split; [ exact Hst | split; [ exact Hm | apply untouched_refl ] ].
  - destruct (handle_keeps m st ev Hst Hm) as (H1 & H2 & H3).
    destruct (handle' (m, st) ev) as [m1 st1]. cbn [fst snd] in *.
    destruct (IH m1 st1 H1 H2) as (I1 & I2 & I3).
    split; [ exact I1 | ]. split; [ exact I2 | ]. exact (untouched_trans _ _ _ H3 I3).
Qed.

Lemma create_keeps (st : Stage) :
  clearAgrees (snd (PresetManager.create Math_pow st))
  /\ consistent (fst (PresetManager.create Math_pow st))
  /\ untouched (visualizer st) (visualizer (snd (PresetManager.create Math_pow st))).
Proof.
  split; [ reflexivity | ]. split; [ | repeat split ].
  split; [ | eexists; reflexivity ].
  cbn. split; [ discriminate | intros [x Hx]; discriminate ].
Qed.

(** X16: after the construction of the manager, whatever keys are pressed
    and whenever the frames of a transition run, the alpha the renderer
    clears with is the trail opacity when the trail effect is on and 1
    when it is off, the current preset is a preset of the table, and a
    transition is in progress exactly when its callback is pending. *)
Theorem presets_clear_alpha (st : Stage) (evs : list PresetManager.Event) :
  let w := handleAll' (PresetManager.create Math_pow st) evs in
  clearAlpha (snd w) = (if trailEffect (snd w) then trailOpacity (snd w) else 1)
  /\ is_Some (getCurrentPreset (fst w))
  /\ (isTransitioning (fst w) = true <-> is_Some (animation (fst w))).
Proof.
  intros w. destruct (create_keeps st) as (C1 & C2 & _).
  destruct (PresetManager.create Math_pow st) as [m0 st0] eqn:E. cbn [fst snd] in *.
  destruct (handleAll_keeps evs m0 st0 C1 C2) as (H1 & [H2 H3] & _).
  split; [ exact H1 | ]. split; [ exact H3 | exact H2 ].
Qed.

(** X17: no preset, no key and no frame of a transition changes the
    particle arrays, the particle count, the palette index, the freeze or
    the running flag of the visualizer; the particle count a preset
    declares is not applied. *)
Theorem presets_keep_particles (st : Stage) (evs : list PresetManager.Event) :
  let v' := visualizer (snd (handleAll' (PresetManager.create Math_pow st) evs)) in
  particles v' = particles (visualizer st)
  /\ particleCount v' = particleCount (visualizer st)
  /\ currentPalette v' = currentPalette (visualizer st)
  /\ isFrozen v' = isFrozen (visualizer st)
  /\ isRunning v' = isRunning (visualizer st).
Proof.
  intros v'. destruct (create_keeps st) as (C1 & C2 & C3).
  unfold v'. destruct (PresetManager.create Math_pow st) as [m0 st0] eqn:E.
  cbn [fst snd] in *.
  destruct (handleAll_keeps evs m0 st0 C1 C2) as (_ & _ & H).
  exact (untouched_trans _ _ _ C3 H).
Qed.

Lemma animate_running (m : PresetManager.t) (st : Stage) (r0 : float) (preset : Preset)
  (r : float) (now : Z) :
  animation m = Some (r0, preset) ->
  (progressAt m now <? 1) = true ->
  exists r' : float, animate' (m, withRadius st r) now = (m, withRadius st r').
Proof.
  intros Ea Hp. unfold animate. rewrite Ea, Hp. eexists. reflexivity.
Qed.

Lemma animate_finishes (m : PresetManager.t) (st : Stage) (r0 : float) (preset : Preset)
  (r : float) (now : Z) :
  animation m = Some (r0, preset) ->
  (progressAt m now <? 1) = false ->
  animate' (m, withRadius st r) now
  = (set_transition m false (transitionStart m) None, applyPresetImmediate st preset).
Proof.
  intros Ea Hp. unfold animate. rewrite Ea, Hp. reflexivity.
Qed.

Lemma frames_running (frames : list Z) (m : PresetManager.t) (st : Stage) (r0 : float)
  (preset : Preset) :
  animation m = Some (r0, preset) ->
  Forall (fun now => (progressAt m now <? 1) = true) frames ->
  forall r : float,
  exists r' : float,
    handleAll' (m, withRadius st r) (map EvFrame frames) = (m, withRadius st r').
Proof.
  intros Ea. unfold PresetManager.handleAll.
  induction frames as [|now frames IH]; intros Hall r; cbn [map fold_left].
  - exists r. reflexivity.
  - inversion Hall as [|? ? Hnow Hrest]; subst. cbn [PresetManager.handle].
    destruct (animate_running m st r0 preset r now Ea Hnow) as [r1 ->].
    apply IH. exact Hrest.
Qed.

(** The key of a preset, pressed outside a text field while no
    transition is in progress and another preset is current, sets the
    current preset and starts a transition whose first frame has run. *)
Lemma handleKeyPress_starts (m : PresetManager.t) (st : Stage) (key name tagName : String.string)
  (preset : Preset) (random : float) (started now : Z) :
  String.eqb tagName "INPUT" = false ->
  String.eqb tagName "TEXTAREA" = false ->
  entry keyMap key = Some name ->
  entry presets name = Some preset ->
  isTransitioning m = false ->
  String.eqb (currentPreset m) name = false ->
  handleKeyPress' (m, st) key tagName random started now
  = animate'
      (set_transition (set_preset m name) true started
         (Some (cameraRadius (camera (visualizer st)), preset)), st) now.
Proof.
  intros Ht1 Ht2 Hkey Hname Hidle Hother. unfold handleKeyPress.
  rewrite Ht1, Ht2, Hkey. cbn [orb].
  assert (Hn : String.eqb name "toggleTrail" = false
               /\ String.eqb name "toggleKaleidoscope" = false
               /\ String.eqb name "randomize" = false).
  { unfold entry, presets in Hname. cbn [find fst snd] in Hname.
    repeat match type of Hname with
           | context [String.eqb ?a name] =>
               destruct (String.eqb_spec a name) as [<-|];
               [ repeat split; reflexivity | ]
           end.
    discriminate. }
  destruct Hn as (-> & -> & ->). rewrite Hname.
  unfold applyPreset. rewrite Hname, Hidle, Hother. reflexivity.
Qed.

(** X18: the key of a preset other than the current one, pressed outside
    a text field while no transition is in progress, starts a transition;
    while the progress of its frames is below 1 the visual mode and the
    trail fields stay as they were and only the camera radius changes;
    the first frame whose progress is not below 1 ends the transition, and
    the stage is then the one [applyPresetImmediate] makes of the stage
    before the key, whatever the times of the frames were. *)
Theorem transition_ends_in_preset (m : PresetManager.t) (st : Stage)
  (key name tagName : String.string) (preset : Preset) (random : float)
  (started now : Z) (frames : list Z) (last : Z) :
  String.eqb tagName "INPUT" = false ->
  String.eqb tagName "TEXTAREA" = false ->
  entry keyMap key = Some name ->
  entry presets name = Some preset ->
  isTransitioning m = false ->
  String.eqb (currentPreset m) name = false ->
  let progress (t : Z) := Math_min (Z2F (t - started) / Z2F (transitionDuration m)) 1 in
  Forall (fun t => (progress t <? 1) = true) (now :: frames) ->
  (progress last <? 1) = false ->
  let w1 := handleKeyPress' (m, st) key tagName random started now in
  (exists r : float,
     handleAll' w1 (map EvFrame frames)
     = (set_transition (set_preset m name) true started
          (Some (cameraRadius (camera (visualizer st)), preset)),
        withRadius st r))
  /\ handleAll' w1 (map EvFrame (frames ++ [ last ]))
     = (set_transition (set_preset m name) false started None,
        applyPresetImmediate st preset).
Proof.
  intros Ht1 Ht2 Hkey Hname Hidle Hother progress Hrun Hlast w1.
  set (m1 := set_transition (set_preset m name) true started
               (Some (cameraRadius (camera (visualizer st)), preset))).
  assert (Ea : animation m1 = Some (cameraRadius (camera (visualizer st)), preset))
    by reflexivity.
  inversion Hrun as [|? ? Hnow Hframes]; subst.
  assert (E1 : exists r, w1 = (m1, withRadius st r)).
  { unfold w1. rewrite (handleKeyPress_starts m st key name tagName preset random started now)
      by assumption.
    fold m1. unfold animate. rewrite Ea.
    change (progressAt m1 now) with (progress now). rewrite Hnow. eexists. reflexivity. }
  destruct E1 as [r1 ->].
  destruct (frames_running frames m1 st _ preset Ea Hframes r1) as [r2 E2].
  split; [ exists r2; exact E2 | ].
  unfold PresetManager.handleAll in *. rewrite map_app, fold_left_app, E2.
  cbn [map fold_left PresetManager.handle].
  rewrite (animate_finishes m1 st _ preset r2 last Ea Hlast). reflexivity.
Qed.

(** X19: a key pressed in a text field, a key that is not in the key map,
    and, while a transition is in progress, every key but the two toggles
    change nothing. *)
Theorem handleKeyPress_ignored (m : PresetManager.t) (st : Stage)
  (key tagName : String.string) (random : float) (started now : Z) :
  String.eqb tagName "INPUT" = true \/ String.eqb tagName "TEXTAREA" = true
  \/ entry keyMap key = None
  \/ (isTransitioning m = true /\ String.eqb key "t" = false /\ String.eqb key "k" = false) ->
  handleKeyPress' (m, st) key tagName random started now = (m, st).
Proof.
  intros H. unfold handleKeyPress.
  destruct (String.eqb tagName "INPUT") eqn:E1; [ reflexivity | ].
  destruct (String.eqb tagName "TEXTAREA") eqn:E2; [ reflexivity | ]. cbn [orb].
  destruct H as [H|[H|[H|(Ht & Hk1 & Hk2)]]]; try discriminate.
  - rewrite H. reflexivity.
  - assert (Hap : forall name : String.string,
              applyPreset' (m, st) name true started now = (m, st)).
    { intros name. unfold applyPreset. rewrite Ht. destruct (entry presets name); reflexivity. }
    destruct (entry keyMap key) as [action|] eqn:Ek; [ | reflexivity ].
    assert (Ha : String.eqb action "toggleTrail" = false
                 /\ String.eqb action "toggleKaleidoscope" = false).
    { unfold entry, keyMap in Ek. cbn [find fst snd] in Ek.
      rewrite (String.eqb_sym "t" key), (String.eqb_sym "k" key), Hk1, Hk2 in Ek.
      repeat match type of Ek with
             | context [String.eqb ?a key] => destruct (String.eqb a key)
             end;
        try discriminate; injection Ek as <-; split; reflexivity. }
    destruct Ha as [-> ->].
    destruct (String.eqb action "randomize").
    + unfold randomizePreset. destruct (randomPreset random); [ apply Hap | reflexivity ].
    + destruct (entry presets action); [ apply Hap | reflexivity ].
Qed.

End Presets.

Section PresetExamples.

Local Open Scope string_scope.

Lemma transition_ends_in_preset_witness :
  let m := fst (PresetManager.create PresetManager.examplePow
                  (PresetManager.stageOf (still 4 origin cosmic))) in
  let st := snd (PresetManager.create PresetManager.examplePow
                   (PresetManager.stageOf (still 4 origin cosmic))) in
  let w1 :=
    PresetManager.handleKeyPress PresetManager.examplePow (m, st) "2" "BODY" 0%float
      5000 5000 in
  (exists r : float,
     PresetManager.handleAll PresetManager.examplePow w1
       (map PresetManager.EvFrame [ 5016; 5500 ]%Z)
     = (PresetManager.set_transition (PresetManager.set_preset m "neural") true 5000
          (Some (cameraRadius (camera (PresetManager.visualizer st)),
                 {| PresetManager.presetMode := neural;
                    PresetManager.presetTrailEffect := false;
                    PresetManager.presetTrailOpacity := 1.0%float;
                    PresetManager.presetRadialSymmetry := false;
                    PresetManager.presetCameraRadius := 180%float;
                    PresetManager.presetParticleCount := 2000 |})),
        PresetManager.withRadius st r))
  /\ PresetManager.handleAll PresetManager.examplePow w1
       (map PresetManager.EvFrame ([ 5016; 5500 ] ++ [ 6000 ])%Z)
     = (PresetManager.set_transition (PresetManager.set_preset m "neural") false 5000 None,
        PresetManager.applyPresetImmediate st
          {| PresetManager.presetMode := neural;
             PresetManager.presetTrailEffect := false;
             PresetManager.presetTrailOpacity := 1.0%float;
             PresetManager.presetRadialSymmetry := false;
             PresetManager.presetCameraRadius := 180%float;
             PresetManager.presetParticleCount := 2000 |}).
Proof.
  intros m st.
  apply (transition_ends_in_preset PresetManager.examplePow m st "2" "neural" "BODY");
    try reflexivity.
  repeat constructor.
Defined.

Lemma handleKeyPress_ignored_witness :
  PresetManager.handleKeyPress PresetManager.examplePow
    (PresetManager.create PresetManager.examplePow
       (PresetManager.stageOf (still 4 origin cosmic)))
    "3" "INPUT" 0%float 5000 5000
  = PresetManager.create PresetManager.examplePow
      (PresetManager.stageOf (still 4 origin cosmic)).
Proof.
  apply (handleKeyPress_ignored PresetManager.examplePow
           (fst (PresetManager.create PresetManager.examplePow
                   (PresetManager.stageOf (still 4 origin cosmic))))
           (snd (PresetManager.create PresetManager.examplePow
                   (PresetManager.stageOf (still 4 origin cosmic))))).
  left. reflexivity.
Defined.

End PresetExamples.

(** ** The demonstration *)

Section Demo.

Import PresetManager.
Import DemoMode.

Variable Math_pow : float -> float -> float.

Local Open Scope string_scope.
Local Open Scope float_scope.

Local Abbreviation handle' := (DemoMode.handle Math_pow).
Local Abbreviation handleAll' := (DemoMode.handleAll Math_pow).
Local Abbreviation runDemoStep' := (runDemoStep Math_pow).
Local Abbreviation demoSteps' := (demoSteps Math_pow).

Lemma animate_untouched (w : PresetManager.t * Stage) (now : Z) :
  untouched (visualizer (snd w)) (visualizer (snd (animate Math_pow w now))).
Proof.
  destruct w as [m st]. unfold animate.
  destruct (animation m) as [[r0 preset]|]; [ | apply untouched_refl ].
  destruct (progressAt m now <? 1); repeat split.
Qed.

Lemma applyPreset_untouched (w : PresetManager.t * Stage) (name : String.string)
  (animated : bool) (started now : Z) :
  untouched (visualizer (snd w))
    (visualizer (snd (applyPreset Math_pow w name animated started now))).
Proof.
  destruct w as [m st]. unfold applyPreset.
  destruct (entry presets name) as [preset|]; [ | apply untouched_refl ].
  destruct (isTransitioning m); [ apply untouched_refl | ].
  destruct (animated && negb (String.eqb (currentPreset m) name)); [ | repeat split ].
  unfold smoothTransition.
  exact (animate_untouched (set_transition (set_preset m name) true started _, st) now).
Qed.

Lemma presets_handle_untouched (w : PresetManager.t * Stage) (ev : PresetManager.Event) :
  untouched (visualizer (snd w)) (visualizer (snd (PresetManager.handle Math_pow w ev))).
Proof.
  destruct ev as [key tagName random started now|now]; cbn [PresetManager.handle];
    [ | apply animate_untouched ].
  destruct w as [m st]. unfold handleKeyPress.
  destruct (_ || _); [ apply untouched_refl | ].
  destruct (entry keyMap key) as [action|]; [ | apply untouched_refl ].
  destruct (String.eqb action "toggleTrail"); [ repeat split | ].
  destruct (String.eqb action "toggleKaleidoscope"); [ repeat split | ].
  destruct (String.eqb action "randomize").
  - unfold randomizePreset. destruct (randomPreset random);
      [ apply applyPreset_untouched | apply untouched_refl ].
  - destruct (entry presets action); [ apply applyPreset_untouched | apply untouched_refl ].
Qed.

Lemma demoKeeps_refl (v : Visualizer.t) : demoKeeps v v.
Proof. repeat split; tauto. Qed.

Lemma demoKeeps_trans (v1 v2 v3 : Visualizer.t) :
  demoKeeps v1 v2 -> demoKeeps v2 v3 -> demoKeeps v1 v3.
Proof. unfold demoKeeps. intuition congruence. Qed.

Lemma untouched_demoKeeps (v v' : Visualizer.t) : untouched v v' -> demoKeeps v v'.
Proof. intros (H1 & H2 & H3 & _). unfold demoKeeps. rewrite H1, H2, H3. tauto. Qed.

Lemma nextPalette_keeps (st : Stage) :
  demoKeeps (visualizer st) (visualizer (nextPalette st)).
Proof.
  split; [ reflexivity | ]. split; [ reflexivity | ]. intros H. cbn.
  pose proof (Z.rem_bound_pos (currentPalette (visualizer st) + 1) 3). lia.
Qed.

Lemma step_keeps (step : Step) (w : World) (started now : Z) :
  In step demoSteps' ->
  fst (action step w started now) = fst w
  /\ demoKeeps (visualizer (snd (snd w)))
       (visualizer (snd (snd (action step w started now)))).
Proof.
  destruct w as [d [m st]]. unfold demoSteps. cbn [In].
  intros H. repeat (destruct H as [<-|H]); try destruct H; cbn [action fst snd showPreset].
  1-6, 11, 13:
    split; [ reflexivity
           | apply untouched_demoKeeps; exact (applyPreset_untouched (m, st) _ true started now) ].
  - split; [ reflexivity | ]. apply untouched_demoKeeps.
    destruct (negb (trailEffect st)).
    + exact (applyPreset_untouched (m, toggleTrailEffect st) _ true started now).
    + exact (applyPreset_untouched (m, st) _ true started now).
  - split; [ reflexivity | repeat split; tauto ].
  - split; [ reflexivity | apply nextPalette_keeps ].
  - change (simulateGesture "pulse" (d, (m, st)))
      with (d, (m, set_visualizer st (triggerPulse (visualizer st) 1.5))).
    split; [ reflexivity | ].
    destruct (triggerPulse_keeps (visualizer st) 1.5) as (H1 & H2 & H3 & _).
    unfold demoKeeps. cbn [fst snd visualizer set_visualizer]. rewrite H1, H2, H3. tauto.
  - split; [ reflexivity | apply demoKeeps_refl ].
Qed.

Lemma runDemoStep_spec (d : DemoMode.t) (ms : PresetManager.t * Stage) (started now : Z) :
  (isActive d = true ->
   fst (runDemoStep' (d, ms) started now)
   = {| isActive := (currentStep d <? 13)%nat; currentStep := currentStep d;
        stepTimeout := (currentStep d <? 13)%nat; unfreezeTimeouts := unfreezeTimeouts d |})
  /\ demoKeeps (visualizer (snd ms))
       (visualizer (snd (snd (runDemoStep' (d, ms) started now)))).
Proof.
  unfold runDemoStep. change (length demoSteps') with 13%nat.
  destruct (isActive d) eqn:Ha; cbn [negb orb];
    [ | split; [ discriminate | unfold stop; rewrite Ha; apply demoKeeps_refl ] ].
  destruct (Nat.leb_spec 13 (currentStep d)) as [Hend|Hin].
  - unfold stop. rewrite Ha. cbn [negb fst snd].
    rewrite (proj2 (Nat.ltb_ge _ _) Hend). split; [ reflexivity | apply demoKeeps_refl ].
  - rewrite (proj2 (Nat.ltb_lt _ _) Hin).
    destruct (lookup_lt_is_Some_2 demoSteps' (currentStep d)) as [step Es];
      [ exact Hin | ].
    rewrite Es.
    destruct (step_keeps step (d, ms) started now) as [H1 H2].
    { apply list_elem_of_In. eapply list_elem_of_lookup_2. exact Es. }
    destruct (action step (d, ms) started now) as [d1 ms1]. cbn [fst snd] in *.
    subst d1. rewrite Ha. split; [ reflexivity | exact H2 ].
Qed.

Lemma timeouts_spec (clocks : list (Z * Z)) :
  forall (d : DemoMode.t) (ms : PresetManager.t * Stage),
  isActive d = true -> stepTimeout d = true -> (currentStep d < 13)%nat ->
  (currentStep d + length clocks <= 13)%nat ->
  fst (timeouts Math_pow (d, ms) clocks)
  = {| isActive := (currentStep d + length clocks <? 13)%nat;
       currentStep := (currentStep d + length clocks)%nat;
       stepTimeout := (currentStep d + length clocks <? 13)%nat;
       unfreezeTimeouts := unfreezeTimeouts d |}.
Proof.
  unfold timeouts.
  induction clocks as [|c clocks IH]; intros d ms Ha Ht Hlt Hk; cbn [fold_left length].
  - rewrite Nat.add_0_r, (proj2 (Nat.ltb_lt _ _) Hlt).
    destruct d as [a k t u]. cbn in *. subst. reflexivity.
  - cbn [length] in Hk. unfold stepTimedOut at 2. rewrite Ht. cbn [negb].
    set (d0 := {| isActive := isActive d; currentStep := S (currentStep d);
                  stepTimeout := false; unfreezeTimeouts := unfreezeTimeouts d |}).
    destruct (runDemoStep_spec d0 ms (fst c) (snd c)) as [Hd _].
    specialize (Hd Ha). cbn [currentStep unfreezeTimeouts d0] in Hd.
    destruct (runDemoStep' (d0, ms) (fst c) (snd c)) as [d1 ms1]. cbn [fst] in Hd.
    destruct (Nat.ltb_spec (S (currentStep d)) 13) as [Hmore|Hdone].
    + subst d1.
      rewrite IH; cbn [isActive stepTimeout currentStep unfreezeTimeouts];
        try reflexivity; try lia.
      replace (S (currentStep d) + length clocks)%nat
        with (currentStep d + S (length clocks))%nat by lia.
      reflexivity.
    + destruct clocks as [|c' clocks]; [ | cbn [length] in Hk; lia ].
      cbn [fold_left fst length]. subst d1.
      replace (currentStep d + 1)%nat with (S (currentStep d)) by lia.
      rewrite (proj2 (Nat.ltb_ge _ _) Hdone). reflexivity.
Qed.

(** X20: a demonstration started while none is running is at step [k]
    after [k] of its timers have expired, active and with the next timer
    pending for [k] below 13; the thirteenth timer stops it. *)
Theorem demo_runs_thirteen_steps (d : DemoMode.t) (ms : PresetManager.t * Stage)
  (started now : Z) (clocks : list (Z * Z)) :
  isActive d = false ->
  (length clocks <= 13)%nat ->
  fst (timeouts Math_pow (DemoMode.start Math_pow (d, ms) started now) clocks)
  = {| isActive := (length clocks <? 13)%nat;
       currentStep := length clocks;
       stepTimeout := (length clocks <? 13)%nat;
       unfreezeTimeouts := unfreezeTimeouts d |}.
Proof.
  intros Ha Hk. unfold DemoMode.start. rewrite Ha.
  set (d0 := {| isActive := true; currentStep := 0; stepTimeout := stepTimeout d;
                unfreezeTimeouts := unfreezeTimeouts d |}).
  destruct (runDemoStep_spec d0 ms started now) as [Hd _]. specialize (Hd eq_refl).
  cbn [currentStep unfreezeTimeouts d0] in Hd.
  destruct (runDemoStep' (d0, ms) started now) as [d1 ms1]. cbn [fst] in Hd.
  change (0 <? 13)%nat with true in Hd. subst d1.
  rewrite timeouts_spec; cbn [isActive stepTimeout currentStep unfreezeTimeouts];
    try reflexivity; lia.
Qed.

Lemma handle_demoKeeps (w : World) (ev : DemoMode.Event) :
  demoKeeps (visualizer (snd (snd w))) (visualizer (snd (snd (handle' w ev)))).
Proof.
  destruct w as [d ms]. destruct ev as [started now|started now| | |e]; cbn [DemoMode.handle].
  - unfold DemoMode.start. destruct (isActive d); [ apply demoKeeps_refl | ].
    apply runDemoStep_spec.
  - unfold stepTimedOut. destruct (stepTimeout d); cbn [negb]; [ | apply demoKeeps_refl ].
    apply runDemoStep_spec.
  - unfold stop. destruct (isActive d); apply demoKeeps_refl.
  - destruct ms as [m st]. repeat split; tauto.
  - cbn [fst snd]. apply untouched_demoKeeps. apply presets_handle_untouched.
Qed.

(** X21: nothing the demonstration does (its steps, with the presets,
    toggles, palette change and pulse they trigger, its stop, the keys and
    transition frames of the preset manager meanwhile) changes the
    particle arrays or the particle count, and a palette index that names
    a palette still names one afterwards. *)
Theorem demo_keeps_particles (evs : list DemoMode.Event) (w : World) :
  let v := visualizer (snd (snd w)) in
  let v' := visualizer (snd (snd (handleAll' w evs))) in
  particles v' = particles v
  /\ particleCount v' = particleCount v
  /\ ((0 <= currentPalette v <= 2)%Z -> (0 <= currentPalette v' <= 2)%Z).
Proof.
  cbn zeta. unfold DemoMode.handleAll. revert w.
  induction evs as [|ev evs IH]; intros w; cbn [fold_left].
  - apply demoKeeps_refl.
  - exact (demoKeeps_trans _ _ _ (handle_demoKeeps w ev) (IH (handle' w ev))).
Qed.

End Demo.

Lemma demo_runs_thirteen_steps_witness :
  fst (DemoMode.timeouts PresetManager.examplePow
         (DemoMode.start PresetManager.examplePow
            (DemoMode.create,
             PresetManager.create PresetManager.examplePow
               (PresetManager.stageOf (still 4 origin cosmic))) 0 0)
         (repeat (0%Z, 0%Z) 13))
  = {| DemoMode.isActive := (length (repeat (0%Z, 0%Z) 13) <? 13)%nat;
       DemoMode.currentStep := length (repeat (0%Z, 0%Z) 13);
       DemoMode.stepTimeout := (length (repeat (0%Z, 0%Z) 13) <? 13)%nat;
       DemoMode.unfreezeTimeouts := DemoMode.unfreezeTimeouts DemoMode.create |}.
Proof.
  apply (demo_runs_thirteen_steps PresetManager.examplePow DemoMode.create);
    [ reflexivity | cbn; lia ].
Defined.

(** ** Hiding and showing the interface *)

Section Performance.

Import PerformanceMode.

Local Open Scope string_scope.

Lemma orElse_empty (s : String.string) : orElse s String.EmptyString = s.
Proof. destruct s; reflexivity. Qed.

Lemma set_display_same (el : Element) : set_display el (display el) = el.
Proof. destruct el; reflexivity. Qed.

Lemma entered_spec (hidden : list Hidden) (i : nat) :
  entered hidden i = true <-> In i (map fst hidden).
Proof.
  unfold entered. rewrite existsb_exists, in_map_iff. split.
  - intros (h & Hin & Heq). apply Nat.eqb_eq in Heq. exists h. split; assumption.
  - intros (h & Heq & Hin). exists h. split; [ exact Hin | apply Nat.eqb_eq; exact Heq ].
Qed.

Lemma entered_app (hidden : list Hidden) (h : Hidden) (i : nat) :
  entered (hidden ++ [ h ]) i = entered hidden i || (fst h =? i)%nat.
Proof. unfold entered. rewrite existsb_app. cbn. rewrite orb_false_r. reflexivity. Qed.

Lemma isUI_spec (el : Element) :
  isUI el = true <-> exists selector, In selector uiSelectors /\ matches selector el = true.
Proof. unfold isUI. apply existsb_exists. Qed.

Lemma hiding_length (doc0 : Document) (selectors : list String.string)
  (acc : Document * list Hidden) :
  hiding doc0 selectors acc -> length (fst acc) = length doc0.
Proof.
  intros (H & _). destruct (Nat.lt_total (length (fst acc)) (length doc0)) as [Hlt|[Heq|Hgt]].
  - destruct (lookup_lt_is_Some_2 doc0 (length (fst acc)) Hlt) as [el0 E0].
    specialize (H (length (fst acc))). rewrite E0 in H.
    rewrite (proj2 (lookup_ge_None _ _)) in H by lia. destruct (entered _ _); discriminate.
  - exact Heq.
  - destruct (lookup_lt_is_Some_2 (fst acc) (length doc0) Hgt) as [el E].
    specialize (H (length doc0)). rewrite E in H.
    rewrite (proj2 (lookup_ge_None doc0 _)) in H by lia. discriminate.
Qed.

Lemma hiding_matches (doc0 : Document) (selectors : list String.string)
  (acc : Document * list Hidden) (selector : String.string) :
  hiding doc0 selectors acc ->
  querySelectorAll (fst acc) selector = querySelectorAll doc0 selector.
Proof.
  intros Hacc. unfold querySelectorAll. rewrite (hiding_length _ _ _ Hacc).
  apply List.filter_ext. intros i. destruct Hacc as (H & _). rewrite H.
  destruct (doc0 !! i); [ | reflexivity ]. destruct (entered _ _); reflexivity.
Qed.

(** One element hidden. *)
Lemma hideElement_hiding (doc0 : Document) (selectors : list String.string)
  (acc : Document * list Hidden) (i : nat) :
  (forall el0, doc0 !! i = Some el0 -> isUI el0 = true) ->
  hiding doc0 selectors acc ->
  hiding doc0 selectors (hideElement acc i)
  /\ (forall j, entered (snd acc) j = true -> entered (snd (hideElement acc i)) j = true)
  /\ (forall el0, doc0 !! i = Some el0 ->
        entered (snd (hideElement acc i)) i = true \/ display el0 = "none").
Proof.
  intros Hui Hacc. destruct Hacc as (Hview & Hold & Hnd & Hseen). destruct acc as [doc hidden].
  cbn [fst snd] in *. unfold hideElement.
  pose proof (Hview i) as Hi.
  destruct (doc !! i) as [el|] eqn:Ei.
  2: { split; [ split; [ exact Hview | split; [ exact Hold | split; assumption ] ] | ].
       split; [ tauto | ]. intros el0 E0. rewrite E0 in Hi.
       destruct (entered hidden i); discriminate. }
  destruct (doc0 !! i) as [el0|] eqn:E0; [ | discriminate ].
  destruct (String.eqb_spec (display el) "none") as [Hnone|Hshown]; cbn [negb fst snd].
  - split; [ split; [ exact Hview | split; [ exact Hold | split; assumption ] ] | ].
    split; [ tauto | ]. intros el0' [= <-].
    destruct (entered hidden i); [ left; reflexivity | right ].
    injection Hi as ->. exact Hnone.
  - assert (Hnew : entered hidden i = false).
    { destruct (entered hidden i); [ | reflexivity ].
      injection Hi as ->. exfalso. apply Hshown. reflexivity. }
    rewrite Hnew in Hi. injection Hi as ->.
    split; [ | split ].
    + split; [ | split; [ | split ] ]; cbn [fst snd].
      * intros j. rewrite entered_app. cbn [fst]. destruct (Nat.eqb_spec i j) as [<-|Hne].
        -- rewrite list_lookup_insert_eq by (apply lookup_lt_Some in Ei; exact Ei).
           rewrite E0, orb_true_r. reflexivity.
        -- rewrite list_lookup_insert_ne by congruence. rewrite Hview, orb_false_r.
           reflexivity.
      * apply Forall_app. split; [ exact Hold | ]. constructor; [ | constructor ].
        exists el0. cbn [fst snd].
        split; [ exact E0 | split; [ apply orElse_empty | apply Hui; reflexivity ] ].
      * rewrite map_app. apply NoDup_app. split; [ exact Hnd | ].
        split; [ | apply NoDup_singleton ].
        intros x Hx Hx'. apply list_elem_of_In in Hx. apply list_elem_of_singleton in Hx'.
        subst x. apply entered_spec in Hx. cbn [fst] in Hx. congruence.
      * intros j elj selector Ej Hs Hm. rewrite entered_app.
        destruct (Hseen j elj selector Ej Hs Hm) as [Hin|Hn]; [ left | right; exact Hn ].
        rewrite Hin. reflexivity.
    + intros j Hj. rewrite entered_app, Hj. reflexivity.
    + intros el0' _. left. rewrite entered_app. cbn [fst]. rewrite Nat.eqb_refl.
      apply orb_true_r.
Qed.

Lemma hideElements_hiding (doc0 : Document) (selectors : list String.string)
  (indices : list nat) : forall acc : Document * list Hidden,
  (forall i el0, In i indices -> doc0 !! i = Some el0 -> isUI el0 = true) ->
  hiding doc0 selectors acc ->
  hiding doc0 selectors (fold_left hideElement indices acc)
  /\ (forall j, entered (snd acc) j = true
        -> entered (snd (fold_left hideElement indices acc)) j = true)
  /\ (forall i el0, In i indices -> doc0 !! i = Some el0 ->
        entered (snd (fold_left hideElement indices acc)) i = true \/ display el0 = "none").
Proof.
  induction indices as [|i indices IH]; intros acc Hui Hacc; cbn [fold_left].
  - split; [ exact Hacc | ]. split; [ tauto | intros i el0 [] ].
  - destruct (hideElement_hiding doc0 selectors acc i) as (H1 & H2 & H3);
      [ intros el0; apply Hui; left; reflexivity | exact Hacc | ].
    destruct (IH (hideElement acc i)) as (I1 & I2 & I3);
      [ intros j el0 Hj; apply Hui; right; exact Hj | exact H1 | ].
    split; [ exact I1 | ]. split; [ intros j Hj; apply I2, H2, Hj | ].
    intros j el0 [<-|Hj] Ej; [ | exact (I3 j el0 Hj Ej) ].
    destruct (H3 el0 Ej) as [Hin|Hn]; [ left; apply I2, Hin | right; exact Hn ].
Qed.

Lemma hideSelectors_hiding (doc0 : Document) (todo : list String.string) :
  forall (done : list String.string) (acc : Document * list Hidden),
  incl todo uiSelectors ->
  hiding doc0 done acc ->
  hiding doc0 (done ++ todo)
    (fold_left
       (fun acc selector => fold_left hideElement (querySelectorAll (fst acc) selector) acc)
       todo acc).
Proof.
  induction todo as [|selector todo IH]; intros done acc Hincl Hacc; cbn [fold_left].
  - rewrite app_nil_r. exact Hacc.
  - replace (done ++ selector :: todo) with ((done ++ [ selector ]) ++ todo)
      by (rewrite <- app_assoc; reflexivity).
    apply IH; [ intros s Hs; apply Hincl; right; exact Hs | ].
    rewrite (hiding_matches _ _ _ selector Hacc).
    assert (Hq : forall i el0, In i (querySelectorAll doc0 selector) ->
                   doc0 !! i = Some el0 -> matches selector el0 = true).
    { intros i el0 Hi Ei. unfold querySelectorAll in Hi. apply List.filter_In in Hi as [_ Hm].
      rewrite Ei in Hm. exact Hm. }
    destruct (hideElements_hiding doc0 done (querySelectorAll doc0 selector) acc)
      as ((H1 & H2 & H3 & H4) & Hgrow & Hnow); [ | exact Hacc | ].
    { intros i el0 Hi Ei. apply isUI_spec. exists selector.
      split; [ apply Hincl; left; reflexivity | exact (Hq i el0 Hi Ei) ]. }
    split; [ exact H1 | ]. split; [ exact H2 | ]. split; [ exact H3 | ].
    intros i el0 s Ei Hs Hm. apply in_app_or in Hs. destruct Hs as [Hs|[<-|[]]].
    + exact (H4 i el0 s Ei Hs Hm).
    + apply (Hnow i el0); [ | exact Ei ].
      unfold querySelectorAll. apply List.filter_In. split.
      * apply in_seq. apply lookup_lt_Some in Ei. lia.
      * rewrite Ei. exact Hm.
Qed.

Lemma hideUI_hiding (doc0 : Document) : hiding doc0 uiSelectors (hideUI doc0).
Proof.
  apply (hideSelectors_hiding doc0 uiSelectors [] (doc0, [])); [ intros s Hs; exact Hs | ].
  split; [ | split; [ constructor | split; [ constructor | ] ] ].
  - intros i. cbn. destruct (doc0 !! i); reflexivity.
  - intros i el0 s _ [].
Qed.

Lemma showUI_lookup (hidden : list Hidden) : forall (doc : Document) (i : nat),
  NoDup (map fst hidden) ->
  showUI doc hidden !! i
  = match find (fun h => fst h =? i)%nat hidden, doc !! i with
    | Some h, Some el => Some (set_display el (snd h))
    | _, x => x
    end.
Proof.
  unfold showUI.
  induction hidden as [|h hidden IH]; intros doc i Hnd; cbn [fold_left find map] in *.
  - destruct (doc !! i); reflexivity.
  - apply NoDup_cons in Hnd as [Hh Hnd]. rewrite IH by exact Hnd.
    destruct (Nat.eqb_spec (fst h) i) as [<-|Hne].
    + assert (Hnone : find (fun h' => (fst h' =? fst h)%nat) hidden = None).
      { destruct (find _ hidden) as [h'|] eqn:Ef; [ exfalso | reflexivity ].
        apply find_some in Ef as [Hin Heq]. apply Nat.eqb_eq in Heq.
        apply Hh. apply list_elem_of_In. rewrite <- Heq. apply in_map. exact Hin. }
      rewrite Hnone. destruct (doc !! fst h) as [el|] eqn:E.
      * rewrite list_lookup_insert_eq by (apply lookup_lt_Some in E; exact E).
        reflexivity.
      * rewrite E. reflexivity.
    + assert (Hsame : match doc !! fst h with
                      | Some el => <[fst h := set_display el (snd h)]> doc
                      | None => doc
                      end !! i = doc !! i).
      { destruct (doc !! fst h); [ | reflexivity ].
        apply list_lookup_insert_ne. exact Hne. }
      rewrite Hsame. reflexivity.
Qed.

Lemma showUI_restores (doc0 : Document) (selectors : list String.string)
  (acc : Document * list Hidden) :
  hiding doc0 selectors acc -> showUI (fst acc) (snd acc) = doc0.
Proof.
  intros (Hview & Hold & Hnd & _). apply list_eq. intros i.
  rewrite showUI_lookup by exact Hnd. rewrite Hview.
  destruct (find _ (snd acc)) as [h|] eqn:Ef.
  - apply find_some in Ef as [Hin Heq]. apply Nat.eqb_eq in Heq. subst i.
    rewrite Forall_forall in Hold. destruct (Hold h) as (el0 & E0 & Hd & _);
      [ apply list_elem_of_In; exact Hin | ].
    rewrite E0, (proj2 (entered_spec _ _)) by (apply in_map; exact Hin).
    rewrite Hd. destruct el0; reflexivity.
  - destruct (doc0 !! i) as [el0|]; [ | reflexivity ].
    destruct (entered (snd acc) i) eqn:Ee; [ exfalso | reflexivity ].
    apply entered_spec, in_map_iff in Ee as (h & Hh & Hin).
    apply (find_none _ _ Ef) in Hin. apply Nat.eqb_neq in Hin. contradiction.
Qed.

(** X22: [hideUI] hides every element that one of the six selectors
    matches and leaves the others as they are, and [showUI] then gives
    every element the display it had: the page is the page before. *)
Theorem hideUI_showUI (doc : Document) :
  showUI (fst (hideUI doc)) (snd (hideUI doc)) = doc
  /\ forall (i : nat) (el : Element),
       doc !! i = Some el ->
       fst (hideUI doc) !! i = Some (if isUI el then set_display el "none" else el).
Proof.
  pose proof (hideUI_hiding doc) as H. split; [ exact (showUI_restores _ _ _ H) | ].
  destruct H as (Hview & Hold & _ & Hseen). intros i el Ei. rewrite Hview, Ei.
  destruct (entered (snd (hideUI doc)) i) eqn:Ee.
  - apply entered_spec, in_map_iff in Ee as (h & Hh & Hin).
    rewrite Forall_forall in Hold. destruct (Hold h) as (el0 & E0 & _ & Hui);
      [ apply list_elem_of_In; exact Hin | ].
    rewrite Hh, Ei in E0. injection E0 as <-. rewrite Hui. reflexivity.
  - destruct (isUI el) eqn:Eu; [ | reflexivity ].
    apply isUI_spec in Eu as (s & Hs & Hm).
    destruct (Hseen i el s Ei Hs Hm) as [Hc|Hnone]; [ congruence | ].
    rewrite <- Hnone. rewrite set_display_same. reflexivity.
Qed.

End Performance.
